(** * Tina Nova Defense: the simulation core of [TinaNovaDefense.tsx]

    A shallow embedding of the game component's mutable state
    ([state.current]), of its React state ([gameState], [score], [wave],
    [waveMessage]) and of the handlers that change them: [initGame],
    [startNextWave], [update] (one animation frame) and [handleInput].

    Numbers.  The source computes on JavaScript numbers.  Counters that
    only ever hold integers (ammo, score, wave, spawn budget) are [Z];
    every other number is an exact rational [Q], so rounding is idealised
    away and there is neither [NaN] nor an infinity.  The one place where
    the code can leave the finite numbers, the division by the canvas size
    in [handleInput], is modelled by an optional point ([eventTarget]).
    Statements follow the code's own formulas step by step; where one
    sums up many steps or cancels a division, it leaves a margin that the
    rounding of the code's numbers stays within.  [Math.sqrt] is kept
    symbolic (see [Surd]): the code only ever compares a distance with
    another number, and these comparisons are decided exactly on the
    squares.

    Host.  [Math.random()], [Date.now()] and the calls into React
    ([setGameState], [setScore], ..., [setTimeout], [draw],
    [requestAnimationFrame]) go through a small state monad [Sim] over the
    record [Host]: random draws are read off an arbitrary sequence, and the
    calls are logged in program order.  React applies the logged setters
    only after the handler has returned ([commit]); inside a handler
    [gameState] is the value captured by the closure, and the next handler
    to run is the one created by the render that follows.  Handlers run one
    at a time, to completion ([step]); the callback of [setTimeout] is a
    handler of its own, run at some later moment while it is pending.
    Inside [update] drawing is the logged call to [draw]; what [draw]
    puts on the canvas is modelled apart, as the list of the calls it
    makes on the 2D context. *)

From Stdlib Require Import ZArith QArith Qround Qabs String List Bool.
From Stdlib Require Import DecimalString Permutation.
From Stdlib Require Import Reals Qreals Psatz.
From stdpp Require Import base list.

Open Scope Q_scope.

(** ** Numbers *)

Definition Qltb (a b : Q) : bool := negb (Qle_bool b a).
Definition Qgtb (a b : Q) : bool := Qltb b a.
Definition Qgeb (a b : Q) : bool := Qle_bool b a.

Definition Qmax (a b : Q) : Q := if Qltb a b then b else a.

(** [Math.sqrt r], never evaluated: the square root of the rational
    [radicand]. *)
Record Surd := Sqrt { radicand : Q }.

(** [Math.sqrt(a) < r] for a rational [r]: a square root is not below a
    non-positive number, and below a positive one exactly when the squares
    compare. *)
Definition surd_ltQ (d : Surd) (r : Q) : bool :=
  Qltb 0 r && Qltb (radicand d) (r * r).

(** [minDist] of [handleInput] is either [Infinity] or a distance. *)
Inductive Dist := Infinity | Finite (d : Surd).

Definition surd_lt_dist (d : Surd) (m : Dist) : bool :=
  match m with
  | Infinity => true
  | Finite d' => Qltb (radicand d) (radicand d')
  end.

(** ** Types and constants (lines 5-49) *)

Record Point := { px : Q; py : Q }.

Record GameObject := {
  id : Q;
  x : Q;
  y : Q;
  active : bool
}.

Record Tower := {
  tower_base :> GameObject;
  ammo : Z;
  maxAmmo : Z;
  tower_color : string
}.

Record City := {
  city_base :> GameObject;
  city_color : string
}.

Record Missile := {
  missile_base :> GameObject;
  startX : Q;
  startY : Q;
  targetX : Q;
  targetY : Q;
  speed : Q;
  progress : Q;
  missile_color : string;
  trail : list Point
}.

Record Explosion := {
  explosion_base :> GameObject;
  radius : Q;
  maxRadius : Q;
  duration : Q;
  age : Q;
  explosion_color : string
}.

Definition GAME_WIDTH : Q := 800.
Definition GAME_HEIGHT : Q := 600.
Definition GROUND_HEIGHT : Q := 40.
Definition WIN_SCORE : Z := 1000.
Definition AMMO_BONUS : Z := 5.

Definition pos (o : GameObject) : Point := {| px := x o; py := y o |}.

(** [distance] (line 80). *)
Definition distance (p1 p2 : Point) : Surd :=
  Sqrt ((px p2 - px p1) ^ 2 + (py p2 - py p1) ^ 2).

(** In-place field updates of the source, as functions. *)
Definition deactivate (o : GameObject) : GameObject :=
  {| id := id o; x := x o; y := y o; active := false |}.

Definition moveTo (nx ny : Q) (o : GameObject) : GameObject :=
  {| id := id o; x := nx; y := ny; active := active o |}.

Definition tower_with_base (o : GameObject) (t : Tower) : Tower :=
  {| tower_base := o; ammo := ammo t; maxAmmo := maxAmmo t;
     tower_color := tower_color t |}.

Definition tower_with_ammo (a : Z) (t : Tower) : Tower :=
  {| tower_base := tower_base t; ammo := a; maxAmmo := maxAmmo t;
     tower_color := tower_color t |}.

Definition city_with_base (o : GameObject) (c : City) : City :=
  {| city_base := o; city_color := city_color c |}.

Definition missile_with (o : GameObject) (p : Q) (tr : list Point)
    (m : Missile) : Missile :=
  {| missile_base := o; startX := startX m; startY := startY m;
     targetX := targetX m; targetY := targetY m; speed := speed m;
     progress := p; missile_color := missile_color m; trail := tr |}.

Definition explosion_with (o : GameObject) (r a : Q) (e : Explosion)
    : Explosion :=
  {| explosion_base := o; radius := r; maxRadius := maxRadius e;
     duration := duration e; age := a;
     explosion_color := explosion_color e |}.

(** The object literal pushed on [s.explosions] at every creation site:
    [active: true, radius: 0, age: 0]. *)
Definition newExplosion (i ex ey maxR dur : Q) (col : string) : Explosion :=
  {| explosion_base := {| id := i; x := ex; y := ey; active := true |};
     radius := 0; maxRadius := maxR; duration := dur; age := 0;
     explosion_color := col |}.

(** ** The mutable game state [state.current] (lines 92-106) *)

Record State := {
  towers : list Tower;
  cities : list City;
  playerMissiles : list Missile;
  enemyMissiles : list Missile;
  explosions : list Explosion;
  lastTime : Q;
  spawnTimer : Q;
  spawnInterval : Q;
  score : Z;
  wave : Z;
  enemiesToSpawn : Z;
  enemiesSpawned : Z;
  enemySpeedMultiplier : Q
}.

Definition set_towers v s :=
  {| towers := v; cities := cities s; playerMissiles := playerMissiles s;
     enemyMissiles := enemyMissiles s; explosions := explosions s;
     lastTime := lastTime s; spawnTimer := spawnTimer s;
     spawnInterval := spawnInterval s; score := score s; wave := wave s;
     enemiesToSpawn := enemiesToSpawn s; enemiesSpawned := enemiesSpawned s;
     enemySpeedMultiplier := enemySpeedMultiplier s |}.

Definition set_cities v s :=
  {| towers := towers s; cities := v; playerMissiles := playerMissiles s;
     enemyMissiles := enemyMissiles s; explosions := explosions s;
     lastTime := lastTime s; spawnTimer := spawnTimer s;
     spawnInterval := spawnInterval s; score := score s; wave := wave s;
     enemiesToSpawn := enemiesToSpawn s; enemiesSpawned := enemiesSpawned s;
     enemySpeedMultiplier := enemySpeedMultiplier s |}.

Definition set_playerMissiles v s :=
  {| towers := towers s; cities := cities s; playerMissiles := v;
     enemyMissiles := enemyMissiles s; explosions := explosions s;
     lastTime := lastTime s; spawnTimer := spawnTimer s;
     spawnInterval := spawnInterval s; score := score s; wave := wave s;
     enemiesToSpawn := enemiesToSpawn s; enemiesSpawned := enemiesSpawned s;
     enemySpeedMultiplier := enemySpeedMultiplier s |}.

Definition set_enemyMissiles v s :=
  {| towers := towers s; cities := cities s;
     playerMissiles := playerMissiles s;
     enemyMissiles := v; explosions := explosions s;
     lastTime := lastTime s; spawnTimer := spawnTimer s;
     spawnInterval := spawnInterval s; score := score s; wave := wave s;
     enemiesToSpawn := enemiesToSpawn s; enemiesSpawned := enemiesSpawned s;
     enemySpeedMultiplier := enemySpeedMultiplier s |}.

Definition set_explosions v s :=
  {| towers := towers s; cities := cities s;
     playerMissiles := playerMissiles s;
     enemyMissiles := enemyMissiles s; explosions := v;
     lastTime := lastTime s; spawnTimer := spawnTimer s;
     spawnInterval := spawnInterval s; score := score s; wave := wave s;
     enemiesToSpawn := enemiesToSpawn s; enemiesSpawned := enemiesSpawned s;
     enemySpeedMultiplier := enemySpeedMultiplier s |}.

Definition set_lastTime v s :=
  {| towers := towers s; cities := cities s;
     playerMissiles := playerMissiles s;
     enemyMissiles := enemyMissiles s; explosions := explosions s;
     lastTime := v; spawnTimer := spawnTimer s;
     spawnInterval := spawnInterval s; score := score s; wave := wave s;
     enemiesToSpawn := enemiesToSpawn s; enemiesSpawned := enemiesSpawned s;
     enemySpeedMultiplier := enemySpeedMultiplier s |}.

Definition set_spawnTimer v s :=
  {| towers := towers s; cities := cities s;
     playerMissiles := playerMissiles s;
     enemyMissiles := enemyMissiles s; explosions := explosions s;
     lastTime := lastTime s; spawnTimer := v;
     spawnInterval := spawnInterval s; score := score s; wave := wave s;
     enemiesToSpawn := enemiesToSpawn s; enemiesSpawned := enemiesSpawned s;
     enemySpeedMultiplier := enemySpeedMultiplier s |}.

Definition set_spawnInterval v s :=
  {| towers := towers s; cities := cities s;
     playerMissiles := playerMissiles s;
     enemyMissiles := enemyMissiles s; explosions := explosions s;
     lastTime := lastTime s; spawnTimer := spawnTimer s;
     spawnInterval := v; score := score s; wave := wave s;
     enemiesToSpawn := enemiesToSpawn s; enemiesSpawned := enemiesSpawned s;
     enemySpeedMultiplier := enemySpeedMultiplier s |}.

Definition set_score v s :=
  {| towers := towers s; cities := cities s;
     playerMissiles := playerMissiles s;
     enemyMissiles := enemyMissiles s; explosions := explosions s;
     lastTime := lastTime s; spawnTimer := spawnTimer s;
     spawnInterval := spawnInterval s; score := v; wave := wave s;
     enemiesToSpawn := enemiesToSpawn s; enemiesSpawned := enemiesSpawned s;
     enemySpeedMultiplier := enemySpeedMultiplier s |}.

Definition set_wave v s :=
  {| towers := towers s; cities := cities s;
     playerMissiles := playerMissiles s;
     enemyMissiles := enemyMissiles s; explosions := explosions s;
     lastTime := lastTime s; spawnTimer := spawnTimer s;
     spawnInterval := spawnInterval s; score := score s; wave := v;
     enemiesToSpawn := enemiesToSpawn s; enemiesSpawned := enemiesSpawned s;
     enemySpeedMultiplier := enemySpeedMultiplier s |}.

Definition set_enemiesToSpawn v s :=
  {| towers := towers s; cities := cities s;
     playerMissiles := playerMissiles s;
     enemyMissiles := enemyMissiles s; explosions := explosions s;
     lastTime := lastTime s; spawnTimer := spawnTimer s;
     spawnInterval := spawnInterval s; score := score s; wave := wave s;
     enemiesToSpawn := v; enemiesSpawned := enemiesSpawned s;
     enemySpeedMultiplier := enemySpeedMultiplier s |}.

Definition set_enemiesSpawned v s :=
  {| towers := towers s; cities := cities s;
     playerMissiles := playerMissiles s;
     enemyMissiles := enemyMissiles s; explosions := explosions s;
     lastTime := lastTime s; spawnTimer := spawnTimer s;
     spawnInterval := spawnInterval s; score := score s; wave := wave s;
     enemiesToSpawn := enemiesToSpawn s; enemiesSpawned := v;
     enemySpeedMultiplier := enemySpeedMultiplier s |}.

Definition set_enemySpeedMultiplier v s :=
  {| towers := towers s; cities := cities s;
     playerMissiles := playerMissiles s;
     enemyMissiles := enemyMissiles s; explosions := explosions s;
     lastTime := lastTime s; spawnTimer := spawnTimer s;
     spawnInterval := spawnInterval s; score := score s; wave := wave s;
     enemiesToSpawn := enemiesToSpawn s; enemiesSpawned := enemiesSpawned s;
     enemySpeedMultiplier := v |}.

(** [s.explosions.push(e)] *)
Definition push_explosion (e : Explosion) (s : State) : State :=
  set_explosions (explosions s ++ [e]) s.

(** The value of the [useRef] at mount (lines 92-106). *)
Definition initialState : State :=
  {| towers := []; cities := []; playerMissiles := []; enemyMissiles := [];
     explosions := []; lastTime := 0; spawnTimer := 0; spawnInterval := 2000;
     score := 0; wave := 1; enemiesToSpawn := 10; enemiesSpawned := 0;
     enemySpeedMultiplier := 1 |}.

(** ** React state and the host environment *)

Inductive GameState := start | playing | victory | defeat | wave_complete.

Definition GameState_eqb (a b : GameState) : bool :=
  match a, b with
  | start, start | playing, playing | victory, victory
  | defeat, defeat | wave_complete, wave_complete => true
  | _, _ => false
  end.

(** Calls out of a handler, in program order.  [SetTimeout ms] registers
    the one callback the source ever passes to [setTimeout], the
    end-of-wave continuation [waveTimeout] below. *)
Inductive Call :=
| SetGameState (g : GameState)
| SetScore (n : Z)
| SetWave (n : Z)
| SetWaveMessage (msg : string)
| SetTimeout (ms : Z)
| Draw
| RequestAnimationFrame.

Record Host := {
  random : nat -> Q;      (* the results of successive [Math.random()] *)
  drawn : nat;            (* how many have been consumed *)
  dateNow : Q;            (* [Date.now()] during the running handler *)
  calls : list Call       (* calls made so far by the running handler *)
}.

Definition Sim (A : Type) : Type := Host -> A * Host.

#[global] Instance Sim_ret : MRet Sim := fun A a h => (a, h).

#[global] Instance Sim_bind : MBind Sim := fun A B k m h =>
  let (a, h') := m h in k a h'.

Definition Math_random : Sim Q := fun h =>
  (random h (drawn h),
   {| random := random h; drawn := S (drawn h); dateNow := dateNow h;
      calls := calls h |}).

Definition Date_now : Sim Q := fun h => (dateNow h, h).

Definition call (c : Call) : Sim unit := fun h =>
  (tt, {| random := random h; drawn := drawn h; dateNow := dateNow h;
          calls := calls h ++ [c] |}).

(** [id: Date.now() + Math.random()] *)
Definition freshId : Sim Q :=
  n ← Date_now; r ← Math_random; mret (n + r).

(** [arr.forEach(f)] where [f] mutates the visited element and some other
    part [S] of the state.  Elements pushed on the array during the loop
    are not visited, so the loop runs over the list as it was. *)
Fixpoint forEach {A S} (f : A -> S -> Sim (A * S)) (l : list A) (s : S)
    : Sim (list A * S) :=
  match l with
  | [] => mret ([], s)
  | a :: l' =>
      '(a', s1) ← f a s;
      '(l'', s2) ← forEach f l' s1;
      mret (a' :: l'', s2)
  end.

(** ** Initialization (lines 110-169) *)

Definition mkTower (i tx ty : Q) (a : Z) : Tower :=
  {| tower_base := {| id := i; x := tx; y := ty; active := true |};
     ammo := a; maxAmmo := a; tower_color := "#60a5fa" |}.

Definition mkCity (i cx cy : Q) : City :=
  {| city_base := {| id := i; x := cx; y := cy; active := true |};
     city_color := "#34d399" |}.

Definition initialTowers : list Tower :=
  [ mkTower 1 (GAME_WIDTH * 0.1) (GAME_HEIGHT - GROUND_HEIGHT + 10) 20;
    mkTower 2 (GAME_WIDTH * 0.5) (GAME_HEIGHT - GROUND_HEIGHT + 10) 40;
    mkTower 3 (GAME_WIDTH * 0.9) (GAME_HEIGHT - GROUND_HEIGHT + 10) 20 ].

Definition initialCities : list City :=
  let cityY := GAME_HEIGHT - GROUND_HEIGHT + 15 in
  [ mkCity 1 (GAME_WIDTH * 0.2) cityY; mkCity 2 (GAME_WIDTH * 0.3) cityY;
    mkCity 3 (GAME_WIDTH * 0.4) cityY; mkCity 4 (GAME_WIDTH * 0.6) cityY;
    mkCity 5 (GAME_WIDTH * 0.7) cityY; mkCity 6 (GAME_WIDTH * 0.8) cityY ].

Definition initGame (resetScore : bool) (s : State) : Sim State :=
  s ← (if resetScore then
         let s := set_score 0%Z s in
         let s := set_wave 1%Z s in
         let s := set_enemySpeedMultiplier 1 s in
         let s := set_enemiesToSpawn 10%Z s in
         call (SetScore 0);; call (SetWave 1);; mret s
       else mret s);
  let s := set_towers initialTowers s in
  let s := set_cities initialCities s in
  let s := set_playerMissiles [] s in
  let s := set_enemyMissiles [] s in
  let s := set_explosions [] s in
  let s := set_spawnTimer 0 s in
  let s := set_enemiesSpawned 0%Z s in
  let s := set_spawnInterval (Qmax 500 (2500 - inject_Z (wave s) * 200)) s in
  call (SetGameState playing);; mret s.

(** The [forEach] body of lines 157-161. *)
Definition replenish (t : Tower) : Tower :=
  if active t then tower_with_ammo (maxAmmo t) t else t.

Definition startNextWave (s : State) : Sim State :=
  let s := set_wave (wave s + 1)%Z s in
  let s := set_enemySpeedMultiplier (enemySpeedMultiplier s + 0.15) s in
  let s := set_enemiesToSpawn (10 + wave s * 2)%Z s in
  let s := set_enemiesSpawned 0%Z s in
  let s := set_spawnInterval (Qmax 400 (2500 - inject_Z (wave s) * 150)) s in
  let s := set_towers (map replenish (towers s)) s in
  let s := set_playerMissiles [] s in
  let s := set_enemyMissiles [] s in
  let s := set_explosions [] s in
  call (SetWave (wave s));; call (SetGameState playing);; mret s.

(** The callback handed to [setTimeout] at lines 230-236. *)
Definition waveTimeout (s : State) : Sim State :=
  if (WIN_SCORE <=? score s)%Z then call (SetGameState victory);; mret s
  else startNextWave s.

(** ** Player input (lines 489-549) *)

Record DOMRect := {
  rect_left : Q; rect_top : Q; rect_width : Q; rect_height : Q
}.

Record Touch := { touch_clientX : Q; touch_clientY : Q }.

(** A mouse event, or a touch event with its non-empty [touches]. *)
Inductive InputEvent :=
| MouseEvent (clientX clientY : Q)
| TouchEvent (first : Touch) (more : list Touch).

(** Lines 496-512: the pointer position in game coordinates.  A number of
    the model is finite.  With [rect.width] or [rect.height] zero the scale
    is [Infinity] and the coordinate it multiplies is [Infinity],
    [-Infinity] or [NaN]: the event then has no game point, [None]. *)
Definition eventTarget (rect : DOMRect) (e : InputEvent) : option Point :=
  let '(clientX, clientY) :=
    match e with
    | TouchEvent t _ => (touch_clientX t, touch_clientY t)
    | MouseEvent cx cy => (cx, cy)
    end in
  if Qeq_bool (rect_width rect) 0 || Qeq_bool (rect_height rect) 0 then None
  else
    let scaleX := GAME_WIDTH / rect_width rect in
    let scaleY := GAME_HEIGHT / rect_height rect in
    Some {| px := (clientX - rect_left rect) * scaleX;
            py := (clientY - rect_top rect) * scaleY |}.

Definition hasAmmo (t : Tower) : bool := active t && (0 <? ammo t)%Z.

(** Lines 518-530: the scan for the closest tower with ammo.  [bestTower]
    is a reference into [s.towers], here the index of the tower; [i] is
    the index of the head of [ts]. *)
Fixpoint scanTowers (target : Point) (ts : list Tower) (i : nat)
    (bestTower : option nat) (minDist : Dist) : option nat * Dist :=
  match ts with
  | [] => (bestTower, minDist)
  | t :: ts' =>
      if hasAmmo t then
        let d := distance {| px := x t; py := y t |} target in
        if surd_lt_dist d minDist
        then scanTowers target ts' (S i) (Some i) (Finite d)
        else scanTowers target ts' (S i) bestTower minDist
      else scanTowers target ts' (S i) bestTower minDist
  end.

Definition playerMissile (i : Q) (t : Tower) (target : Point) : Missile :=
  {| missile_base :=
       {| id := i; x := x t; y := y t - 30; active := true |};
     startX := x t; startY := y t - 30;
     targetX := px target; targetY := py target;
     speed := 0.02; progress := 0; missile_color := "#60a5fa";
     trail := [] |}.

(** Lines 517-548. *)
Definition shoot (target : Point) (s : State) : Sim State :=
  match fst (scanTowers target (towers s) 0 None Infinity) with
  | Some i =>
      match towers s !! i with
      | Some bestTower =>
          let s :=
            set_towers
              (<[i := tower_with_ammo (ammo bestTower - 1)%Z bestTower]>
                 (towers s)) s in
          now ← Date_now;
          mret (set_playerMissiles
                  (playerMissiles s ++ [playerMissile now bestTower target])
                  s)
      | None => mret s
      end
  | None => mret s
  end.

(** [canvas] is [canvasRef.current] with its bounding rectangle, if the
    canvas is mounted.  Without a game point nothing is fired: a [targetY]
    of [Infinity] returns at line 515, and with any other coordinate that
    is not finite every distance [d] is [Infinity] or [NaN], so
    [d < minDist] is false for every tower and [bestTower] stays
    [null]. *)
Definition handleInput (gameState : GameState) (canvas : option DOMRect)
    (e : InputEvent) (s : State) : Sim State :=
  if negb (GameState_eqb gameState playing) then mret s else
  match canvas with
  | None => mret s
  | Some rect =>
      match eventTarget rect e with
      | Some target =>
          if Qgtb (py target) (GAME_HEIGHT - GROUND_HEIGHT + 10) then mret s
          else shoot target s
      | None => mret s
      end
  end.

(** ** The game loop: one call of [update] (lines 173-375) *)

(** [`+${bonus} Pts`] *)
Definition bonusMessage (bonus : Z) : string :=
  ("+" ++ NilZero.string_of_int (Z.to_int bonus) ++ " Pts")%string.

(** [[...s.cities, ...s.towers]], read only. *)
Definition structures (s : State) : list GameObject :=
  map city_base (cities s) ++ map tower_base (towers s).

(** Lines 188-216: the body of the spawn branch.  The draws are made in
    source order: [startX], the default [targetX], the 70% coin (only if
    there is an active structure), the index of the chosen structure, the
    id, the speed.  For a draw in [0, 1) the index is in range. *)
Definition spawnEnemy (s : State) : Sim State :=
  let s := set_spawnTimer 0 s in
  let s := set_enemiesSpawned (enemiesSpawned s + 1)%Z s in
  r ← Math_random;
  let startX := r * GAME_WIDTH in
  r ← Math_random;
  let targetX := r * GAME_WIDTH in
  let targetY := GAME_HEIGHT - GROUND_HEIGHT in
  let targets := List.filter active (structures s) in
  '(targetX, targetY) ←
    (if (0 <? length targets)%nat then
       coin ← Math_random;
       if Qltb coin 0.7 then
         r ← Math_random;
         match targets !!
                 Z.to_nat (Qfloor (r * inject_Z (Z.of_nat (length targets))))
         with
         | Some target => mret (x target, y target)
         | None => mret (targetX, targetY)
         end
       else mret (targetX, targetY)
     else mret (targetX, targetY));
  i ← freshId;
  r ← Math_random;
  mret (set_enemyMissiles
          (enemyMissiles s ++
           [ {| missile_base :=
                  {| id := i; x := startX; y := 0; active := true |};
                startX := startX; startY := 0;
                targetX := targetX; targetY := targetY;
                speed := (0.03 + r * 0.02) * enemySpeedMultiplier s;
                progress := 0; missile_color := "#ef4444"; trail := [] |} ])
          s).

(** Lines 220-223. *)
Definition ammoBonus (ts : list Tower) : Z :=
  fold_left (fun bonus t =>
               if active (tower_base t) then (bonus + ammo t * AMMO_BONUS)%Z
               else bonus) ts 0%Z.

(** Lines 219-236: the wave-complete branch. *)
Definition waveComplete (s : State) : Sim State :=
  let bonus := ammoBonus (towers s) in
  let s := set_score (score s + bonus)%Z s in
  call (SetScore (score s));;
  call (SetWaveMessage (bonusMessage bonus));;
  call (SetGameState wave_complete);;
  call (SetTimeout 3000);;
  mret s.

(** The condition of the [else if] at line 218. *)
Definition fieldClear (s : State) : bool :=
  (length (enemyMissiles s) =? 0)%nat && (length (explosions s) =? 0)%nat.

(** Step 1 (lines 184-237): spawn, or else detect the end of the wave. *)
Definition spawnEnemies (dt : Q) (s : State) : Sim State :=
  if (enemiesSpawned s <? enemiesToSpawn s)%Z then
    let s := set_spawnTimer (spawnTimer s + dt) s in
    if Qgtb (spawnTimer s) (spawnInterval s) then spawnEnemy s else mret s
  else if fieldClear s then waveComplete s
  else mret s.

(** [trail.push(p); if (trail.length > cap) trail.shift()] *)
Definition pushTrail (cap : nat) (p : Point) (tr : list Point) : list Point :=
  let tr := tr ++ [p] in
  if (cap <? length tr)%nat then tail tr else tr.

Definition lerp (a b t : Q) : Q := a + (b - a) * t.

(** Step 2 (lines 240-267), the body of the loop. *)
Definition stepPlayerMissile (dt : Q) (m : Missile) (s : State)
    : Sim (Missile * State) :=
  if negb (active m) then mret (m, s) else
  let p := progress m + speed m * dt in
  tr ← (if Qltb p 1 then
          r ← Math_random;
          mret (if Qgtb r 0.5 then pushTrail 10 (pos m) (trail m)
                else trail m)
        else mret (trail m));
  if Qgeb p 1 then
    i ← freshId;
    mret (missile_with (deactivate m) p tr m,
          push_explosion
            (newExplosion i (targetX m) (targetY m) 70 1200 "#ffffff") s)
  else
    mret (missile_with
            (moveTo (lerp (startX m) (targetX m) p)
                    (lerp (startY m) (targetY m) p) m) p tr m,
          s).

(** Lines 299-315, the body of the loop over [[...s.cities, ...s.towers]]:
    the copied array holds the same objects, so the structure is changed
    where it lives, in [s.cities] or [s.towers]. *)
Definition wreck {A} (base : A -> GameObject) (rebase : GameObject -> A -> A)
    (m : Point) (a : A) (s : State) : Sim (A * State) :=
  if active (base a) && surd_ltQ (distance m (pos (base a))) 35 then
    i ← freshId;
    mret (rebase (deactivate (base a)) a,
          push_explosion
            (newExplosion i (x (base a)) (y (base a)) 50 1000 "#ef4444") s)
  else mret (a, s).

Definition wreckStructures (m : Point) (s : State) : Sim State :=
  '(cs, s) ← forEach (wreck city_base city_with_base m) (cities s) s;
  let s := set_cities cs s in
  '(ts, s) ← forEach (wreck tower_base tower_with_base m) (towers s) s;
  mret (set_towers ts s).

(** Step 3 (lines 270-317), the body of the loop. *)
Definition stepEnemyMissile (dt : Q) (m : Missile) (s : State)
    : Sim (Missile * State) :=
  if negb (active m) then mret (m, s) else
  let p := progress m + speed m * dt * 0.005 in
  let o := moveTo (lerp (startX m) (targetX m) p)
                  (lerp (startY m) (targetY m) p) m in
  r ← Math_random;
  let tr := if Qgtb r 0.7 then pushTrail 5 (pos o) (trail m) else trail m in
  if Qgeb p 1 then
    i ← freshId;
    let s := push_explosion (newExplosion i (x o) (y o) 40 800 "#f59e0b") s in
    s ← wreckStructures (pos o) s;
    mret (missile_with (deactivate o) p tr m, s)
  else mret (missile_with o p tr m, s).

(** Line 326. *)
Definition halfLife (e : Explosion) : Q := duration e / 2.

(** Lines 327-331: the radius of an explosion of the given age. *)
Definition blastRadius (e : Explosion) (a : Q) : Q :=
  if Qltb a (halfLife e) then (a / halfLife e) * maxRadius e
  else (1 - (a - halfLife e) / halfLife e) * maxRadius e.

(** While [s.explosions] is being looped over, the loop changes the enemy
    missiles and the score, and pushes new explosions at the end of the
    array, behind the ones the loop visits. *)
Record Sweep := {
  sw_score : Z;
  sw_pushed : list Explosion
}.

(** Lines 334-353, the body of the inner loop. *)
Definition intercept (e : Explosion) (m : Missile) (w : Sweep)
    : Sim (Missile * Sweep) :=
  if active m && surd_ltQ (distance (pos m) (pos e)) (radius e) then
    let sc := (sw_score w + 20)%Z in
    call (SetScore sc);;
    i ← freshId;
    mret (missile_with (deactivate m) (progress m) (trail m) m,
          {| sw_score := sc;
             sw_pushed :=
               sw_pushed w ++ [newExplosion i (x m) (y m) 30 600 "#fbbf24"]
          |})
  else mret (m, w).

(** Step 4 (lines 320-355), the body of the outer loop. *)
Definition stepExplosion (dt : Q) (e : Explosion)
    (acc : list Missile * Sweep) : Sim (Explosion * (list Missile * Sweep)) :=
  if negb (active e) then mret (e, acc) else
  let a := age e + dt in
  if Qgtb a (duration e) then
    mret (explosion_with (deactivate e) (radius e) a e, acc)
  else
    let e := explosion_with e (blastRadius e a) a e in
    acc ← forEach (intercept e) (fst acc) (snd acc);
    mret (e, acc).

Definition updateExplosions (dt : Q) (s : State) : Sim State :=
  '(es, (ms, w)) ←
    forEach (stepExplosion dt) (explosions s)
      (enemyMissiles s, {| sw_score := score s; sw_pushed := [] |});
  let s := set_explosions (es ++ sw_pushed w) s in
  let s := set_enemyMissiles ms s in
  mret (set_score (sw_score w) s).

Definition updatePlayerMissiles (dt : Q) (s : State) : Sim State :=
  '(ms, s) ← forEach (stepPlayerMissile dt) (playerMissiles s) s;
  mret (set_playerMissiles ms s).

Definition updateEnemyMissiles (dt : Q) (s : State) : Sim State :=
  '(ms, s) ← forEach (stepEnemyMissile dt) (enemyMissiles s) s;
  mret (set_enemyMissiles ms s).

(** Step 5 (lines 358-360). *)
Definition cleanup (s : State) : State :=
  let s := set_playerMissiles
             (List.filter (fun m : Missile => active m) (playerMissiles s)) s in
  let s := set_enemyMissiles
             (List.filter (fun m : Missile => active m) (enemyMissiles s)) s in
  set_explosions
    (List.filter (fun e : Explosion => active e) (explosions s)) s.

(** Step 6 (lines 363-371). *)
Definition checkEndGame (gameState : GameState) (s : State) : Sim unit :=
  let activeTowers :=
    length (List.filter (fun t : Tower => active t) (towers s)) in
  if (activeTowers =? 0)%nat then call (SetGameState defeat)
  else if (WIN_SCORE <=? score s)%Z && GameState_eqb gameState playing
       then call (SetGameState victory)
  else mret tt.

(** [update(time)] as created by the render in which the React state was
    [gameState]. *)
Definition update (gameState : GameState) (time : Q) (s : State)
    : Sim State :=
  let s := if Qeq_bool (lastTime s) 0 then set_lastTime time s else s in
  let dt := time - lastTime s in
  let s := set_lastTime time s in
  if negb (GameState_eqb gameState playing) then
    call RequestAnimationFrame;; mret s
  else
    s ← spawnEnemies dt s;
    s ← updatePlayerMissiles dt s;
    s ← updateEnemyMissiles dt s;
    s ← updateExplosions dt s;
    let s := cleanup s in
    checkEndGame gameState s;;
    call Draw;;
    call RequestAnimationFrame;;
    mret s.

(** ** The mounted component: React state, pending timers, handlers *)

Record React := {
  gameState : GameState;
  scoreShown : Z;
  waveShown : Z;
  waveMessage : string
}.

Definition applyCall (r : React) (c : Call) : React :=
  match c with
  | SetGameState g =>
      {| gameState := g; scoreShown := scoreShown r;
         waveShown := waveShown r; waveMessage := waveMessage r |}
  | SetScore n =>
      {| gameState := gameState r; scoreShown := n;
         waveShown := waveShown r; waveMessage := waveMessage r |}
  | SetWave n =>
      {| gameState := gameState r; scoreShown := scoreShown r;
         waveShown := n; waveMessage := waveMessage r |}
  | SetWaveMessage msg =>
      {| gameState := gameState r; scoreShown := scoreShown r;
         waveShown := waveShown r; waveMessage := msg |}
  | SetTimeout _ | Draw | RequestAnimationFrame => r
  end.

(** The setters of one handler are applied in order when it returns. *)
Definition commit (r : React) (cs : list Call) : React :=
  fold_left applyCall cs r.

Definition isSetTimeout (c : Call) : bool :=
  match c with SetTimeout _ => true | _ => false end.

(** The [setGameState] calls among [cs], in order. *)
Definition transitions (cs : list Call) : list GameState :=
  omap (fun c => match c with SetGameState g => Some g | _ => None end) cs.

Record Session := {
  view : React;
  game : State;
  host : Host;
  timers : nat            (* [setTimeout] callbacks not yet run *)
}.

(** The component at mount (lines 85-106), for a given sequence of random
    draws. *)
Definition mount (rnd : nat -> Q) : Session :=
  {| view := {| gameState := start; scoreShown := 0; waveShown := 1;
                waveMessage := "" |};
     game := initialState;
     host := {| random := rnd; drawn := 0; dateNow := 0; calls := [] |};
     timers := 0 |}.

(** What the browser may do next. *)
Inductive Input :=
| AnimationFrame (time : Q)
| Pointer (canvas : option DOMRect) (e : InputEvent)
| ClickStart
| TimerFires.

Definition runHandler (now : Q) (h : State -> Sim State) (pending : nat)
    (se : Session) : Session :=
  let h0 := {| random := random (host se); drawn := drawn (host se);
               dateNow := now; calls := [] |} in
  let (s', h') := h (game se) h0 in
  {| view := commit (view se) (calls h');
     game := s';
     host := h';
     timers := pending + length (List.filter isSetTimeout (calls h')) |}.

(** The start and restart buttons are rendered in the states [start],
    [victory] and [defeat] only (lines 596, 632); both call
    [initGame(true)]. *)
Definition buttonShown (g : GameState) : bool :=
  match g with start | victory | defeat => true | _ => false end.

Definition step (se : Session) (ev : Q * Input) : Session :=
  let (now, i) := ev in
  match i with
  | AnimationFrame time =>
      runHandler now (update (gameState (view se)) time) (timers se) se
  | Pointer canvas e =>
      runHandler now (handleInput (gameState (view se)) canvas e)
        (timers se) se
  | ClickStart =>
      if buttonShown (gameState (view se))
      then runHandler now (initGame true) (timers se) se
      else se
  | TimerFires =>
      match timers se with
      | O => se
      | S n => runHandler now waveTimeout n se
      end
  end.

Definition run (se : Session) (evs : list (Q * Input)) : Session :=
  fold_left step evs se.

(** ** Vocabulary of the statements *)

(** The number a symbolic square root stands for. *)
Definition surd_val (d : Surd) : R := sqrt (Q2R (radicand d)).

(** The Euclidean distance between two points, as a real number. *)
Definition euclid (p q : Point) : R := surd_val (distance p q).

(** Everything in the game state but the towers and the player
    missiles. *)
Definition restOf (s : State) :=
  (cities s, enemyMissiles s, explosions s, lastTime s, spawnTimer s,
   spawnInterval s, score s, wave s, enemiesToSpawn s, enemiesSpawned s,
   enemySpeedMultiplier s).

(** An enemy missile taken out by a blast: [m.active = false], all else
    as it was. *)
Definition destroyed (m : Missile) : Missile :=
  missile_with (deactivate m) (progress m) (trail m) m.

(** An explosion after its share of step 4: untouched if inactive, aged
    and switched off if that takes it past its duration, aged and resized
    otherwise. *)
Definition aged (dt : Q) (e : Explosion) : Explosion :=
  if negb (active e) then e
  else if Qgtb (age e + dt) (duration e)
       then explosion_with (deactivate e) (radius e) (age e + dt) e
       else explosion_with e (blastRadius e (age e + dt)) (age e + dt) e.

(** The explosion [e] is still active once aged by [dt], and the missile
    [m] lies strictly inside its radius of that moment. *)
Definition blasts (dt : Q) (e : Explosion) (m : Missile) : bool :=
  active e && negb (Qgtb (age e + dt) (duration e)) &&
  surd_ltQ (distance (pos m) (pos e)) (blastRadius e (age e + dt)).

(** [m] is active and some explosion of [es] blasts it. *)
Definition doomed (dt : Q) (es : list Explosion) (m : Missile) : bool :=
  active m && existsb (fun e => blasts dt e m) es.

Definition isSetScore (c : Call) : bool :=
  match c with SetScore _ => true | _ => false end.

(** An active structure strictly closer than 35 to the point [m]. *)
Definition inRange (m : Point) (o : GameObject) : bool :=
  active o && surd_ltQ (distance m (pos o)) 35.

Definition wrecked {A} (base : A -> GameObject)
    (rebase : GameObject -> A -> A) (m : Point) (a : A) : A :=
  if inRange m (base a) then rebase (deactivate (base a)) a else a.

(** [ex] is a debris explosion at the structure [o]. *)
Definition debrisAt (ex : Explosion) (o : GameObject) : Prop :=
  exists i, ex = newExplosion i (x o) (y o) 50 1000 "#ef4444".

(** Where an enemy missile is once step 3 has moved it: the point at
    fraction [p] of the way from its start to its target. *)
Definition enemyProgress (dt : Q) (m : Missile) : Q :=
  progress m + speed m * dt * 0.005.

Definition enemyPoint (dt : Q) (m : Missile) : Point :=
  {| px := lerp (startX m) (targetX m) (enemyProgress dt m);
     py := lerp (startY m) (targetY m) (enemyProgress dt m) |}.

(** [ex] is a fresh explosion at [(bx, by')] of the given size, life time
    and colour. *)
Definition blastAt (ex : Explosion) (bx by' maxR dur : Q) (col : string)
    : Prop :=
  x ex = bx /\ y ex = by' /\ active ex = true /\ radius ex = 0 /\
  age ex = 0 /\ maxRadius ex = maxR /\ duration ex = dur /\
  explosion_color ex = col.

(** The time step [update] computes from [time] and [s.lastTime]
    (lines 175-176). *)
Definition dtOf (time : Q) (s : State) : Q :=
  time - (if Qeq_bool (lastTime s) 0 then time else lastTime s).

(** Steps 1 to 3 of [update]: the state the collision pass starts from. *)
Definition motion (time : Q) (s : State) : Sim State :=
  let dt := dtOf time s in
  s ← spawnEnemies dt (set_lastTime time s);
  s ← updatePlayerMissiles dt s;
  updateEnemyMissiles dt s.

(** The wave-complete branch of step 1 is taken (line 218). *)
Definition waveDone (s : State) : bool :=
  negb (enemiesSpawned s <? enemiesToSpawn s)%Z && fieldClear s.

(** The enemy missiles destroyed by the collision pass of this tick. *)
Definition intercepted (time : Q) (s : State) (h : Host) : list Missile :=
  let s3 := (motion time s h).1 in
  List.filter (doomed (dtOf time s) (explosions s3)) (enemyMissiles s3).

(** What step 6 calls for the state [s] (in the playing state). *)
Definition endGameCalls (s : State) : list Call :=
  if (length (List.filter (fun t : Tower => active t) (towers s)) =? 0)%nat
  then [SetGameState defeat]
  else if (WIN_SCORE <=? score s)%Z then [SetGameState victory]
  else [].

Definition waveCompleteCalls (s : State) : list Call :=
  [SetScore (score s + ammoBonus (towers s));
   SetWaveMessage (bonusMessage (ammoBonus (towers s)));
   SetGameState wave_complete;
   SetTimeout 3000].

Definition ammoPair (t : Tower) : Z * Z := (ammo t, maxAmmo t).

Definition ammoOK (t : Tower) : Prop := (0 <= ammo t <= maxAmmo t)%Z.

(** Facts about the state that hold whenever a handler starts. *)
Record wellFormed (s : State) : Prop := {
  wf_ammo : Forall ammoOK (towers s);
  wf_budget : (enemiesSpawned s <= enemiesToSpawn s)%Z;
  wf_wave : (1 <= wave s)%Z;
  wf_player : Forall (fun m : Missile => active m = true) (playerMissiles s);
  wf_enemy : Forall (fun m : Missile => active m = true) (enemyMissiles s);
  wf_explosions : Forall (fun e : Explosion => active e = true) (explosions s)
}.

(** The host a handler starts with at wall-clock time [now]. *)
Definition hostAt (now : Q) (se : Session) : Host :=
  {| random := random (host se); drawn := drawn (host se);
     dateNow := now; calls := [] |}.

Definition Zsum (l : list Z) : Z := fold_right Z.add 0%Z l.

(** The towers still standing. *)
Definition activeTowers (s : State) : list Tower :=
  List.filter (fun t : Tower => active t) (towers s).

(** *** The tick in the order the specification gives

    "spawn/update/collide, then the wave-complete check, then the
    defeat/victory check": the same steps as [update], with the
    wave-complete branch of step 1 moved behind steps 2 to 5.  Only used
    to compare with [update]. *)

Definition spawnOnly (dt : Q) (s : State) : Sim State :=
  if (enemiesSpawned s <? enemiesToSpawn s)%Z then
    let s := set_spawnTimer (spawnTimer s + dt) s in
    if Qgtb (spawnTimer s) (spawnInterval s) then spawnEnemy s else mret s
  else mret s.

Definition waveCompleteCheck (s : State) : Sim State :=
  if negb (enemiesSpawned s <? enemiesToSpawn s)%Z && fieldClear s
  then waveComplete s else mret s.

Definition update_in_spec_order (gameState : GameState) (time : Q)
    (s : State) : Sim State :=
  let s := if Qeq_bool (lastTime s) 0 then set_lastTime time s else s in
  let dt := time - lastTime s in
  let s := set_lastTime time s in
  if negb (GameState_eqb gameState playing) then
    call RequestAnimationFrame;; mret s
  else
    s ← spawnOnly dt s;
    s ← updatePlayerMissiles dt s;
    s ← updateEnemyMissiles dt s;
    s ← updateExplosions dt s;
    let s := cleanup s in
    s ← waveCompleteCheck s;
    checkEndGame gameState s;;
    call Draw;;
    call RequestAnimationFrame;;
    mret s.

(** *** Sample data for the examples *)

Definition sampleHost : Host :=
  {| random := fun _ => 0.5; drawn := 0; dateNow := 1000; calls := [] |}.

(** A session in play: the state [initGame(true)] sets up. *)
Definition sampleSession : Session :=
  step (mount (fun _ => 0.5)) (1000, ClickStart).

(** The wave's budget is spent and the last explosion, the blast of a
    player missile (radius 70, duration 1200) at age 1190, is about to
    expire. *)
Definition lastBlast : State :=
  set_lastTime 1000
    (set_explosions
       [explosion_with {| id := 7; x := 300; y := 200; active := true |}
          (7 # 6) 1190 (newExplosion 7 300 200 70 1200 "#ffffff")]
       (set_enemiesSpawned 10%Z (game sampleSession))).

Definition withAmmo (a : Z) (t : Tower) : Tower := tower_with_ammo a t.

(** A session in play whose wave is spent and whose field is clear, the
    three towers holding 5, 10 and 0 rounds, with the given score. *)
Definition spentWave (points : Z) : Session :=
  {| view := view sampleSession;
     game :=
       set_score points
         (set_lastTime 1000
            (set_enemiesSpawned 10%Z
               (set_towers
                  (zip_with withAmmo [5; 10; 0]%Z initialTowers)
                  (game sampleSession))));
     host := host sampleSession;
     timers := 0 |}.

(** An enemy missile falling straight down on the ground point (120, 560),
    away from every structure, with the given progress. *)
Definition fallingMissile (p : Q) : Missile :=
  {| missile_base := {| id := 9; x := 120; y := 560 * p; active := true |};
     startX := 120; startY := 0; targetX := 120; targetY := 560;
     speed := 0.04; progress := p; missile_color := "#ef4444";
     trail := [] |}.

(** A session in play with that missile as the only entity in flight. *)
Definition underFire (p : Q) : State :=
  set_lastTime 1000
    (set_enemiesSpawned 1%Z
       (set_enemyMissiles [fallingMissile p] (game sampleSession))).

Definition canvasRect : DOMRect :=
  {| rect_left := 0; rect_top := 0; rect_width := 800; rect_height := 600 |}.

(** An enemy missile on its way from [(sx, 0)] to [(tx, ty)], at progress
    [p]. *)
Definition incoming (sx tx ty p : Q) : Missile :=
  {| missile_base :=
       {| id := 9; x := lerp sx tx p; y := lerp 0 ty p; active := true |};
     startX := sx; startY := 0; targetX := tx; targetY := ty;
     speed := 0.04; progress := p; missile_color := "#ef4444";
     trail := [] |}.

(** A session in play, all structures standing, with [m] as the last
    enemy missile of the wave and nothing else in flight; the previous
    frame was stamped 1000. *)
Definition underAttack (m : Missile) : State :=
  set_lastTime 1000
    (set_enemiesSpawned 10%Z
       (set_enemyMissiles [m] (game sampleSession))).

(** *** Vocabulary of the proofs *)

(** The squared distance from a tower to [target]. *)
Definition towerDist2 (target : Point) (t : Tower) : Q :=
  radicand (distance {| px := x t; py := y t |} target).

(** What [bestTower] and [minDist] hold once the towers [seen] have been
    visited by the scan of [handleInput]. *)
Definition scanned (target : Point) (seen : list Tower) (best : option nat)
    (md : Dist) : Prop :=
  match best with
  | None => md = Infinity /\ Forall (fun t => hasAmmo t = false) seen
  | Some j =>
      exists t, seen !! j = Some t /\ hasAmmo t = true /\
                md = Finite (distance {| px := x t; py := y t |} target) /\
                Forall (fun t' => hasAmmo t' = true ->
                                  towerDist2 target t <= towerDist2 target t')
                       seen
  end.

(** The test of the inner loop of step 4, for the explosion as it is when
    the loop runs. *)
Definition strike (e : Explosion) (m : Missile) : bool :=
  active m && surd_ltQ (distance (pos m) (pos e)) (radius e).

(** [ex] is a secondary explosion at the missile [m]. *)
Definition secondary (ex : Explosion) (m : Missile) : Prop :=
  exists i, ex = newExplosion i (x m) (y m) 30 600 "#fbbf24".

(** The host after [n] more random draws. *)
Definition drew (n : nat) (h : Host) : Host :=
  {| random := random h; drawn := n + drawn h; dateNow := dateNow h;
     calls := calls h |}.

(** The host after the calls [cs]. *)
Definition logged (cs : list Call) (h : Host) : Host :=
  {| random := random h; drawn := drawn h; dateNow := dateNow h;
     calls := calls h ++ cs |}.

(** What steps 2 and 3 of a tick leave alone. *)
Definition quietly (s0 : State) (h0 : Host) (s : State) (h : Host) : Prop :=
  score s = score s0 /\ calls h = calls h0 /\
  map ammoPair (towers s) = map ammoPair (towers s0) /\
  enemiesSpawned s = enemiesSpawned s0 /\
  enemiesToSpawn s = enemiesToSpawn s0 /\
  wave s = wave s0 /\
  enemySpeedMultiplier s = enemySpeedMultiplier s0.

(** Step 2 moreover leaves towers, cities and enemy missiles as they are,
    and only appends to the explosions. *)
Definition aside (s0 s : State) : Prop :=
  towers s = towers s0 /\ cities s = cities s0 /\
  enemyMissiles s = enemyMissiles s0 /\
  exists new, explosions s = explosions s0 ++ new.

(** ** Further vocabulary: invariants of the entities and of the display *)

(** A missile in flight: short of its target and on the straight line from
    its start to its target, at the fraction [progress]. *)
Definition onCourse (m : Missile) : Prop :=
  progress m < 1 /\
  x m == lerp (startX m) (targetX m) (progress m) /\
  y m == lerp (startY m) (targetY m) (progress m).

Definition trailWithin (cap : nat) (m : Missile) : Prop :=
  (length (trail m) <= cap)%nat.

(** The missiles of a state are in flight with bounded trails. *)
Record inFlight (s : State) : Prop := {
  fl_player : Forall onCourse (playerMissiles s);
  fl_enemy : Forall onCourse (enemyMissiles s);
  fl_playerTrail : Forall (trailWithin 10) (playerMissiles s);
  fl_enemyTrail : Forall (trailWithin 5) (enemyMissiles s)
}.

(** Every [Math.random()] the host will return lies in [0, 1). *)
Definition unitDraws (h : Host) : Prop :=
  forall n : nat, 0 <= random h n /\ random h n < 1.

(** A structure may lose [active]; its identity and position stay. *)
Definition decays (o o' : GameObject) : Prop :=
  id o' = id o /\ x o' = x o /\ y o' = y o /\
  (active o' = true -> active o = true).

(** The heads-up display shows the score and the wave of the game
    state. *)
Definition synced (v : React) (s : State) : Prop :=
  scoreShown v = score s /\ waveShown v = wave s.

Definition totalAmmo (ts : list Tower) : Z := Zsum (map ammo ts).

(** [k] times [startNextWave]. *)
Definition afterWaves (k : nat) (s : State) (h : Host) : State :=
  Nat.iter k (fun s => (startNextWave s h).1) s.

Definition isFrameOrPointer (ev : Q * Input) : Prop :=
  match ev.2 with
  | AnimationFrame _ | Pointer _ _ => True
  | ClickStart | TimerFires => False
  end.

(** What step 2 does to one player missile over a tick of [dt]. *)
Definition playerStepped (dt : Q) (m m' : Missile) : Prop :=
  if active m then
    startX m' = startX m /\ startY m' = startY m /\
    targetX m' = targetX m /\ targetY m' = targetY m /\
    speed m' = speed m /\
    progress m' = progress m + speed m * dt /\
    (trailWithin 10 m -> trailWithin 10 m') /\
    (if Qltb (progress m') 1
     then active m' = true /\
          x m' = lerp (startX m) (targetX m) (progress m') /\
          y m' = lerp (startY m) (targetY m) (progress m')
     else active m' = false /\ x m' = x m /\ y m' = y m)
  else m' = m.

(** What step 3 does to one enemy missile over a tick of [dt]. *)
Definition enemyStepped (dt : Q) (m m' : Missile) : Prop :=
  if active m then
    startX m' = startX m /\ startY m' = startY m /\
    targetX m' = targetX m /\ targetY m' = targetY m /\
    speed m' = speed m /\
    progress m' = progress m + speed m * dt * 0.005 /\
    (trailWithin 5 m -> trailWithin 5 m') /\
    x m' = lerp (startX m) (targetX m) (progress m') /\
    y m' = lerp (startY m) (targetY m) (progress m') /\
    active m' = Qltb (progress m') 1
  else m' = m.

(** A structure list after some impacts: same structures, some of them no
    longer active. *)
Definition towersDecay (ts ts' : list Tower) : Prop :=
  Forall2 (fun t t' : Tower =>
             decays t t' /\ ammo t' = ammo t /\ maxAmmo t' = maxAmmo t /\
             tower_color t' = tower_color t) ts ts'.

Definition citiesDecay (cs cs' : list City) : Prop :=
  Forall2 (fun c c' : City => decays c c' /\ city_color c' = city_color c)
          cs cs'.

(** The enemy missile pushed by the spawner. *)
Definition justSpawned (m : Missile) : Prop :=
  active m = true /\ progress m = 0 /\ trail m = [] /\
  startY m = 0 /\ y m = 0 /\ x m = startX m.

Definition Qsum (l : list Q) : Q := fold_right Qplus 0 l.

(** One player missile through the ticks [dts] of step 2, oldest first. *)
Fixpoint flyPlayer (dts : list Q) (m : Missile) (s : State) (h : Host)
    : Missile * State * Host :=
  match dts with
  | [] => (m, s, h)
  | dt :: dts' =>
      let r := stepPlayerMissile dt m s h in
      flyPlayer dts' r.1.1 r.1.2 r.2
  end.

(** Sample data: the missile the middle tower fires at (390, 100), and a
    session in play whose spawn timer is 10 ms short of 2500. *)
Definition sampleShot : Missile :=
  playerMissile 1
    (mkTower 2 (GAME_WIDTH * 0.5) (GAME_HEIGHT - GROUND_HEIGHT + 10) 40)
    {| px := 390; py := 100 |}.

Definition spawnDue : State :=
  set_spawnTimer 2490 (set_lastTime 1000 (game sampleSession)).

(** A player missile whose progress reaches 1 in a tick of [dt]. *)
Definition detonates (dt : Q) (m : Missile) : bool :=
  active m && Qgeb (progress m + speed m * dt) 1.

(** An explosion as a creation site pushes it, of one of the given sizes
    and life times. *)
Definition freshOf (kinds : list (Q * Q)) (e : Explosion) : Prop :=
  active e = true /\ age e = 0 /\ radius e = 0 /\
  In (maxRadius e, duration e) kinds.

(** The [maxRadius] and [duration] of the four creation sites: player
    detonation, enemy impact, debris, secondary. *)
Definition blastKinds : list (Q * Q) :=
  [(70, 1200); (40, 800); (50, 1000); (30, 600)].

(** An explosion of one of the four kinds that has not outgrown its
    [maxRadius] nor outlived its [duration]. *)
Definition withinKind (e : Explosion) : Prop :=
  In (maxRadius e, duration e) blastKinds /\
  radius e <= maxRadius e /\ age e <= duration e.

(** The missile fired from the left tower at the same moment as
    [sampleShot], at a target close by. *)
Definition shortShot : Missile :=
  playerMissile 2
    (mkTower 1 (GAME_WIDTH * 0.1) (GAME_HEIGHT - GROUND_HEIGHT + 10) 20)
    {| px := 100; py := 500 |}.

(** [sampleShot] about to detonate, alone in a session in play. *)
Definition shotLanding : State :=
  set_lastTime 1000
    (set_playerMissiles
       [missile_with sampleShot 0.9 [] sampleShot]
       (game sampleSession)).

(** ** Rendering: [draw] (lines 377-487)

    The calls [draw] makes on the 2D context, in order.  Angles are given
    in units of [Math.PI]. *)

Inductive CanvasOp :=
| FillStyle (c : string)
| StrokeStyle (c : string)
| LineWidth (w : Q)
| ShadowBlur (b : Q)
| ShadowColor (c : string)
| Font (f : string)
| TextAlign (a : string)
| GlobalAlpha (a : Q)
| FillRect (rx ry rw rh : Q)
| BeginPath
| MoveTo (mx my : Q)
| LineTo (lx ly : Q)
| Stroke
| Fill
| Arc (ax ay r startAngle endAngle : Q)
| FillText (text : string) (tx ty : Q).

(** [canvasRef.current] and its 2D context, either of which may be
    missing. *)
Inductive Surface := NoCanvas | NoContext | Context2D.

(** [t.ammo.toString()] *)
Definition ammoText (a : Z) : string := NilZero.string_of_int (Z.to_int a).

Definition drawBackground : list CanvasOp :=
  [ FillStyle "rgba(17, 24, 39, 0.4)";
    FillRect 0 0 GAME_WIDTH GAME_HEIGHT;
    FillStyle "#b45309";
    FillRect 0 (GAME_HEIGHT - GROUND_HEIGHT) GAME_WIDTH GROUND_HEIGHT;
    StrokeStyle "#f59e0b";
    LineWidth 2;
    BeginPath;
    MoveTo 0 (GAME_HEIGHT - GROUND_HEIGHT);
    LineTo GAME_WIDTH (GAME_HEIGHT - GROUND_HEIGHT);
    Stroke ].

(** Lines 400-411, the body of the loop. *)
Definition drawCity (c : City) : list CanvasOp :=
  if active c then
    [ FillStyle (city_color c); ShadowBlur 10; ShadowColor (city_color c);
      BeginPath; Arc (x c) (y c) 15 1 0; Fill; ShadowBlur 0 ]
  else [].

(** Lines 414-441, the body of the loop. *)
Definition drawTower (t : Tower) : list CanvasOp :=
  if active t then
    [ FillStyle (tower_color t); ShadowBlur 10; ShadowColor (tower_color t);
      BeginPath;
      MoveTo (x t - 25) (y t + 10);
      LineTo (x t) (y t - 30);
      LineTo (x t + 25) (y t + 10);
      Fill; ShadowBlur 0 ] ++
    (if (0 <? ammo t)%Z then
       [ FillStyle "#fff"; Font "bold 14px monospace"; TextAlign "center";
         FillText (ammoText (ammo t)) (x t) (y t + 30) ]
     else
       [ FillStyle "#ef4444"; Font "bold 12px monospace"; TextAlign "center";
         FillText "EMPTY" (x t) (y t + 30) ])
  else [].

(** Lines 444-462, the body of the loop. *)
Definition drawPlayerMissile (m : Missile) : list CanvasOp :=
  let size := 8 in
  [ StrokeStyle (missile_color m); LineWidth 2; BeginPath;
    MoveTo (startX m) (startY m); LineTo (x m) (y m); Stroke;
    StrokeStyle "rgba(255, 255, 255, 0.5)"; LineWidth 1; BeginPath;
    MoveTo (targetX m - size) (targetY m - size);
    LineTo (targetX m + size) (targetY m + size);
    MoveTo (targetX m + size) (targetY m - size);
    LineTo (targetX m - size) (targetY m + size);
    Stroke ].

(** Lines 465-476, the body of the loop. *)
Definition drawEnemyMissile (m : Missile) : list CanvasOp :=
  [ StrokeStyle (missile_color m); LineWidth 2; BeginPath;
    MoveTo (startX m) (startY m); LineTo (x m) (y m); Stroke;
    FillStyle "#fff"; FillRect (x m - 1.5) (y m - 1.5) 3 3 ].

(** Lines 479-486, the body of the loop. *)
Definition drawExplosion (e : Explosion) : list CanvasOp :=
  [ FillStyle (explosion_color e); GlobalAlpha 0.8; BeginPath;
    Arc (x e) (y e) (radius e) 0 2; Fill; GlobalAlpha 1.0 ].

Definition draw (surface : Surface) (s : State) : list CanvasOp :=
  match surface with
  | NoCanvas | NoContext => []
  | Context2D =>
      drawBackground ++
      flat_map drawCity (cities s) ++
      flat_map drawTower (towers s) ++
      flat_map drawPlayerMissile (playerMissiles s) ++
      flat_map drawEnemyMissile (enemyMissiles s) ++
      flat_map drawExplosion (explosions s)
  end.

(** The texts and the arcs among some canvas calls. *)
Definition textsOf (ops : list CanvasOp) : list (string * Q * Q) :=
  omap (fun op => match op with
                  | FillText t tx ty => Some (t, tx, ty)
                  | _ => None
                  end) ops.

Definition arcsOf (ops : list CanvasOp) : list (Q * Q * Q) :=
  omap (fun op => match op with
                  | Arc ax ay r _ _ => Some (ax, ay, r)
                  | _ => None
                  end) ops.
(** * Properties *)

(** ** Comparisons *)

Lemma Qltb_lt (a b : Q) : Qltb a b = true <-> a < b.
Proof.
  unfold Qltb. rewrite negb_true_iff.
  split.
  - intros H. apply Qnot_le_lt. intros Hle.
    apply Qle_bool_iff in Hle. congruence.
  - intros H. destruct (Qle_bool b a) eqn:E; [|reflexivity].
    apply Qle_bool_iff in E. exfalso. apply (Qlt_not_le _ _ H E).
Qed.

Lemma Qltb_ge (a b : Q) : Qltb a b = false <-> b <= a.
Proof.
  unfold Qltb. rewrite negb_false_iff. apply Qle_bool_iff.
Qed.

Lemma Qgeb_le (a b : Q) : Qgeb a b = true <-> b <= a.
Proof. apply Qle_bool_iff. Qed.

Lemma Qgeb_Qltb (a b : Q) : Qgeb a b = negb (Qltb a b).
Proof. unfold Qgeb, Qltb. now rewrite negb_involutive. Qed.

(** ** What the symbolic square roots stand for *)


Lemma distance_radicand_nonneg (p q : Point) : 0 <= radicand (distance p q).
Proof.
  unfold distance; simpl.
  assert (H : forall a : Q, 0 <= a ^ 2).
  { intros a. simpl. nra. }
  pose proof (H (px q - px p)). pose proof (H (py q - py p)). lra.
Qed.

(** [surd_ltQ] decides [Math.sqrt(a) < r]. *)
Lemma surd_ltQ_spec (d : Surd) (r : Q) :
  0 <= radicand d ->
  surd_ltQ d r = true <-> (surd_val d < Q2R r)%R.
Proof.
  intros Hd. unfold surd_ltQ, surd_val.
  apply Qle_Rle in Hd. rewrite RMicromega.Q2R_0 in Hd.
  rewrite andb_true_iff, !Qltb_lt. split.
  - intros [Hr Hlt]. apply Qlt_Rlt in Hr, Hlt.
    rewrite RMicromega.Q2R_0 in Hr. rewrite Q2R_mult in Hlt.
    rewrite <- (sqrt_square (Q2R r)) by lra.
    apply sqrt_lt_1_alt. lra.
  - intros H.
    assert (Hr : (0 < Q2R r)%R).
    { pose proof (sqrt_pos (Q2R (radicand d))). lra. }
    split.
    + apply Rlt_Qlt. now rewrite RMicromega.Q2R_0.
    + apply Rlt_Qlt. rewrite Q2R_mult.
      rewrite <- (sqrt_square (Q2R r)) in H by lra.
      apply sqrt_lt_0_alt in H. exact H.
Qed.

(** Comparing two distances compares their squares. *)
Lemma surd_val_le (a b : Surd) :
  0 <= radicand a -> 0 <= radicand b ->
  radicand a <= radicand b <-> (surd_val a <= surd_val b)%R.
Proof.
  intros Ha Hb. unfold surd_val.
  apply Qle_Rle in Ha, Hb. rewrite RMicromega.Q2R_0 in Ha, Hb.
  split.
  - intros H. apply Qle_Rle in H. now apply sqrt_le_1_alt.
  - intros H. apply Rle_Qle. now apply sqrt_le_0.
Qed.

(** ** Player input: the closest tower with ammo fires *)

Lemma scanTowers_scanned (target : Point) (ts : list Tower) :
  forall seen best md,
    scanned target seen best md ->
    scanned target (seen ++ ts)
      (fst (scanTowers target ts (length seen) best md))
      (snd (scanTowers target ts (length seen) best md)).
Proof.
  induction ts as [|t ts IH]; intros seen best md Hinv.
  - simpl. now rewrite app_nil_r.
  - assert (Hlen : length (seen ++ [t]) = S (length seen)).
    { rewrite length_app. simpl. lia. }
    replace (seen ++ t :: ts) with ((seen ++ [t]) ++ ts)
      by (now rewrite <- app_assoc).
    simpl. destruct (hasAmmo t) eqn:Hammo.
    + destruct (surd_lt_dist _ md) eqn:Hlt.
      * rewrite <- Hlen. apply IH. simpl.
        exists t. split; [|split; [exact Hammo|split; [reflexivity|]]].
        { rewrite lookup_app_r by lia. now rewrite Nat.sub_diag. }
        apply Forall_app. split.
        -- destruct best as [j|]; simpl in Hinv.
           ++ destruct Hinv as (t0 & _ & _ & -> & Hmin).
              simpl in Hlt. apply Qltb_lt in Hlt.
              eapply Forall_impl; [exact Hmin|].
              intros t' Ht' Ha. specialize (Ht' Ha).
              unfold towerDist2 in *. simpl in *. lra.
           ++ destruct Hinv as [_ Hnone].
              eapply Forall_impl; [exact Hnone|].
              intros t' Ht' Ha. congruence.
        -- constructor; [|constructor]. intros _. lra.
      * rewrite <- Hlen. apply IH.
        destruct best as [j|]; simpl in Hinv.
        -- destruct Hinv as (t0 & Hj & Ha0 & -> & Hmin).
           simpl in Hlt. apply Qltb_ge in Hlt.
           exists t0. split; [|split; [exact Ha0|split; [reflexivity|]]].
           { apply lookup_app_l_Some. exact Hj. }
           apply Forall_app. split; [exact Hmin|].
           constructor; [|constructor]. intros _.
           unfold towerDist2. simpl. exact Hlt.
        -- destruct Hinv as [-> _]. simpl in Hlt. discriminate.
    + rewrite <- Hlen. apply IH.
      destruct best as [j|]; simpl in Hinv |- *.
      * destruct Hinv as (t0 & Hj & Ha0 & -> & Hmin).
        exists t0. split; [|split; [exact Ha0|split; [reflexivity|]]].
        { apply lookup_app_l_Some. exact Hj. }
        apply Forall_app. split; [exact Hmin|].
        constructor; [|constructor]. intros Ha. congruence.
      * destruct Hinv as [-> Hnone]. split; [reflexivity|].
        apply Forall_app. split; [exact Hnone|].
        constructor; [exact Hammo|constructor].
Qed.

Lemma scanTowers_result (target : Point) (ts : list Tower) :
  scanned target ts (fst (scanTowers target ts 0 None Infinity))
                    (snd (scanTowers target ts 0 None Infinity)).
Proof.
  apply (scanTowers_scanned target ts [] None Infinity).
  split; [reflexivity|constructor].
Qed.

Lemma euclid_le (p q p' q' : Point) :
  radicand (distance p q) <= radicand (distance p' q') ->
  (euclid p q <= euclid p' q')%R.
Proof.
  intros H. apply surd_val_le; auto using distance_radicand_nonneg.
Qed.

(** C3.  A pointer event in the playing state.  If it has no game point
    (a canvas rectangle of width or height zero) nothing changes.  If it
    is mapped to the game point [target]: below the guard line (y greater
    than 570) nothing changes; otherwise, if no active tower has ammo
    nothing changes, and if one has, an active tower with ammo at minimal
    Euclidean distance from [target] loses exactly one round (its ammo
    becomes [ammo - 1], its other fields and all other towers stay) and
    exactly one player missile is appended, with speed 0.02 and progress
    0, standing 30 units above that tower, starting there and aimed at
    [target]; nothing else in the state changes and no call is made. *)
Theorem handleInput_fires_closest_tower
    (rect : DOMRect) (e : InputEvent) (s : State) (h : Host) :
  let s' := fst (handleInput playing (Some rect) e s h) in
  snd (handleInput playing (Some rect) e s h) = h /\
  (eventTarget rect e = None -> s' = s) /\
  forall target : Point,
    eventTarget rect e = Some target ->
    (GAME_HEIGHT - GROUND_HEIGHT + 10 < py target -> s' = s) /\
    (py target <= GAME_HEIGHT - GROUND_HEIGHT + 10 ->
     (Forall (fun t : Tower => active t = false \/ (ammo t <= 0)%Z)
             (towers s) -> s' = s) /\
     (Exists (fun t : Tower => active t = true /\ (0 < ammo t)%Z)
             (towers s) ->
      exists (i : nat) (t t' : Tower) (m : Missile),
        towers s !! i = Some t /\ active t = true /\ (0 < ammo t)%Z /\
        Forall (fun u : Tower =>
                  active u = true -> (0 < ammo u)%Z ->
                  (euclid (pos t) target <= euclid (pos u) target)%R)
               (towers s) /\
        towers s' = <[i := t']> (towers s) /\
        ammo t' = (ammo t - 1)%Z /\ maxAmmo t' = maxAmmo t /\
        tower_base t' = tower_base t /\ tower_color t' = tower_color t /\
        playerMissiles s' = playerMissiles s ++ [m] /\
        restOf s' = restOf s /\
        speed m = 0.02 /\ progress m = 0 /\ active m = true /\
        startX m = x t /\ startY m = y t - 30 /\
        x m = x t /\ y m = y t - 30 /\
        targetX m = px target /\ targetY m = py target /\
        id m = dateNow h /\ trail m = [] /\
        missile_color m = "#60a5fa"%string)).
Proof.
  intros s'. subst s'. unfold handleInput. simpl negb. cbv iota.
  destruct (eventTarget rect e) as [tg|].
  2:{ split; [reflexivity|]. split; [reflexivity|]. intros ? [=]. }
  assert (Hammo : forall t : Tower,
            hasAmmo t = true <-> active t = true /\ (0 < ammo t)%Z).
  { intros t. unfold hasAmmo. rewrite andb_true_iff, Z.ltb_lt. tauto. }
  destruct (Qgtb (py tg) (GAME_HEIGHT - GROUND_HEIGHT + 10)) eqn:Hguard.
  - apply Qltb_lt in Hguard. split; [reflexivity|]. split; [intros [=]|].
    intros target [= <-]. split; [reflexivity|].
    intros Hle. exfalso. lra.
  - apply Qltb_ge in Hguard.
    pose proof (scanTowers_result tg (towers s)) as Hscan.
    unfold shoot.
    destruct (fst (scanTowers tg (towers s) 0 None Infinity))
      as [i|] eqn:Hbest; simpl in Hscan.
    + destruct Hscan as (t & Hi & Ha & _ & Hmin).
      rewrite Hi. cbn.
      split; [reflexivity|]. split; [intros [=]|].
      intros target [= <-].
      split; [intros Hlt; exfalso; lra|].
      intros _. apply Hammo in Ha as [Hact Hpos]. split.
      * intros Hnone. exfalso.
        rewrite Forall_forall in Hnone.
        assert (Hin : t ∈ towers s).
        { eapply list_elem_of_lookup_2. exact Hi. }
        destruct (Hnone t Hin) as [Hoff|Hout]; [congruence|lia].
      * intros _.
        exists i, t, (tower_with_ammo (ammo t - 1)%Z t),
          (playerMissile (dateNow h) t tg).
        split; [exact Hi|]. split; [exact Hact|]. split; [exact Hpos|].
        split.
        { eapply Forall_impl; [exact Hmin|].
          intros u Hu Hau Hpu. apply euclid_le. apply Hu.
          apply Hammo. split; assumption. }
        simpl. repeat split; reflexivity.
    + destruct Hscan as [_ Hnone]. cbn.
      split; [reflexivity|]. split; [intros [=]|].
      intros target [= <-]. split; [reflexivity|].
      intros _. split; [reflexivity|].
      intros Hex. exfalso. apply Exists_exists in Hex as (t & Hin & Ha).
      rewrite Forall_forall in Hnone. specialize (Hnone t Hin).
      apply Hammo in Ha. congruence.
Qed.

(** ** The monad and its loops *)

Lemma forEach_cons {A S} (f : A -> S -> Sim (A * S)) a l s h :
  forEach f (a :: l) s h =
  let r1 := f a s h in
  let r2 := forEach f l r1.1.2 r1.2 in
  ((r1.1.1 :: r2.1.1, r2.1.2), r2.2).
Proof.
  simpl. unfold mbind, Sim_bind, mret, Sim_ret.
  destruct (f a s h) as [[a' s1] h1]. simpl.
  destruct (forEach f l s1 h1) as [[l' s2] h2]. reflexivity.
Qed.

(** An invariant of the loop body is an invariant of the loop. *)
Lemma forEach_invariant {A S} (f : A -> S -> Sim (A * S))
    (I : S -> Host -> Prop) :
  (forall a s h, I s h -> I (f a s h).1.2 (f a s h).2) ->
  forall l s h, I s h -> I (forEach f l s h).1.2 (forEach f l s h).2.
Proof.
  intros Hf l. induction l as [|a l IH]; intros s h HI.
  - exact HI.
  - rewrite forEach_cons. simpl. apply IH, Hf, HI.
Qed.

(** The loop visits the elements one by one, in order. *)
Lemma forEach_Forall2 {A S} (f : A -> S -> Sim (A * S))
    (R : A -> A -> Prop) :
  (forall a s h, R a (f a s h).1.1) ->
  forall l s h, Forall2 R l (forEach f l s h).1.1.
Proof.
  intros Hf l. induction l as [|a l IH]; intros s h.
  - constructor.
  - rewrite forEach_cons. simpl. constructor; [apply Hf|apply IH].
Qed.

Lemma freshId_run (h : Host) :
  freshId h =
  (dateNow h + random h (drawn h),
   {| random := random h; drawn := S (drawn h); dateNow := dateNow h;
      calls := calls h |}).
Proof. reflexivity. Qed.

(** ** Step 4: explosions against enemy missiles *)

Lemma intercept_run (e : Explosion) (m : Missile) (w : Sweep) (h : Host) :
  intercept e m w h =
  if strike e m then
    (destroyed m,
     {| sw_score := (sw_score w + 20)%Z;
        sw_pushed :=
          sw_pushed w ++
          [newExplosion (dateNow h + random h (drawn h)) (x m) (y m) 30 600
             "#fbbf24"] |},
     {| random := random h; drawn := S (drawn h); dateNow := dateNow h;
        calls := calls h ++ [SetScore (sw_score w + 20)] |})
  else (m, w, h).
Proof.
  unfold intercept. fold (strike e m). now destruct (strike e m).
Qed.

Lemma forEach_intercept (e : Explosion) (ms : list Missile) :
  forall (w : Sweep) (h : Host),
  exists new scs,
    (forEach (intercept e) ms w h).1.1 =
      map (fun m => if strike e m then destroyed m else m) ms /\
    sw_score (forEach (intercept e) ms w h).1.2 =
      (sw_score w + 20 * Z.of_nat (length (List.filter (strike e) ms)))%Z /\
    sw_pushed (forEach (intercept e) ms w h).1.2 = sw_pushed w ++ new /\
    Forall2 secondary new (List.filter (strike e) ms) /\
    calls (forEach (intercept e) ms w h).2 = calls h ++ scs /\
    forallb isSetScore scs = true.
Proof.
  induction ms as [|m ms IH]; intros w h.
  - exists [], []. simpl. rewrite !app_nil_r.
    repeat split; try reflexivity; try lia. constructor.
  - rewrite forEach_cons, intercept_run. cbv zeta.
    simpl List.filter. simpl map.
    destruct (strike e m) eqn:Hs; cbn [fst snd].
    + match goal with
      | |- context [forEach (intercept e) ms ?w1 ?h1] =>
          destruct (IH w1 h1)
            as (new & scs & Hms & Hsc & Hpu & Hnew & Hca & Hscs)
      end.
      eexists (_ :: new), (_ :: scs).
      rewrite Hms, Hsc, Hpu, Hca. cbn [sw_score sw_pushed calls length].
      repeat split.
      * lia.
      * rewrite <- app_assoc. reflexivity.
      * constructor; [eexists; reflexivity|exact Hnew].
      * rewrite <- app_assoc. reflexivity.
      * exact Hscs.
    + destruct (IH w h) as (new & scs & Hms & Hsc & Hpu & Hnew & Hca & Hscs).
      exists new, scs. rewrite Hms, Hsc, Hpu, Hca.
      repeat split; try reflexivity; assumption.
Qed.

Lemma stepExplosion_run (dt : Q) (e : Explosion) (ms : list Missile)
    (w : Sweep) (h : Host) :
  stepExplosion dt e (ms, w) h =
  if active e && negb (Qgtb (age e + dt) (duration e)) then
    (aged dt e, (forEach (intercept (aged dt e)) ms w h).1,
     (forEach (intercept (aged dt e)) ms w h).2)
  else (aged dt e, (ms, w), h).
Proof.
  unfold stepExplosion, aged.
  destruct (active e); simpl; [|reflexivity].
  destruct (Qgtb (age e + dt) (duration e)); simpl; [reflexivity|].
  unfold mbind, Sim_bind, mret, Sim_ret.
  now destruct (forEach _ ms w h) as [[ms' w'] h'].
Qed.

Lemma strike_aged (dt : Q) (e : Explosion) (m : Missile) :
  active e && negb (Qgtb (age e + dt) (duration e)) = true ->
  strike (aged dt e) m = active m && blasts dt e m.
Proof.
  intros Hlive. unfold strike, blasts. rewrite Hlive.
  apply andb_true_iff in Hlive as [Ha Hd].
  unfold aged. rewrite Ha. simpl negb. cbv iota.
  apply negb_true_iff in Hd. rewrite Hd. reflexivity.
Qed.

Lemma filter_split_perm {A} (p q : A -> bool) (l : list A) :
  Permutation
    (List.filter p l ++ List.filter (fun a => negb (p a) && q a) l)
    (List.filter (fun a => p a || q a) l).
Proof.
  induction l as [|a l IH]; simpl; [constructor|].
  destruct (p a); simpl.
  - now constructor.
  - destruct (q a); simpl; [|exact IH].
    etransitivity; [symmetry; apply Permutation_middle|].
    now constructor.
Qed.

Lemma filter_after_strike (p q : Missile -> bool) (ms : list Missile) :
  (forall m, q (destroyed m) = false) ->
  List.filter q (map (fun m => if p m then destroyed m else m) ms) =
  List.filter (fun m => negb (p m) && q m) ms.
Proof.
  intros Hq. induction ms as [|m ms IH]; simpl; [reflexivity|].
  destruct (p m); simpl.
  - now rewrite Hq.
  - destruct (q m); now rewrite IH.
Qed.

Lemma doomed_destroyed dt es m : doomed dt es (destroyed m) = false.
Proof. reflexivity. Qed.

Lemma doomed_cons dt e es m :
  doomed dt (e :: es) m = (active m && blasts dt e m) || doomed dt es m.
Proof.
  unfold doomed. simpl. destruct (active m); simpl; reflexivity.
Qed.

Lemma forEach_stepExplosion (dt : Q) (es : list Explosion) :
  forall (ms : list Missile) (w : Sweep) (h : Host),
  exists new scs hit,
    (forEach (stepExplosion dt) es (ms, w) h).1.1 = map (aged dt) es /\
    (forEach (stepExplosion dt) es (ms, w) h).1.2.1 =
      map (fun m => if doomed dt es m then destroyed m else m) ms /\
    sw_score (forEach (stepExplosion dt) es (ms, w) h).1.2.2 =
      (sw_score w +
       20 * Z.of_nat (length (List.filter (doomed dt es) ms)))%Z /\
    sw_pushed (forEach (stepExplosion dt) es (ms, w) h).1.2.2 =
      sw_pushed w ++ new /\
    Permutation hit (List.filter (doomed dt es) ms) /\
    Forall2 secondary new hit /\
    calls (forEach (stepExplosion dt) es (ms, w) h).2 = calls h ++ scs /\
    forallb isSetScore scs = true.
Proof.
  induction es as [|e es IH]; intros ms w h.
  - exists [], [], []. simpl. rewrite !app_nil_r.
    assert (Hnone : forall l, List.filter (doomed dt []) l = []).
    { induction l as [|m l IHl]; simpl; [reflexivity|].
      unfold doomed at 1. simpl. now rewrite andb_false_r. }
    rewrite Hnone. simpl.
    repeat split; try reflexivity; try constructor; try lia.
    induction ms as [|m ms IHms]; simpl; [reflexivity|].
    unfold doomed at 1. simpl. rewrite andb_false_r. now f_equal.
  - rewrite forEach_cons, stepExplosion_run. cbv zeta.
    destruct (active e && negb (Qgtb (age e + dt) (duration e))) eqn:Hlive;
      cbn [fst snd].
    + pose proof (strike_aged dt e) as Hstrike.
      specialize (Hstrike) .
      destruct (forEach_intercept (aged dt e) ms w h)
        as (new1 & scs1 & Hms1 & Hsc1 & Hpu1 & Hnew1 & Hca1 & Hscs1).
      destruct (forEach (intercept (aged dt e)) ms w h) as [[ms1 w1] h1].
      cbn [fst snd] in *.
      destruct (IH ms1 w1 h1)
        as (new2 & scs2 & hit2 & Hes & Hms2 & Hsc2 & Hpu2 & Hhit2 & Hnew2
            & Hca2 & Hscs2).
      assert (Hf : List.filter (doomed dt es) ms1 =
                   List.filter (fun m => negb (strike (aged dt e) m)
                                         && doomed dt es m) ms).
      { rewrite Hms1. apply filter_after_strike. apply doomed_destroyed. }
      assert (Hd : forall m, doomed dt (e :: es) m =
                             strike (aged dt e) m || doomed dt es m).
      { intros m. rewrite doomed_cons, Hstrike; [reflexivity|exact Hlive]. }
      assert (Hperm :
        Permutation
          (List.filter (strike (aged dt e)) ms ++ List.filter (doomed dt es) ms1)
          (List.filter (doomed dt (e :: es)) ms)).
      { rewrite Hf. rewrite (List.filter_ext _ _ Hd).
        apply filter_split_perm. }
      exists (new1 ++ new2), (scs1 ++ scs2),
        (List.filter (strike (aged dt e)) ms ++ hit2).
      rewrite Hes, Hms2, Hsc2, Hpu2, Hca2, Hsc1, Hpu1, Hca1.
      repeat split.
      * rewrite Hms1, map_map. apply map_ext. intros m. rewrite Hd.
        destruct (strike (aged dt e) m); simpl; reflexivity.
      * rewrite <- (Permutation_length Hperm), length_app. lia.
      * now rewrite app_assoc.
      * etransitivity; [|exact Hperm].
        apply Permutation_app_head. exact Hhit2.
      * apply Forall2_app; assumption.
      * now rewrite app_assoc.
      * rewrite forallb_app. now rewrite Hscs1, Hscs2.
    + destruct (IH ms w h)
        as (new2 & scs2 & hit2 & Hes & Hms2 & Hsc2 & Hpu2 & Hhit2 & Hnew2
            & Hca2 & Hscs2).
      assert (Hd : forall m, doomed dt (e :: es) m = doomed dt es m).
      { intros m. rewrite doomed_cons. unfold blasts. rewrite Hlive.
        simpl. now rewrite andb_false_r. }
      exists new2, scs2, hit2.
      rewrite Hes, Hms2, Hsc2, Hpu2, Hca2, (List.filter_ext _ _ Hd).
      repeat split; try assumption; try reflexivity.
      apply map_ext. intros m. now rewrite Hd.
Qed.

(** ** The explosion envelope *)

Section Envelope.
Variable e : Explosion.
Hypothesis duration_pos : 0 < duration e.
Hypothesis maxRadius_nonneg : 0 <= maxRadius e.

Lemma halfLife_pos : 0 < halfLife e.
Proof. unfold halfLife. apply Qlt_shift_div_l; lra. Qed.

Lemma halfLife_twice : duration e == 2 * halfLife e.
Proof. unfold halfLife. field. Qed.

Lemma blastRadius_rising (a : Q) :
  a < halfLife e -> blastRadius e a == a / halfLife e * maxRadius e.
Proof.
  intros Ha. unfold blastRadius.
  apply Qltb_lt in Ha. now rewrite Ha.
Qed.

Lemma blastRadius_falling (a : Q) :
  halfLife e <= a ->
  blastRadius e a == (1 - (a - halfLife e) / halfLife e) * maxRadius e.
Proof.
  intros Ha. unfold blastRadius.
  apply Qltb_ge in Ha. now rewrite Ha.
Qed.

(** Both branches are the same tent function. *)
Lemma blastRadius_tent (a : Q) :
  blastRadius e a == maxRadius e * (1 - Qabs (a - halfLife e) / halfLife e).
Proof.
  pose proof halfLife_pos as Hc.
  destruct (Qlt_le_dec a (halfLife e)) as [Ha|Ha].
  - rewrite blastRadius_rising by exact Ha.
    rewrite Qabs_neg by lra. field. lra.
  - rewrite blastRadius_falling by exact Ha.
    rewrite Qabs_pos by lra. field. lra.
Qed.

Lemma blastRadius_start : blastRadius e 0 == 0.
Proof.
  pose proof halfLife_pos as Hc.
  rewrite blastRadius_rising by exact Hc. field. lra.
Qed.

Lemma blastRadius_peak : blastRadius e (halfLife e) == maxRadius e.
Proof.
  pose proof halfLife_pos as Hc.
  rewrite blastRadius_falling by lra. field. lra.
Qed.

Lemma blastRadius_end : blastRadius e (duration e) == 0.
Proof.
  pose proof halfLife_pos as Hc. pose proof halfLife_twice as Hd.
  rewrite blastRadius_falling by lra. rewrite Hd. field. lra.
Qed.

Lemma tent_slope (u v : Q) :
  u <= v -> u / halfLife e * maxRadius e <= v / halfLife e * maxRadius e.
Proof.
  intros Huv. pose proof halfLife_pos as Hc.
  apply Qmult_le_compat_r; [|exact maxRadius_nonneg].
  apply Qmult_le_compat_r; [exact Huv|].
  apply Qlt_le_weak, Qinv_lt_0_compat, Hc.
Qed.

Lemma blastRadius_increasing (a b : Q) :
  a <= b -> b <= halfLife e -> blastRadius e a <= blastRadius e b.
Proof.
  intros Hab Hb. pose proof halfLife_pos as Hc.
  rewrite (blastRadius_tent a), (blastRadius_tent b).
  rewrite !Qabs_neg by lra.
  setoid_replace (maxRadius e * (1 - - (a - halfLife e) / halfLife e))
    with (a / halfLife e * maxRadius e) using relation Qeq by (field; lra).
  setoid_replace (maxRadius e * (1 - - (b - halfLife e) / halfLife e))
    with (b / halfLife e * maxRadius e) using relation Qeq by (field; lra).
  now apply tent_slope.
Qed.

Lemma blastRadius_decreasing (a b : Q) :
  halfLife e <= a -> a <= b -> blastRadius e b <= blastRadius e a.
Proof.
  intros Ha Hab. pose proof halfLife_pos as Hc.
  rewrite (blastRadius_tent a), (blastRadius_tent b).
  rewrite !Qabs_pos by lra.
  setoid_replace (maxRadius e * (1 - (a - halfLife e) / halfLife e))
    with ((2 * halfLife e - a) / halfLife e * maxRadius e)
    using relation Qeq by (field; lra).
  setoid_replace (maxRadius e * (1 - (b - halfLife e) / halfLife e))
    with ((2 * halfLife e - b) / halfLife e * maxRadius e)
    using relation Qeq by (field; lra).
  apply tent_slope. lra.
Qed.

Lemma blastRadius_nonneg (a : Q) :
  0 <= a -> a <= duration e -> 0 <= blastRadius e a.
Proof.
  intros H0 Hd. pose proof halfLife_pos as Hc.
  pose proof halfLife_twice as H2.
  destruct (Qlt_le_dec a (halfLife e)) as [Ha|Ha].
  - rewrite <- blastRadius_start.
    apply blastRadius_increasing; lra.
  - rewrite <- blastRadius_end.
    apply blastRadius_decreasing; lra.
Qed.
End Envelope.

(** ** Step 4 as a whole *)

Lemma updateExplosions_run (dt : Q) (s : State) (h : Host) :
  updateExplosions dt s h =
  let r := forEach (stepExplosion dt) (explosions s)
             (enemyMissiles s, {| sw_score := score s; sw_pushed := [] |}) h in
  (set_score (sw_score r.1.2.2)
     (set_enemyMissiles r.1.2.1
        (set_explosions (r.1.1 ++ sw_pushed r.1.2.2) s)),
   r.2).
Proof.
  unfold updateExplosions, mbind, Sim_bind, mret, Sim_ret.
  now destruct (forEach _ _ _ h) as [[es [ms w]] h'].
Qed.

Lemma updateExplosions_spec (dt : Q) (s : State) (h : Host) :
  exists new scs hit,
    updateExplosions dt s h =
      (set_score
         (score s + 20 * Z.of_nat
            (length (List.filter (doomed dt (explosions s))
                       (enemyMissiles s))))%Z
         (set_enemyMissiles
            (map (fun m => if doomed dt (explosions s) m
                           then destroyed m else m) (enemyMissiles s))
            (set_explosions (map (aged dt) (explosions s) ++ new) s)),
       (updateExplosions dt s h).2) /\
    Permutation hit
      (List.filter (doomed dt (explosions s)) (enemyMissiles s)) /\
    Forall2 secondary new hit /\
    calls (updateExplosions dt s h).2 = calls h ++ scs /\
    forallb isSetScore scs = true.
Proof.
  rewrite updateExplosions_run. cbv zeta.
  destruct (forEach_stepExplosion dt (explosions s) (enemyMissiles s)
              {| sw_score := score s; sw_pushed := [] |} h)
    as (new & scs & hit & Hes & Hms & Hsc & Hpu & Hhit & Hnew & Hca & Hscs).
  exists new, scs, hit. cbn [fst snd].
  rewrite Hes, Hms, Hsc, Hpu. cbn [sw_score sw_pushed app].
  repeat split; assumption.
Qed.

Lemma blasts_spec (dt : Q) (e : Explosion) (m : Missile) :
  blasts dt e m = true <->
  active e = true /\ age e + dt <= duration e /\
  (euclid (pos m) (pos e) < Q2R (blastRadius e (age e + dt)))%R.
Proof.
  unfold blasts, euclid.
  rewrite !andb_true_iff, negb_true_iff.
  unfold Qgtb. rewrite Qltb_ge.
  rewrite surd_ltQ_spec by apply distance_radicand_nonneg.
  tauto.
Qed.

Lemma doomed_spec (dt : Q) (es : list Explosion) (m : Missile) :
  doomed dt es m = true <->
  active m = true /\
  exists e : Explosion,
    e ∈ es /\ active e = true /\ age e + dt <= duration e /\
    (euclid (pos m) (pos e) < Q2R (blastRadius e (age e + dt)))%R.
Proof.
  unfold doomed. rewrite andb_true_iff, existsb_exists.
  split; intros [Hm (e & Hin & He)]; (split; [exact Hm|]); exists e.
  - apply list_elem_of_In in Hin. apply blasts_spec in He. tauto.
  - apply list_elem_of_In in Hin. split; [exact Hin|].
    apply blasts_spec. exact He.
Qed.

(** C4.  The collision pass of one tick ([updateExplosions], step 4).  An
    enemy missile is hit when it is active and lies at a Euclidean distance
    strictly below the current radius (the one just computed from its new
    age, not [maxRadius]) of some explosion that is still active after
    aging.  Every hit missile is deactivated and nothing else about the
    missiles changes; the score grows by exactly 20 per hit missile, each
    counted once however many explosions cover it; and the explosions
    appended by the pass are, one for one, secondary explosions with
    [maxRadius = 30], [duration = 600] at the positions of the hit
    missiles. *)
Theorem explosions_intercept_enemy_missiles
    (dt : Q) (s : State) (h : Host) :
  let s' := (updateExplosions dt s h).1 in
  let hit := doomed dt (explosions s) in
  (forall m : Missile,
     hit m = true <->
     active m = true /\
     exists e : Explosion,
       e ∈ explosions s /\ active e = true /\ age e + dt <= duration e /\
       radius (aged dt e) = blastRadius e (age e + dt) /\
       (euclid (pos m) (pos e) < Q2R (radius (aged dt e)))%R) /\
  enemyMissiles s' =
    map (fun m => if hit m then destroyed m else m) (enemyMissiles s) /\
  score s' =
    (score s + 20 * Z.of_nat (length (List.filter hit (enemyMissiles s))))%Z /\
  exists (new : list Explosion) (struck : list Missile),
    explosions s' = map (aged dt) (explosions s) ++ new /\
    Permutation struck (List.filter hit (enemyMissiles s)) /\
    Forall2 (fun (ex : Explosion) (m : Missile) =>
               exists i, ex = newExplosion i (x m) (y m) 30 600 "#fbbf24")
            new struck.
Proof.
  intros s' hit. subst s' hit.
  destruct (updateExplosions_spec dt s h)
    as (new & scs & struck & Hrun & Hperm & Hnew & _ & _).
  rewrite Hrun. cbn [fst].
  split; [|split; [reflexivity|split; [reflexivity|]]].
  - intros m. rewrite doomed_spec.
    split; intros [Hm (e & Hin & Hact & Hage & Hrest)];
      (split; [exact Hm|]); exists e.
    + assert (Hr : radius (aged dt e) = blastRadius e (age e + dt)).
      { unfold aged. rewrite Hact. simpl negb. cbv iota.
        apply Qltb_ge in Hage. unfold Qgtb. now rewrite Hage. }
      rewrite Hr. tauto.
    + destruct Hrest as [Hr Hlt]. rewrite Hr in Hlt. tauto.
  - exists new, struck. repeat split; assumption.
Qed.

(** A missile covered by two explosions at once is destroyed and credited
    once. *)
Example one_credit_for_two_blasts :
  let e1 := explosion_with {| id := 1; x := 100; y := 100; active := true |}
              35 300 (newExplosion 1 100 100 70 1200 "#ffffff") in
  let e2 := explosion_with {| id := 2; x := 110; y := 100; active := true |}
              35 300 (newExplosion 2 110 100 70 1200 "#ffffff") in
  let m := {| missile_base := {| id := 3; x := 105; y := 100; active := true |};
              startX := 105; startY := 0; targetX := 105; targetY := 560;
              speed := 0.04; progress := 0.178; missile_color := "#ef4444";
              trail := [] |} in
  let s := set_score 40 (set_enemyMissiles [m]
             (set_explosions [e1; e2] initialState)) in
  let h := {| random := fun _ => 0.5; drawn := 0; dateNow := 1000;
              calls := [] |} in
  let s' := (updateExplosions 16 s h).1 in
  score s' = 60%Z /\ map (fun m : Missile => active m) (enemyMissiles s') = [false] /\
  length (explosions s') = 3%nat /\
  calls (updateExplosions 16 s h).2 = [SetScore 60].
Proof. vm_compute. repeat split; reflexivity. Qed.

Lemma aged_active (dt : Q) (e : Explosion) :
  active e = true ->
  aged dt e =
  if Qgtb (age e + dt) (duration e)
  then explosion_with (deactivate e) (radius e) (age e + dt) e
  else explosion_with e (blastRadius e (age e + dt)) (age e + dt) e.
Proof. intros Ha. unfold aged. now rewrite Ha. Qed.

(** C7.  Step 4 replaces every explosion of [s.explosions] by its [aged]
    version (new ones are only appended).  For an active explosion with a
    positive duration and a non-negative [maxRadius]: its age grows by
    [dt]; it is switched off exactly when the new age exceeds the
    duration; while it stays active its radius is the envelope
    [blastRadius] at the new age.  The envelope is the symmetric tent
    [maxRadius * (1 - |a - duration/2| / (duration/2))]: 0 at age 0,
    [maxRadius] at half the duration, 0 at the duration, non-decreasing
    up to half the duration and non-increasing after, and never negative
    on [0, duration]; so the radius never becomes negative. *)
Theorem explosion_follows_triangular_envelope
    (dt : Q) (s : State) (h : Host) :
  (exists new : list Explosion,
     explosions (updateExplosions dt s h).1 =
     map (aged dt) (explosions s) ++ new) /\
  forall e : Explosion,
    active e = true -> 0 < duration e -> 0 <= maxRadius e ->
    let e' := aged dt e in
    age e' = age e + dt /\
    duration e' = duration e /\ maxRadius e' = maxRadius e /\
    (active e' = false <-> duration e < age e') /\
    (active e' = true -> radius e' = blastRadius e (age e')) /\
    (0 <= dt -> 0 <= age e -> 0 <= radius e -> 0 <= radius e') /\
    blastRadius e 0 == 0 /\
    blastRadius e (duration e / 2) == maxRadius e /\
    blastRadius e (duration e) == 0 /\
    (forall a : Q,
       blastRadius e a ==
       maxRadius e * (1 - Qabs (a - duration e / 2) / (duration e / 2))) /\
    (forall a b : Q,
       a <= b -> b <= duration e / 2 ->
       blastRadius e a <= blastRadius e b) /\
    (forall a b : Q,
       duration e / 2 <= a -> a <= b ->
       blastRadius e b <= blastRadius e a) /\
    (forall a : Q, 0 <= a -> a <= duration e -> 0 <= blastRadius e a).
Proof.
  split.
  { destruct (updateExplosions_spec dt s h) as (new & _ & _ & Hrun & _).
    exists new. now rewrite Hrun. }
  intros e Hact Hdur Hmax e'. subst e'.
  rewrite (aged_active dt e Hact).
  destruct (Qgtb (age e + dt) (duration e)) eqn:Hexp; cbn.
  - apply Qltb_lt in Hexp.
    repeat split; try reflexivity; try tauto; try discriminate.
    + apply blastRadius_start; assumption.
    + apply blastRadius_peak; assumption.
    + apply blastRadius_end; assumption.
    + intros a. apply blastRadius_tent; assumption.
    + intros a b. apply blastRadius_increasing; assumption.
    + intros a b. apply blastRadius_decreasing; assumption.
    + intros a. apply blastRadius_nonneg; assumption.
  - apply Qltb_ge in Hexp. rewrite Hact.
    repeat split; try reflexivity; try discriminate.
    + intros Hlt. exfalso. lra.
    + intros Hdt Hage _. apply blastRadius_nonneg; try assumption. lra.
    + apply blastRadius_start; assumption.
    + apply blastRadius_peak; assumption.
    + apply blastRadius_end; assumption.
    + intros a. apply blastRadius_tent; assumption.
    + intros a b. apply blastRadius_increasing; assumption.
    + intros a b. apply blastRadius_decreasing; assumption.
    + intros a. apply blastRadius_nonneg; assumption.
Qed.

(** ** Step 3: enemy impacts *)

Lemma set_explosions_same (s : State) : set_explosions (explosions s) s = s.
Proof. now destruct s. Qed.

Lemma wreck_run {A} (base : A -> GameObject) (rebase : GameObject -> A -> A)
    (m : Point) (a : A) (s : State) (h : Host) :
  wreck base rebase m a s h =
  if inRange m (base a) then
    (rebase (deactivate (base a)) a,
     push_explosion
       (newExplosion (dateNow h + random h (drawn h))
          (x (base a)) (y (base a)) 50 1000 "#ef4444") s,
     {| random := random h; drawn := S (drawn h); dateNow := dateNow h;
        calls := calls h |})
  else (a, s, h).
Proof.
  unfold wreck. fold (inRange m (base a)).
  now destruct (inRange m (base a)).
Qed.

Lemma forEach_wreck {A} (base : A -> GameObject)
    (rebase : GameObject -> A -> A) (m : Point) (l : list A) :
  forall (s : State) (h : Host),
  exists new,
    (forEach (wreck base rebase m) l s h).1.1 = map (wrecked base rebase m) l /\
    (forEach (wreck base rebase m) l s h).1.2 =
      set_explosions (explosions s ++ new) s /\
    Forall2 debrisAt new
      (map base (List.filter (fun a => inRange m (base a)) l)) /\
    calls (forEach (wreck base rebase m) l s h).2 = calls h.
Proof.
  induction l as [|a l IH]; intros s h.
  - exists []. simpl. rewrite app_nil_r, set_explosions_same.
    repeat split. constructor.
  - rewrite forEach_cons, wreck_run. cbv zeta. simpl map. simpl List.filter.
    unfold wrecked at 1.
    destruct (inRange m (base a)) eqn:Hin; cbn [fst snd].
    + match goal with
      | |- context [forEach _ l ?s1 ?h1] =>
          destruct (IH s1 h1) as (new & Hl & Hs & Hnew & Hca)
      end.
      eexists (_ :: new). rewrite Hl, Hs, Hca.
      repeat split.
      * unfold push_explosion. cbn. now rewrite <- app_assoc.
      * simpl. constructor; [eexists; reflexivity|exact Hnew].
    + destruct (IH s h) as (new & Hl & Hs & Hnew & Hca).
      exists new. rewrite Hl, Hs, Hca. repeat split. exact Hnew.
Qed.

Lemma wreckStructures_spec (m : Point) (s : State) (h : Host) :
  exists debrisC debrisT,
    (wreckStructures m s h).1 =
      set_towers (map (wrecked tower_base tower_with_base m) (towers s))
        (set_cities (map (wrecked city_base city_with_base m) (cities s))
           (set_explosions (explosions s ++ debrisC ++ debrisT) s)) /\
    Forall2 debrisAt debrisC
      (map city_base
         (List.filter (fun c : City => inRange m c) (cities s))) /\
    Forall2 debrisAt debrisT
      (map tower_base
         (List.filter (fun t : Tower => inRange m t) (towers s))) /\
    calls (wreckStructures m s h).2 = calls h.
Proof.
  unfold wreckStructures, mbind, Sim_bind, mret, Sim_ret.
  destruct (forEach_wreck city_base city_with_base m (cities s) s h)
    as (dc & Hc1 & Hc2 & Hc3 & Hc4).
  destruct (forEach (wreck city_base city_with_base m) (cities s) s h)
    as [[cs s1] h1]. cbn [fst snd] in *. subst cs s1.
  match goal with
  | |- context [forEach _ _ ?s2 h1] =>
      destruct (forEach_wreck tower_base tower_with_base m
                  (towers s) s2 h1) as (dt' & Ht1 & Ht2 & Ht3 & Ht4);
      change (towers s2) with (towers s) in *
  end.
  cbn [towers set_cities set_explosions] in *.
  match goal with
  | |- context [forEach ?f ?l ?s2 h1] =>
      destruct (forEach f l s2 h1) as [[ts s3] h3]
  end.
  cbn [fst snd] in *. subst ts s3.
  exists dc, dt'. cbn. rewrite <- app_assoc.
  repeat split; try assumption. congruence.
Qed.

Lemma stepEnemyMissile_run (dt : Q) (m : Missile) (s : State) (h : Host) :
  active m = true ->
  let p := enemyProgress dt m in
  let o := moveTo (px (enemyPoint dt m)) (py (enemyPoint dt m)) m in
  let tr := if Qgtb (random h (drawn h)) 0.7
            then pushTrail 5 (enemyPoint dt m) (trail m) else trail m in
  stepEnemyMissile dt m s h =
  if Qgeb p 1 then
    let r := wreckStructures (enemyPoint dt m)
               (push_explosion
                  (newExplosion (dateNow h + random h (S (drawn h)))
                     (px (enemyPoint dt m)) (py (enemyPoint dt m))
                     40 800 "#f59e0b") s)
               (drew 2 h) in
    (missile_with (deactivate o) p tr m, r.1, r.2)
  else (missile_with o p tr m, s, drew 1 h).
Proof.
  intros Hact p o tr. subst p o tr.
  unfold stepEnemyMissile. rewrite Hact. cbn [negb].
  fold (enemyProgress dt m).
  destruct (Qgeb (enemyProgress dt m) 1); [|reflexivity].
  unfold mbind, Sim_bind, mret, Sim_ret, Math_random, freshId, Date_now.
  unfold mbind, Sim_bind, mret, Sim_ret, Math_random.
  cbn [random drawn dateNow calls].
  match goal with
  | |- (let (_, _) := ?W in _) = _ =>
      change W
        with (wreckStructures (enemyPoint dt m)
               (push_explosion
                  (newExplosion (dateNow h + random h (S (drawn h)))
                     (px (enemyPoint dt m)) (py (enemyPoint dt m))
                     40 800 "#f59e0b") s)
               (drew 2 h))
  end.
  now destruct (wreckStructures _ _ (drew 2 h)) as [s' h'].
Qed.

Lemma Forall2_map_r {A B C} (P : A -> C -> Prop) (f : B -> C)
    (l : list A) (k : list B) :
  Forall2 P l (map f k) -> Forall2 (fun a b => P a (f b)) l k.
Proof.
  revert l. induction k as [|b k IH]; intros l H; simpl in H;
    inversion H; subst; constructor; auto.
Qed.

Lemma inRange_spec (m : Point) (o : GameObject) :
  inRange m o = true <->
  active o = true /\ (euclid m (pos o) < Q2R 35)%R.
Proof.
  unfold inRange, euclid. rewrite andb_true_iff.
  rewrite surd_ltQ_spec by apply distance_radicand_nonneg. tauto.
Qed.

Lemma lerp_end (a b p : Q) : p == 1 -> lerp a b p == b.
Proof. intros Hp. unfold lerp. rewrite Hp. ring. Qed.

Lemma Forall2_map_diag {A} (P : A -> A -> Prop) (f : A -> A) (l : list A) :
  (forall a, P a (f a)) -> Forall2 P l (map f l).
Proof. intros H. induction l; cbn; constructor; auto. Qed.

Lemma debrisAt_blastAt (l : list Explosion) (k : list GameObject) :
  Forall2 debrisAt l k ->
  Forall2 (fun (ex : Explosion) (o : GameObject) =>
             blastAt ex (x o) (y o) 50 1000 "#ef4444") l k.
Proof.
  intros H. eapply Forall2_impl; [exact H|].
  intros ex o [i ->]. repeat split.
Qed.

(** X19.  What an enemy impact destroys.  An active enemy missile whose
    progress reaches 1 in this tick is moved to the point [impact] at its
    new progress on its line (its target only if the progress is exactly
    1) and deactivated there.  A city or tower ends up inactive exactly if
    it was inactive already or lies at Euclidean distance strictly below
    35 from [impact]; no other field of any city or tower changes.  The
    explosions appended are one impact explosion at [impact]
    ([maxRadius] 40, [duration] 800) followed by exactly one debris
    explosion ([maxRadius] 50, [duration] 1000) per structure destroyed,
    at that structure's position, cities first. *)
Theorem enemy_impact_wrecks_structures_near_the_point_reached
    (dt : Q) (m : Missile) (s : State) (h : Host) :
  active m = true ->
  1 <= enemyProgress dt m ->
  let impact := enemyPoint dt m in
  let r := stepEnemyMissile dt m s h in
  let s' := r.1.2 in
  active r.1.1 = false /\ x r.1.1 = px impact /\ y r.1.1 = py impact /\
  (enemyProgress dt m == 1 ->
   px impact == targetX m /\ py impact == targetY m) /\
  (forall o : GameObject,
     inRange impact o = true <->
     active o = true /\ (euclid impact (pos o) < Q2R 35)%R) /\
  Forall2 (fun c c' : City =>
             active c' = active c && negb (inRange impact c) /\
             id c' = id c /\ x c' = x c /\ y c' = y c /\
             city_color c' = city_color c)
          (cities s) (cities s') /\
  Forall2 (fun t t' : Tower =>
             active t' = active t && negb (inRange impact t) /\
             id t' = id t /\ x t' = x t /\ y t' = y t /\
             ammo t' = ammo t /\ maxAmmo t' = maxAmmo t /\
             tower_color t' = tower_color t)
          (towers s) (towers s') /\
  exists (ex : Explosion) (debrisC debrisT : list Explosion),
    explosions s' = explosions s ++ [ex] ++ debrisC ++ debrisT /\
    blastAt ex (px impact) (py impact) 40 800 "#f59e0b" /\
    Forall2 (fun (d : Explosion) (c : City) =>
               blastAt d (x c) (y c) 50 1000 "#ef4444")
            debrisC
            (List.filter (fun c : City => inRange impact c) (cities s)) /\
    Forall2 (fun (d : Explosion) (t : Tower) =>
               blastAt d (x t) (y t) 50 1000 "#ef4444")
            debrisT
            (List.filter (fun t : Tower => inRange impact t) (towers s)).
Proof.
  intros Hact Hp impact r s'. subst r s'.
  rewrite (stepEnemyMissile_run dt m s h Hact). cbv zeta.
  apply Qgeb_le in Hp. rewrite Hp. fold impact.
  match goal with
  | |- context [wreckStructures impact ?s1 ?h1] =>
      destruct (wreckStructures_spec impact s1 h1)
        as (dc & dt' & Hrun & Hdc & Hdt & _)
  end.
  cbn [fst snd]. rewrite Hrun. clear Hrun.
  split; [reflexivity|]. split; [reflexivity|]. split; [reflexivity|].
  split.
  { intros H1. subst impact. unfold enemyPoint. cbn [px py].
    split; apply lerp_end; exact H1. }
  split; [apply inRange_spec|].
  split.
  { cbn [cities set_towers set_cities]. apply Forall2_map_diag.
    intros c. unfold wrecked, inRange.
    destruct (active c) eqn:Hc; destruct (surd_ltQ _ _) eqn:Hn;
      cbn; rewrite ?Hc; repeat split; reflexivity. }
  split.
  { cbn [towers set_towers]. apply Forall2_map_diag.
    intros t. unfold wrecked, inRange.
    destruct (active t) eqn:Hc; destruct (surd_ltQ _ _) eqn:Hn;
      cbn; rewrite ?Hc; repeat split; reflexivity. }
  eexists _, dc, dt'. split.
  { cbn. rewrite <- app_assoc. reflexivity. }
  split; [repeat split|].
  cbn [cities towers push_explosion set_explosions] in Hdc, Hdt.
  split.
  - apply debrisAt_blastAt in Hdc. apply Forall2_map_r in Hdc. exact Hdc.
  - apply debrisAt_blastAt in Hdt. apply Forall2_map_r in Hdt. exact Hdt.
Qed.

(** ** The tick as a whole *)

Lemma quietly_refl s h : quietly s h s h.
Proof. repeat split. Qed.

Lemma stepPlayerMissile_quietly dt m s0 h0 s h :
  quietly s0 h0 s h ->
  quietly s0 h0 (stepPlayerMissile dt m s h).1.2 (stepPlayerMissile dt m s h).2.
Proof.
  intros Hq. unfold stepPlayerMissile.
  destruct (negb (active m)); [exact Hq|].
  unfold mbind, Sim_bind, mret, Sim_ret, Math_random, freshId, Date_now.
  unfold mbind, Sim_bind, mret, Sim_ret, Math_random.
  destruct (Qltb (progress m + speed m * dt) 1);
    destruct (Qgeb (progress m + speed m * dt) 1); cbn; exact Hq.
Qed.

Lemma stepPlayerMissile_aside dt m s0 s h :
  aside s0 s -> aside s0 (stepPlayerMissile dt m s h).1.2.
Proof.
  intros Hq. unfold stepPlayerMissile.
  destruct (negb (active m)); [exact Hq|].
  unfold mbind, Sim_bind, mret, Sim_ret, Math_random, freshId, Date_now.
  unfold mbind, Sim_bind, mret, Sim_ret, Math_random.
  destruct Hq as (Ht & Hc & He & new & Hx).
  destruct (Qltb (progress m + speed m * dt) 1);
    destruct (Qgeb (progress m + speed m * dt) 1); cbn;
    (split; [exact Ht|split; [exact Hc|split; [exact He|]]]);
    try (now exists new);
    unfold push_explosion; cbn;
    rewrite Hx, <- app_assoc; eexists; reflexivity.
Qed.

Lemma updatePlayerMissiles_run dt s h :
  updatePlayerMissiles dt s h =
  let r := forEach (stepPlayerMissile dt) (playerMissiles s) s h in
  (set_playerMissiles r.1.1 r.1.2, r.2).
Proof.
  unfold updatePlayerMissiles, mbind, Sim_bind, mret, Sim_ret.
  now destruct (forEach _ _ s h) as [[ms s'] h'].
Qed.

Lemma updatePlayerMissiles_quietly dt s h :
  quietly s h (updatePlayerMissiles dt s h).1 (updatePlayerMissiles dt s h).2
  /\ aside s (updatePlayerMissiles dt s h).1.
Proof.
  rewrite updatePlayerMissiles_run. cbv zeta. cbn [fst snd].
  split.
  - apply (forEach_invariant (stepPlayerMissile dt) (quietly s h)).
    + intros a s1 h1. apply stepPlayerMissile_quietly.
    + apply quietly_refl.
  - apply (forEach_invariant (stepPlayerMissile dt)
             (fun s1 _ => aside s s1)).
    + intros a s1 h1. apply stepPlayerMissile_aside.
    + repeat split. exists []. now rewrite app_nil_r.
Qed.

Lemma wrecked_tower_ammoPair m (ts : list Tower) :
  map ammoPair (map (wrecked tower_base tower_with_base m) ts) =
  map ammoPair ts.
Proof.
  rewrite map_map. apply map_ext. intros t. unfold wrecked.
  now destruct (inRange m t).
Qed.

Lemma stepEnemyMissile_quietly dt m s0 h0 s h :
  quietly s0 h0 s h ->
  quietly s0 h0 (stepEnemyMissile dt m s h).1.2 (stepEnemyMissile dt m s h).2.
Proof.
  intros Hq. destruct (active m) eqn:Hact.
  - rewrite (stepEnemyMissile_run dt m s h Hact). cbv zeta.
    destruct (Qgeb (enemyProgress dt m) 1); cbn [fst snd]; [|exact Hq].
    match goal with
    | |- context [wreckStructures ?p ?s1 ?h1] =>
        destruct (wreckStructures_spec p s1 h1)
          as (dc & dt' & Hrun & _ & _ & Hca)
    end.
    unfold quietly in *. rewrite Hrun, Hca. cbn.
    destruct Hq as (H1 & H2 & H3 & H4 & H5 & H6 & H7).
    repeat split; try assumption.
    now rewrite wrecked_tower_ammoPair.
  - unfold stepEnemyMissile. rewrite Hact. exact Hq.
Qed.

Lemma updateEnemyMissiles_run dt s h :
  updateEnemyMissiles dt s h =
  let r := forEach (stepEnemyMissile dt) (enemyMissiles s) s h in
  (set_enemyMissiles r.1.1 r.1.2, r.2).
Proof.
  unfold updateEnemyMissiles, mbind, Sim_bind, mret, Sim_ret.
  now destruct (forEach _ _ s h) as [[ms s'] h'].
Qed.

Lemma updateEnemyMissiles_quietly dt s h :
  quietly s h (updateEnemyMissiles dt s h).1 (updateEnemyMissiles dt s h).2.
Proof.
  rewrite updateEnemyMissiles_run. cbv zeta. cbn [fst snd].
  apply (forEach_invariant (stepEnemyMissile dt) (quietly s h)).
  - intros a s1 h1. apply stepEnemyMissile_quietly.
  - apply quietly_refl.
Qed.

Lemma set_enemyMissiles_same (s : State) :
  set_enemyMissiles (enemyMissiles s) s = s.
Proof. now destruct s. Qed.

(** With no enemy missile in flight step 3 does nothing. *)
Lemma updateEnemyMissiles_none dt s h :
  enemyMissiles s = [] -> updateEnemyMissiles dt s h = (s, h).
Proof.
  intros He. rewrite updateEnemyMissiles_run, He. cbn.
  rewrite <- He. now rewrite set_enemyMissiles_same.
Qed.

Lemma logged_nil h : logged [] h = h.
Proof. destruct h. unfold logged. cbn. now rewrite app_nil_r. Qed.

Lemma checkEndGame_run s h :
  checkEndGame playing s h = (tt, logged (endGameCalls s) h).
Proof.
  unfold checkEndGame, endGameCalls.
  destruct (_ =? 0)%nat; [reflexivity|].
  rewrite andb_true_r.
  destruct (WIN_SCORE <=? score s)%Z; [reflexivity|].
  now rewrite logged_nil.
Qed.

Lemma waveComplete_run s h :
  waveComplete s h =
  (set_score (score s + ammoBonus (towers s)) s,
   logged (waveCompleteCalls s) h).
Proof.
  unfold waveComplete, waveCompleteCalls, logged, mbind, Sim_bind, mret,
    Sim_ret, call. cbn. now rewrite <- !app_assoc.
Qed.

(** Step 1 when the spawn budget is not used up. *)
Lemma spawning_spec dt s h :
  (enemiesSpawned s <? enemiesToSpawn s)%Z = true ->
  let r := spawnEnemies dt s h in
  calls r.2 = calls h /\ score r.1 = score s /\
  towers r.1 = towers s /\ cities r.1 = cities s /\
  explosions r.1 = explosions s /\
  playerMissiles r.1 = playerMissiles s /\
  enemiesToSpawn r.1 = enemiesToSpawn s /\
  (enemiesSpawned r.1 <= enemiesToSpawn r.1)%Z /\
  wave r.1 = wave s /\
  exists new, enemyMissiles r.1 = enemyMissiles s ++ new /\
              Forall (fun m : Missile => active m = true) new.
Proof.
  intros Hlt r. subst r. unfold spawnEnemies. rewrite Hlt.
  apply Z.ltb_lt in Hlt.
  cbn [spawnTimer spawnInterval set_spawnTimer].
  destruct (Qgtb (spawnTimer s + dt) (spawnInterval s)).
  - unfold spawnEnemy, mbind, Sim_bind, mret, Sim_ret, Math_random,
      freshId, Date_now.
    unfold mbind, Sim_bind, mret, Sim_ret, Math_random.
    cbn [random drawn dateNow calls].
    destruct (0 <? length _)%nat;
      [destruct (Qltb _ 0.7); [destruct (_ !! _)|]|];
      cbn; (do 7 (split; [reflexivity|]));
      (split; [lia|]); (split; [reflexivity|]);
      eexists; (split; [reflexivity|]);
      (constructor; [reflexivity|constructor]).
  - cbn. do 7 (split; [reflexivity|]).
    split; [lia|]. split; [reflexivity|].
    exists []. rewrite app_nil_r. split; [reflexivity|constructor].
Qed.

Lemma spawnEnemies_done s dt h :
  waveDone s = true ->
  spawnEnemies dt s h =
  (set_score (score s + ammoBonus (towers s)) s,
   logged (waveCompleteCalls s) h).
Proof.
  unfold waveDone, spawnEnemies. intros Hd.
  apply andb_true_iff in Hd as [Hb Hc].
  apply negb_true_iff in Hb. rewrite Hb, Hc. apply waveComplete_run.
Qed.

Lemma spawnEnemies_idle s dt h :
  (enemiesSpawned s <? enemiesToSpawn s)%Z = false ->
  fieldClear s = false ->
  spawnEnemies dt s h = (s, h).
Proof. unfold spawnEnemies. now intros -> ->. Qed.

(** Step 1 in all three cases. *)
Lemma spawnEnemies_spec dt s h :
  let r := spawnEnemies dt s h in
  calls r.2 = calls h ++ (if waveDone s then waveCompleteCalls s else []) /\
  score r.1 =
    (score s + (if waveDone s then ammoBonus (towers s) else 0))%Z /\
  towers r.1 = towers s /\ cities r.1 = cities s /\
  explosions r.1 = explosions s /\
  playerMissiles r.1 = playerMissiles s /\
  enemiesToSpawn r.1 = enemiesToSpawn s /\
  ((enemiesSpawned s <= enemiesToSpawn s)%Z ->
   (enemiesSpawned r.1 <= enemiesToSpawn r.1)%Z) /\
  wave r.1 = wave s /\
  exists new, enemyMissiles r.1 = enemyMissiles s ++ new /\
              Forall (fun m : Missile => active m = true) new.
Proof.
  intros r. subst r.
  destruct (enemiesSpawned s <? enemiesToSpawn s)%Z eqn:Hlt.
  - destruct (spawning_spec dt s h Hlt)
      as (H1 & H2 & H3 & H4 & H5 & H6 & H7 & H8 & Hw & H9).
    unfold waveDone. rewrite Hlt. simpl.
    rewrite app_nil_r, Z.add_0_r.
    split; [exact H1|]. split; [exact H2|]. split; [exact H3|].
    split; [exact H4|]. split; [exact H5|]. split; [exact H6|].
    split; [exact H7|]. split; [intros _; exact H8|].
    split; [exact Hw|exact H9].
  - destruct (fieldClear s) eqn:Hc.
    + assert (Hd : waveDone s = true) by (unfold waveDone; now rewrite Hlt, Hc).
      rewrite (spawnEnemies_done s dt h Hd), Hd. cbn.
      do 7 (split; [reflexivity|]). split; [tauto|].
      split; [reflexivity|].
      exists []. rewrite app_nil_r. split; [reflexivity|constructor].
    + assert (Hd : waveDone s = false)
        by (unfold waveDone; now rewrite Hlt, Hc).
      rewrite (spawnEnemies_idle s dt h Hlt Hc), Hd. cbn.
      rewrite app_nil_r, Z.add_0_r.
      do 7 (split; [reflexivity|]). split; [tauto|].
      split; [reflexivity|].
      exists []. rewrite app_nil_r. split; [reflexivity|constructor].
Qed.

Lemma update_playing_run time s h :
  update playing time s h =
  let r3 := motion time s h in
  let r4 := updateExplosions (dtOf time s) r3.1 r3.2 in
  (cleanup r4.1,
   logged (endGameCalls (cleanup r4.1) ++ [Draw; RequestAnimationFrame])
     r4.2).
Proof.
  unfold update, motion. cbn [GameState_eqb negb].
  assert (Hdt : time - lastTime (if Qeq_bool (lastTime s) 0
                                 then set_lastTime time s else s)
                = dtOf time s).
  { unfold dtOf. now destruct (Qeq_bool (lastTime s) 0). }
  rewrite Hdt.
  assert (Hs : set_lastTime time (if Qeq_bool (lastTime s) 0
                                  then set_lastTime time s else s)
               = set_lastTime time s).
  { now destruct (Qeq_bool (lastTime s) 0). }
  rewrite Hs.
  unfold mbind, Sim_bind, mret, Sim_ret.
  destruct (spawnEnemies _ _ h) as [s1 h1].
  destruct (updatePlayerMissiles _ s1 h1) as [s2 h2].
  destruct (updateEnemyMissiles _ s2 h2) as [s3 h3].
  cbn [fst snd].
  destruct (updateExplosions _ s3 h3) as [s4 h4].
  cbn [fst snd].
  rewrite checkEndGame_run. unfold call, logged. cbn.
  now rewrite <- !app_assoc.
Qed.

Lemma filter_all_active {A} (f : A -> bool) (l : list A) :
  Forall (fun a => f a = true) (List.filter f l).
Proof.
  apply Forall_forall. intros a Ha. apply list_elem_of_In in Ha.
  now apply List.filter_In in Ha.
Qed.

Lemma motion_spec time s h :
  let r := motion time s h in
  calls r.2 = calls h ++ (if waveDone s then waveCompleteCalls s else []) /\
  score r.1 =
    (score s + (if waveDone s then ammoBonus (towers s) else 0))%Z /\
  map ammoPair (towers r.1) = map ammoPair (towers s) /\
  enemiesToSpawn r.1 = enemiesToSpawn s /\
  ((enemiesSpawned s <= enemiesToSpawn s)%Z ->
   (enemiesSpawned r.1 <= enemiesToSpawn r.1)%Z) /\
  wave r.1 = wave s /\
  (waveDone s = true -> towers r.1 = towers s /\ enemyMissiles r.1 = []).
Proof.
  intros r. subst r. unfold motion, mbind, Sim_bind.
  pose proof (spawnEnemies_spec (dtOf time s) (set_lastTime time s) h)
    as Hspawn.
  pose proof (spawnEnemies_done (set_lastTime time s) (dtOf time s) h)
    as Hdone.
  change (waveDone (set_lastTime time s)) with (waveDone s) in *.
  cbn [towers score enemiesToSpawn enemiesSpawned wave set_lastTime]
    in Hspawn.
  destruct (spawnEnemies _ _ h) as [s1 h1]. cbn [fst snd] in *.
  destruct Hspawn as (C1 & S1 & T1 & _ & _ & _ & B1 & Bu1 & W1 & _).
  pose proof (updatePlayerMissiles_quietly (dtOf time s) s1 h1) as [Hq2 Ha2].
  destruct (updatePlayerMissiles _ s1 h1) as [s2 h2]. cbn [fst snd] in *.
  destruct Hq2 as (S2 & C2 & A2 & Sp2 & B2 & W2 & _).
  destruct Ha2 as (T2 & _ & E2 & _).
  pose proof (updateEnemyMissiles_quietly (dtOf time s) s2 h2) as Hq3.
  pose proof (updateEnemyMissiles_none (dtOf time s) s2 h2) as Hn3.
  destruct (updateEnemyMissiles _ s2 h2) as [s3 h3]. cbn [fst snd] in *.
  destruct Hq3 as (S3 & C3 & A3 & Sp3 & B3 & W3 & _).
  change (waveCompleteCalls (set_lastTime time s))
    with (waveCompleteCalls s) in *.
  split; [congruence|]. split; [congruence|].
  split; [rewrite A3, A2; now f_equal|].
  split; [congruence|]. split; [intros Hb; specialize (Bu1 Hb); lia|].
  split; [congruence|].
  intros Hd. specialize (Hdone Hd). injection Hdone as Hs1 _.
  assert (He : enemyMissiles s2 = []).
  { rewrite E2, Hs1. cbn.
    unfold waveDone, fieldClear in Hd.
    apply andb_true_iff in Hd as [_ Hd].
    apply andb_true_iff in Hd as [Hd _].
    apply Nat.eqb_eq in Hd. now destruct (enemyMissiles s). }
  specialize (Hn3 He). injection Hn3 as -> _.
  split; [|exact He]. rewrite T2, Hs1. reflexivity.
Qed.

Lemma cleanup_fields s :
  score (cleanup s) = score s /\ towers (cleanup s) = towers s /\
  enemiesSpawned (cleanup s) = enemiesSpawned s /\
  enemiesToSpawn (cleanup s) = enemiesToSpawn s /\
  wave (cleanup s) = wave s /\
  Forall (fun m : Missile => active m = true) (playerMissiles (cleanup s)) /\
  Forall (fun m : Missile => active m = true) (enemyMissiles (cleanup s)) /\
  Forall (fun e : Explosion => active e = true) (explosions (cleanup s)).
Proof.
  unfold cleanup. cbn. repeat split.
  - apply (filter_all_active (fun m : Missile => active m)).
  - apply (filter_all_active (fun m : Missile => active m)).
  - apply (filter_all_active (fun e : Explosion => active e)).
Qed.

(** One tick in the playing state, end to end. *)
Lemma update_playing_spec time s h :
  exists scs,
    let r := update playing time s h in
    calls r.2 =
      calls h ++ (if waveDone s then waveCompleteCalls s else []) ++
      scs ++ endGameCalls r.1 ++ [Draw; RequestAnimationFrame] /\
    forallb isSetScore scs = true /\
    score r.1 =
      (score s + (if waveDone s then ammoBonus (towers s) else 0) +
       20 * Z.of_nat (length (intercepted time s h)))%Z /\
    map ammoPair (towers r.1) = map ammoPair (towers s) /\
    ((enemiesSpawned s <= enemiesToSpawn s)%Z ->
     (enemiesSpawned r.1 <= enemiesToSpawn r.1)%Z) /\
    wave r.1 = wave s /\
    Forall (fun m : Missile => active m = true) (playerMissiles r.1) /\
    Forall (fun m : Missile => active m = true) (enemyMissiles r.1) /\
    Forall (fun e : Explosion => active e = true) (explosions r.1) /\
    (waveDone s = true ->
     towers r.1 = towers s /\ intercepted time s h = []).
Proof.
  rewrite update_playing_run. unfold intercepted.
  pose proof (motion_spec time s h) as Hm. cbv zeta in Hm |- *.
  destruct (motion time s h) as [s3 h3]. cbn [fst snd] in *.
  destruct Hm as (C3 & S3 & A3 & B3 & Bu3 & W3 & D3).
  destruct (updateExplosions_spec (dtOf time s) s3 h3)
    as (new & scs & hit & Hrun & _ & _ & C4 & Hscs).
  exists scs.
  destruct (updateExplosions _ s3 h3) as [s4 h4]. cbn [fst snd] in *.
  injection Hrun as Hs4.
  destruct (cleanup_fields s4) as (Sc & Tc & Spc & Bc & Wc & P5 & E5 & X5).
  split.
  { cbn. rewrite C4, C3, <- !app_assoc. reflexivity. }
  split; [exact Hscs|].
  split; [rewrite Sc, Hs4; cbn; lia|].
  split; [rewrite Tc, Hs4; cbn; exact A3|].
  split.
  { intros Hb. rewrite Spc, Bc, Hs4. cbn. auto. }
  split; [rewrite Wc, Hs4; cbn; exact W3|].
  split; [exact P5|]. split; [exact E5|]. split; [exact X5|].
  intros Hd. destruct (D3 Hd) as [T3 E3].
  split; [rewrite Tc, Hs4; cbn; exact T3|].
  now rewrite E3.
Qed.

(** ** Sessions *)

Lemma commit_app v a b : commit v (a ++ b) = commit (commit v a) b.
Proof. unfold commit. apply fold_left_app. Qed.

Lemma commit_scores v scs :
  forallb isSetScore scs = true ->
  gameState (commit v scs) = gameState v /\
  waveMessage (commit v scs) = waveMessage v /\
  waveShown (commit v scs) = waveShown v.
Proof.
  revert v. induction scs as [|c scs IH]; intros v H; [now cbn|].
  cbn in H. apply andb_true_iff in H as [Hc H].
  destruct c; try discriminate.
  destruct (IH (applyCall v (SetScore n)) H) as (H1 & H2 & H3).
  change (commit v (SetScore n :: scs))
    with (commit (applyCall v (SetScore n)) scs).
  now rewrite H1, H2, H3.
Qed.

Lemma transitions_app a b : transitions (a ++ b) = transitions a ++ transitions b.
Proof. unfold transitions. apply omap_app. Qed.

Lemma transitions_scores scs :
  forallb isSetScore scs = true -> transitions scs = [].
Proof.
  induction scs as [|c scs IH]; intros H; [reflexivity|].
  cbn in H. apply andb_true_iff in H as [Hc H].
  destruct c; try discriminate. cbn. now apply IH.
Qed.

Lemma timeouts_scores scs :
  forallb isSetScore scs = true -> List.filter isSetTimeout scs = [].
Proof.
  induction scs as [|c scs IH]; intros H; [reflexivity|].
  cbn in H. apply andb_true_iff in H as [Hc H].
  destruct c; try discriminate. cbn. now apply IH.
Qed.

Lemma runHandler_run now f pending se :
  runHandler now f pending se =
  let r := f (game se) (hostAt now se) in
  {| view := commit (view se) (calls r.2); game := r.1; host := r.2;
     timers := pending + length (List.filter isSetTimeout (calls r.2)) |}.
Proof.
  unfold runHandler. fold (hostAt now se).
  now destruct (f (game se) (hostAt now se)).
Qed.

(** The end-of-tick check sets at most one state. *)
Lemma endGameCalls_cases s :
  endGameCalls s = [SetGameState defeat] /\ activeTowers s = [] \/
  endGameCalls s = [SetGameState victory] /\ activeTowers s <> [] /\
    (WIN_SCORE <= score s)%Z \/
  endGameCalls s = [] /\ activeTowers s <> [] /\ (score s < WIN_SCORE)%Z.
Proof.
  unfold endGameCalls. fold (activeTowers s).
  destruct (activeTowers s) as [|t ts] eqn:Ha; cbn.
  - left. split; reflexivity.
  - right. destruct (WIN_SCORE <=? score s)%Z eqn:Hw.
    + left. apply Z.leb_le in Hw. repeat split; [discriminate|exact Hw].
    + right. apply Z.leb_gt in Hw. repeat split; [discriminate|exact Hw].
Qed.

(** One animation frame of a session that is in the playing state. *)
Lemma frame_playing_spec (se : Session) (now time : Q) :
  gameState (view se) = playing ->
  let s := game se in
  let se' := step se (now, AnimationFrame time) in
  game se' = (update playing time s (hostAt now se)).1 /\
  transitions (calls (host se')) =
    (if waveDone s then [wave_complete] else []) ++
    transitions (endGameCalls (game se')) /\
  gameState (view se') =
    List.last (transitions (calls (host se'))) playing /\
  waveMessage (view se') =
    (if waveDone s then bonusMessage (ammoBonus (towers s))
     else waveMessage (view se)) /\
  timers se' = (timers se + (if waveDone s then 1 else 0))%nat.
Proof.
  intros Hplay s se'. subst s se'. unfold step. rewrite Hplay.
  rewrite runHandler_run. cbv zeta. cbn [game host view timers].
  destruct (update_playing_spec time (game se) (hostAt now se))
    as (scs & Hcalls & Hscs & _).
  cbv zeta in Hcalls. cbn [calls hostAt app] in Hcalls.
  split; [reflexivity|].
  rewrite Hcalls.
  pose proof (transitions_scores scs Hscs) as Htr.
  pose proof (timeouts_scores scs Hscs) as Hto.
  destruct (commit_scores
              (commit (view se)
                 (if waveDone (game se) then waveCompleteCalls (game se)
                  else [])) scs Hscs) as (Hg & Hm & _).
  rewrite !transitions_app, Htr, !List.filter_app, Hto, !commit_app.
  set (v1 := commit (commit (view se) _) scs) in *.
  assert (Hend : transitions [Draw; RequestAnimationFrame] = []) by reflexivity.
  rewrite Hend, app_nil_r. cbn [app].
  destruct (endGameCalls_cases
              (update playing time (game se) (hostAt now se)).1)
    as [[-> _]|[[-> _]|[-> _]]];
    destruct (waveDone (game se)); cbn in *;
    rewrite ?Hg, ?Hm, ?Hplay; repeat split; lia.
Qed.

(** *** What each handler does to the towers, the score and the lists *)

Lemma shoot_cases target s h :
  shoot target s h = (s, h) \/
  exists i t,
    towers s !! i = Some t /\ hasAmmo t = true /\
    shoot target s h =
      (set_playerMissiles
         (playerMissiles s ++ [playerMissile (dateNow h) t target])
         (set_towers
            (<[i := tower_with_ammo (ammo t - 1)%Z t]> (towers s)) s),
       h).
Proof.
  pose proof (scanTowers_result target (towers s)) as Hscan.
  unfold shoot.
  destruct (fst (scanTowers target (towers s) 0 None Infinity)) as [i|];
    [|now left].
  destruct Hscan as (t & Hi & Ha & _). rewrite Hi.
  right. exists i, t. repeat split; assumption.
Qed.

Lemma handleInput_cases gs canvas e s h :
  handleInput gs canvas e s h = (s, h) \/
  exists i t target,
    towers s !! i = Some t /\ hasAmmo t = true /\
    handleInput gs canvas e s h =
      (set_playerMissiles
         (playerMissiles s ++ [playerMissile (dateNow h) t target])
         (set_towers
            (<[i := tower_with_ammo (ammo t - 1)%Z t]> (towers s)) s),
       h).
Proof.
  unfold handleInput.
  destruct (negb (GameState_eqb gs playing)); [now left|].
  destruct canvas as [rect|]; [|now left].
  destruct (eventTarget rect e) as [target|]; [|now left].
  destruct (Qgtb _ _); [now left|].
  destruct (shoot_cases target s h) as [H|(i & t & H)]; [now left|].
  right. exists i, t, target. exact H.
Qed.

Lemma update_idle gs time s h :
  gs <> playing ->
  update gs time s h =
  (set_lastTime time s, logged [RequestAnimationFrame] h).
Proof.
  intros Hgs. unfold update.
  assert (Hb : negb (GameState_eqb gs playing) = true)
    by (destruct gs; try reflexivity; congruence).
  rewrite Hb.
  assert (Hs : set_lastTime time (if Qeq_bool (lastTime s) 0
                                  then set_lastTime time s else s)
               = set_lastTime time s).
  { now destruct (Qeq_bool (lastTime s) 0). }
  rewrite Hs. reflexivity.
Qed.

Lemma ammoOK_ammoPair (ts ts' : list Tower) :
  map ammoPair ts' = map ammoPair ts ->
  Forall ammoOK ts -> Forall ammoOK ts'.
Proof.
  revert ts'. induction ts as [|t ts IH]; intros [|t' ts'] Hmap Hok;
    try discriminate; [constructor|].
  cbn in Hmap. injection Hmap as Ha Hm Hrest.
  apply Forall_cons in Hok as [Ht Hts].
  constructor; [|now apply IH].
  unfold ammoOK in *. rewrite Ha, Hm. exact Ht.
Qed.

Lemma ammoOK_after_shot (ts : list Tower) i t :
  ts !! i = Some t -> hasAmmo t = true ->
  Forall ammoOK ts ->
  Forall ammoOK (<[i := tower_with_ammo (ammo t - 1)%Z t]> ts).
Proof.
  intros Hi Ha Hok.
  apply Forall_insert; [exact Hok|].
  rewrite Forall_lookup in Hok. specialize (Hok i t Hi).
  unfold hasAmmo in Ha. apply andb_true_iff in Ha as [_ Ha].
  apply Z.ltb_lt in Ha. unfold ammoOK in *. cbn. lia.
Qed.

Lemma ammoOK_replenish (ts : list Tower) :
  Forall ammoOK ts -> Forall ammoOK (map replenish ts).
Proof.
  intros Hok. apply Forall_map.
  eapply Forall_impl; [exact Hok|].
  intros t Ht. unfold replenish, ammoOK in *.
  destruct (active t); cbn; lia.
Qed.

Lemma ammoOK_initialTowers : Forall ammoOK initialTowers.
Proof. repeat constructor; cbn; lia. Qed.

Lemma startNextWave_run s h :
  startNextWave s h =
  (set_explosions []
     (set_enemyMissiles []
        (set_playerMissiles []
           (set_towers (map replenish (towers s))
              (set_spawnInterval
                 (Qmax 400 (2500 - inject_Z (wave s + 1) * 150))
                 (set_enemiesSpawned 0%Z
                    (set_enemiesToSpawn (10 + (wave s + 1) * 2)%Z
                       (set_enemySpeedMultiplier
                          (enemySpeedMultiplier s + 0.15)
                          (set_wave (wave s + 1)%Z s)))))))),
   logged [SetWave (wave s + 1); SetGameState playing] h).
Proof.
  unfold startNextWave, mbind, Sim_bind, mret, Sim_ret, call, logged.
  cbn. now rewrite <- app_assoc.
Qed.

Lemma initGame_run s h :
  initGame true s h =
  (set_spawnInterval (Qmax 500 (2500 - inject_Z 1 * 200))
     (set_enemiesSpawned 0%Z
        (set_spawnTimer 0
           (set_explosions []
              (set_enemyMissiles []
                 (set_playerMissiles []
                    (set_cities initialCities
                       (set_towers initialTowers
                          (set_enemiesToSpawn 10%Z
                             (set_enemySpeedMultiplier 1
                                (set_wave 1%Z (set_score 0%Z s))))))))))),
   logged [SetScore 0; SetWave 1; SetGameState playing] h).
Proof.
  unfold initGame, mbind, Sim_bind, mret, Sim_ret, call, logged.
  cbn. now rewrite <- !app_assoc.
Qed.

Lemma waveTimeout_cases s h :
  waveTimeout s h = (s, logged [SetGameState victory] h) \/
  waveTimeout s h = startNextWave s h.
Proof.
  unfold waveTimeout. destruct (WIN_SCORE <=? score s)%Z; [left|now right].
  reflexivity.
Qed.

Lemma update_wellFormed gs time s h :
  wellFormed s -> wellFormed (update gs time s h).1.
Proof.
  intros [Hammo Hbud Hwave Hp He Hx].
  assert (Hdec : gs = playing \/ gs <> playing)
    by (destruct gs; (now left) || (right; discriminate)).
  destruct Hdec as [->|Hgs].
  - destruct (update_playing_spec time s h)
      as (scs & _ & _ & _ & Ha & Hb & Hw & Hp' & He' & Hx' & _).
    cbv zeta in *. constructor; auto.
    + eapply ammoOK_ammoPair; eassumption.
    + now rewrite Hw.
  - rewrite (update_idle gs time s h Hgs). now constructor.
Qed.

Lemma handleInput_wellFormed gs canvas e s h :
  wellFormed s -> wellFormed (handleInput gs canvas e s h).1.
Proof.
  intros Hwf.
  destruct (handleInput_cases gs canvas e s h)
    as [->|(i & t & target & Hi & Ha & ->)]; [exact Hwf|].
  destruct Hwf as [Hammo Hbud Hwave Hp He Hx].
  constructor; cbn; auto.
  - now apply ammoOK_after_shot.
  - apply Forall_app. split; [exact Hp|]. now repeat constructor.
Qed.

Lemma initGame_wellFormed s h : wellFormed (initGame true s h).1.
Proof.
  rewrite initGame_run. constructor; cbn.
  - apply ammoOK_initialTowers.
  - lia.
  - lia.
  - constructor.
  - constructor.
  - constructor.
Qed.

Lemma waveTimeout_wellFormed s h :
  wellFormed s -> wellFormed (waveTimeout s h).1.
Proof.
  intros Hwf. destruct (waveTimeout_cases s h) as [->| ->]; [exact Hwf|].
  rewrite startNextWave_run.
  destruct Hwf as [Hammo Hbud Hwave Hp He Hx].
  constructor; cbn.
  - now apply ammoOK_replenish.
  - lia.
  - lia.
  - constructor.
  - constructor.
  - constructor.
Qed.

Lemma step_wellFormed se ev :
  wellFormed (game se) -> wellFormed (game (step se ev)).
Proof.
  intros Hwf. destruct ev as [now [time|canvas e| |]]; unfold step.
  - rewrite runHandler_run. now apply update_wellFormed.
  - rewrite runHandler_run. now apply handleInput_wellFormed.
  - destruct (buttonShown _); [|exact Hwf].
    rewrite runHandler_run. apply initGame_wellFormed.
  - destruct (timers se); [exact Hwf|].
    rewrite runHandler_run. now apply waveTimeout_wellFormed.
Qed.

Lemma run_wellFormed evs :
  forall se, wellFormed (game se) -> wellFormed (game (run se evs)).
Proof.
  induction evs as [|ev evs IH]; intros se Hwf; [exact Hwf|].
  cbn. apply IH. now apply step_wellFormed.
Qed.

Lemma mount_wellFormed rnd : wellFormed (game (mount rnd)).
Proof. constructor; cbn; try constructor; lia. Qed.

(** Every state a session can reach is well formed. *)
Lemma reachable_wellFormed rnd evs : wellFormed (game (run (mount rnd) evs)).
Proof. apply run_wellFormed, mount_wellFormed. Qed.

(** ** Wave completion *)

Lemma ammoBonus_from (ts : list Tower) (acc : Z) :
  fold_left (fun bonus t =>
               if active (tower_base t) then (bonus + ammo t * AMMO_BONUS)%Z
               else bonus) ts acc =
  (acc + Zsum (map (fun t : Tower => (ammo t * 5)%Z)
                 (List.filter (fun t : Tower => active t) ts)))%Z.
Proof.
  unfold Zsum.
  revert acc. induction ts as [|t ts IH]; intros acc; cbn [fold_left].
  - cbn. lia.
  - rewrite IH. cbn [List.filter].
    destruct (active t); cbn [map fold_right].
    + unfold AMMO_BONUS. lia.
    + reflexivity.
Qed.

Lemma ammoBonus_sum (s : State) :
  ammoBonus (towers s) =
  Zsum (map (fun t : Tower => (ammo t * 5)%Z) (activeTowers s)).
Proof. unfold ammoBonus, activeTowers. now rewrite ammoBonus_from. Qed.

Lemma ammoBonus_nonneg (s : State) :
  Forall ammoOK (towers s) -> (0 <= ammoBonus (towers s))%Z.
Proof.
  rewrite ammoBonus_sum. unfold activeTowers.
  induction (towers s) as [|t ts IH]; intros Hok; [cbn; lia|].
  apply Forall_cons in Hok as [Ht Hts]. specialize (IH Hts).
  cbn [List.filter]. destruct (active t); [|exact IH].
  unfold Zsum in *. cbn [map fold_right] in *. unfold ammoOK in Ht. lia.
Qed.

Lemma waveDone_spec (s : State) :
  wellFormed s ->
  waveDone s = true <->
  enemiesSpawned s = enemiesToSpawn s /\
  (forall m : Missile, m ∈ enemyMissiles s -> active m = false) /\
  (forall e : Explosion, e ∈ explosions s -> active e = false).
Proof.
  intros [_ Hbud _ _ He Hx]. unfold waveDone, fieldClear.
  rewrite !andb_true_iff, negb_true_iff, Z.ltb_ge, !Nat.eqb_eq.
  split.
  - intros (Hge & Hem & Hex).
    destruct (enemyMissiles s); [|discriminate].
    destruct (explosions s); [|discriminate].
    split; [lia|]. split; intros ? Hin; inversion Hin.
  - intros (Heq & Hem & Hex). split; [lia|]. split.
    + destruct (enemyMissiles s) as [|m ms]; [reflexivity|].
      apply Forall_cons in He as [Hm _].
      rewrite (Hem m) in Hm by constructor. discriminate.
    + destruct (explosions s) as [|e es]; [reflexivity|].
      apply Forall_cons in Hx as [Hm _].
      rewrite (Hex e) in Hm by constructor. discriminate.
Qed.

Lemma transitions_endGame s :
  ~ In wave_complete (transitions (endGameCalls s)).
Proof.
  destruct (endGameCalls_cases s) as [[-> _]|[[-> _]|[-> _]]]; cbn;
    intuition discriminate.
Qed.

(** C5.  A tick of a session in the playing state fires the transition to
    [wave_complete] exactly when the spawn budget is used up
    ([enemiesSpawned = enemiesToSpawn]) and no enemy missile and no
    explosion is active.  When it fires, the score grows by the sum of
    [ammo * 5] over the active towers, the wave message is set to "+",
    the bonus in decimal digits and " Pts" (for a bonus of 75, "+75 Pts"),
    the end-of-wave timer is started, and the session is in
    [wave_complete] after the tick unless the end-of-game check of the
    same tick overrides it (no tower left, or the score at 1000). *)
Theorem wave_complete_fires_with_ammo_bonus
    (se : Session) (now time : Q) :
  gameState (view se) = playing ->
  wellFormed (game se) ->
  let s := game se in
  let se' := step se (now, AnimationFrame time) in
  let bonus := Zsum (map (fun t : Tower => (ammo t * 5)%Z) (activeTowers s)) in
  (In wave_complete (transitions (calls (host se'))) <->
   enemiesSpawned s = enemiesToSpawn s /\
   (forall m : Missile, m ∈ enemyMissiles s -> active m = false) /\
   (forall e : Explosion, e ∈ explosions s -> active e = false)) /\
  (In wave_complete (transitions (calls (host se'))) ->
   score (game se') = (score s + bonus)%Z /\
   waveMessage (view se') =
     ("+" ++ NilZero.string_of_int (Z.to_int bonus) ++ " Pts")%string /\
   In (SetWaveMessage
         ("+" ++ NilZero.string_of_int (Z.to_int bonus) ++ " Pts")%string)
      (calls (host se')) /\
   In (SetScore (score s + bonus)) (calls (host se')) /\
   timers se' = S (timers se) /\
   (activeTowers s <> [] -> (score s + bonus < WIN_SCORE)%Z ->
    gameState (view se') = wave_complete)).
Proof.
  intros Hplay Hwf s se' bonus.
  destruct (frame_playing_spec se now time Hplay)
    as (Hgame & Htr & Hgs & Hmsg & Htim).
  fold s in Hgame, Htr, Hmsg, Htim. fold se' in Hgame, Htr, Hgs, Hmsg, Htim.
  assert (Hfire : In wave_complete (transitions (calls (host se')))
                  <-> waveDone s = true).
  { rewrite Htr. split.
    - intros Hin. apply in_app_or in Hin as [Hin|Hin].
      + now destruct (waveDone s).
      + exfalso. exact (transitions_endGame _ Hin).
    - intros ->. now left. }
  split; [rewrite Hfire; now apply waveDone_spec|].
  rewrite Hfire. intros Hd.
  destruct (update_playing_spec time s (hostAt now se))
    as (scs & Hcalls & Hscs & Hscore & _ & _ & _ & _ & _ & _ & Hdone).
  cbv zeta in Hcalls, Hscore, Hdone.
  destruct (Hdone Hd) as [Htow Hnone].
  rewrite Hd in *. rewrite Hnone in Hscore.
  rewrite (ammoBonus_sum s) in *. fold bonus in Hscore, Hmsg, Hcalls.
  assert (Hhost : host se' = (update playing time s (hostAt now se)).2).
  { subst se'. unfold step. rewrite Hplay, runHandler_run. reflexivity. }
  split; [rewrite Hgame, Hscore; cbn; lia|].
  split; [exact Hmsg|].
  split.
  { rewrite Hhost, Hcalls. cbn. right. left. unfold waveCompleteCalls.
    rewrite (ammoBonus_sum s). reflexivity. }
  split.
  { rewrite Hhost, Hcalls. cbn. left. unfold waveCompleteCalls.
    rewrite (ammoBonus_sum s). reflexivity. }
  split; [rewrite Htim; lia|].
  intros Hact Hlow. rewrite Hgs, Htr.
  destruct (endGameCalls_cases (game se')) as [[_ H0]|[[_ [_ Hw]]|[-> _]]].
  - exfalso. apply Hact. unfold activeTowers in *.
    rewrite Hgame, Htow in H0. exact H0.
  - exfalso. rewrite Hgame, Hscore in Hw. cbn in Hw. lia.
  - reflexivity.
Qed.

(** ** The order of the checks within a tick *)

(** C2, as amended.  In a tick of the playing state the wave-complete
    check comes first: it is the else-branch of the spawn step and looks at
    the state as the tick finds it, before motion and collisions.  The
    defeat/victory check comes last and looks at the state the tick
    leaves, after motion, collisions and cleanup.  So a tick fires at most
    two transitions, [wave_complete] before [defeat] or [victory], and the
    session ends up in the last one fired. *)
Theorem tick_checks_wave_first_and_end_game_last
    (se : Session) (now time : Q) :
  gameState (view se) = playing ->
  let se' := step se (now, AnimationFrame time) in
  transitions (calls (host se')) =
    (if waveDone (game se) then [wave_complete] else []) ++
    (if (length (activeTowers (game se')) =? 0)%nat then [defeat]
     else if (WIN_SCORE <=? score (game se'))%Z then [victory]
     else []) /\
  gameState (view se') =
    List.last (transitions (calls (host se'))) playing /\
  (length (transitions (calls (host se'))) <= 2)%nat.
Proof.
  intros Hplay se'.
  destruct (frame_playing_spec se now time Hplay)
    as (_ & Htr & Hgs & _).
  fold se' in Htr, Hgs.
  assert (Hend : transitions (endGameCalls (game se')) =
                 (if (length (activeTowers (game se')) =? 0)%nat
                  then [defeat]
                  else if (WIN_SCORE <=? score (game se'))%Z then [victory]
                  else [])).
  { unfold endGameCalls, activeTowers.
    destruct (_ =? 0)%nat; [reflexivity|].
    now destruct (WIN_SCORE <=? score (game se'))%Z. }
  rewrite <- Hend. split; [exact Htr|]. split; [exact Hgs|].
  rewrite Htr, length_app.
  destruct (endGameCalls_cases (game se')) as [[-> _]|[[-> _]|[-> _]]];
    destruct (waveDone (game se)); cbn; lia.
Qed.

(** C2, as stated, fails.  The order it gives (the wave-complete check
    behind motion and collisions) is not the order of the code: when
    the last explosion of a spent wave expires in this tick, [update]
    fires no transition, although the field is clear once motion and
    collisions are done; checking after them would fire
    [wave_complete]. *)
Lemma spec_order_fires_wave_complete_one_tick_early :
  transitions (calls (update playing 1016 lastBlast sampleHost).2) = [] /\
  waveDone (update playing 1016 lastBlast sampleHost).1 = true /\
  transitions
    (calls (update_in_spec_order playing 1016 lastBlast sampleHost).2) =
  [wave_complete].
Proof. vm_compute. repeat split; reflexivity. Qed.

Lemma activeTowers_of_bonus (s : State) :
  (0 < ammoBonus (towers s))%Z -> activeTowers s <> [].
Proof.
  rewrite ammoBonus_sum. intros Hpos Hnil. rewrite Hnil in Hpos.
  cbn in Hpos. lia.
Qed.

(** C10.  When the wave-complete branch is taken in a tick and the ammo
    bonus lifts the score from below 1000 to 1000 or more, the end-of-game
    check of the same tick, which still runs for the playing state, fires
    [victory]: the session is in [victory] right after this tick, with
    the 3000 ms timer still pending; when that timer fires later the
    session stays in [victory]. *)
Theorem bonus_victory_on_the_wave_complete_tick
    (se : Session) (now time : Q) :
  gameState (view se) = playing ->
  waveDone (game se) = true ->
  (score (game se) < WIN_SCORE)%Z ->
  (WIN_SCORE <= score (game se) + ammoBonus (towers (game se)))%Z ->
  let se' := step se (now, AnimationFrame time) in
  transitions (calls (host se')) = [wave_complete; victory] /\
  gameState (view se') = victory /\
  score (game se') = (score (game se) + ammoBonus (towers (game se)))%Z /\
  timers se' = S (timers se) /\
  forall later : Q, gameState (view (step se' (later, TimerFires))) = victory.
Proof.
  intros Hplay Hd Hlow Hwin se'.
  destruct (frame_playing_spec se now time Hplay)
    as (Hgame & Htr & Hgs & _ & Htim).
  fold se' in Hgame, Htr, Hgs, Htim. rewrite Hd in Htr, Htim.
  destruct (update_playing_spec time (game se) (hostAt now se))
    as (scs & _ & _ & Hscore & _ & _ & _ & _ & _ & _ & Hdone).
  cbv zeta in Hscore, Hdone.
  destruct (Hdone Hd) as [Htow Hnone].
  rewrite Hd, Hnone, <- Hgame in Hscore. rewrite <- Hgame in Htow.
  cbn [length Z.of_nat] in Hscore.
  assert (Hact : activeTowers (game se') <> []).
  { unfold activeTowers. rewrite Htow.
    apply activeTowers_of_bonus. lia. }
  assert (Hend : endGameCalls (game se') = [SetGameState victory]).
  { destruct (endGameCalls_cases (game se'))
      as [[_ H0]|[[H _]|[_ [_ H]]]]; [contradiction|exact H|lia]. }
  rewrite Hend in Htr.
  change ([wave_complete] ++ transitions [SetGameState victory])
    with [wave_complete; victory] in Htr.
  rewrite Htr in Hgs. cbn [List.last] in Hgs.
  split; [exact Htr|]. split; [exact Hgs|]. split; [lia|].
  split; [lia|].
  intros later. unfold step. rewrite Htim, Nat.add_1_r.
  rewrite runHandler_run. cbv zeta. cbn [view].
  unfold waveTimeout.
  assert (Hw : (WIN_SCORE <=? score (game se'))%Z = true)
    by (apply Z.leb_le; lia).
  rewrite Hw. reflexivity.
Qed.

(** ** Ammunition and score along a session *)

Lemma step_ammoOK se ev :
  Forall ammoOK (towers (game se)) ->
  Forall ammoOK (towers (game (step se ev))).
Proof.
  intros Hok. destruct ev as [now [time|canvas e| |]]; unfold step.
  - rewrite runHandler_run. cbv zeta. cbn [game].
    assert (Hdec : gameState (view se) = playing \/
                   gameState (view se) <> playing)
      by (destruct (gameState (view se)); (now left) || (right; discriminate)).
    destruct Hdec as [->|Hgs].
    + destruct (update_playing_spec time (game se) (hostAt now se))
        as (scs & _ & _ & _ & Ha & _).
      cbv zeta in Ha. eapply ammoOK_ammoPair; eassumption.
    + now rewrite (update_idle _ time (game se) (hostAt now se) Hgs).
  - rewrite runHandler_run. cbv zeta. cbn [game].
    destruct (handleInput_cases (gameState (view se)) canvas e (game se)
                (hostAt now se))
      as [->|(i & t & target & Hi & Ha & ->)]; [exact Hok|].
    cbn. now apply ammoOK_after_shot.
  - destruct (buttonShown _); [|exact Hok].
    rewrite runHandler_run, initGame_run. cbn.
    apply ammoOK_initialTowers.
  - destruct (timers se); [exact Hok|].
    rewrite runHandler_run. cbv zeta. cbn [game].
    destruct (waveTimeout_cases (game se) (hostAt now se)) as [->| ->];
      [exact Hok|].
    rewrite startNextWave_run. cbn. now apply ammoOK_replenish.
Qed.

Lemma run_ammoOK evs :
  forall se, Forall ammoOK (towers (game se)) ->
             Forall ammoOK (towers (game (run se evs))).
Proof.
  induction evs as [|ev evs IH]; intros se Hok; [exact Hok|].
  cbn. apply IH. now apply step_ammoOK.
Qed.

(** C8.  At every point of every session, each tower has
    [0 <= ammo <= maxAmmo]: this holds at mount and every handler keeps
    it.  A pointer event leaves every tower as it is except at most one,
    which is active, has strictly positive ammo and whose ammo becomes
    [ammo - 1], its other fields staying; starting the next wave sets the
    ammo of every active tower to exactly its [maxAmmo], leaves the ammo
    of the others, and changes no other field of any tower. *)
Theorem tower_ammo_stays_within_bounds :
  (forall (rnd : nat -> Q) (evs : list (Q * Input)),
     Forall (fun t : Tower => (0 <= ammo t <= maxAmmo t)%Z)
            (towers (game (run (mount rnd) evs)))) /\
  (forall (se : Session) (ev : Q * Input),
     Forall (fun t : Tower => (0 <= ammo t <= maxAmmo t)%Z)
            (towers (game se)) ->
     Forall (fun t : Tower => (0 <= ammo t <= maxAmmo t)%Z)
            (towers (game (step se ev)))) /\
  (forall gs canvas e s h,
     let ts' := towers (handleInput gs canvas e s h).1 in
     Forall2 (fun t t' : Tower =>
                t' = t \/
                (active t = true /\ (0 < ammo t)%Z /\
                 ammo t' = (ammo t - 1)%Z /\ maxAmmo t' = maxAmmo t /\
                 tower_base t' = tower_base t /\
                 tower_color t' = tower_color t))
             (towers s) ts' /\
     exists i : nat, forall j : nat, j <> i -> ts' !! j = towers s !! j) /\
  (forall s h,
     Forall2 (fun t t' : Tower =>
                ammo t' = (if active t then maxAmmo t else ammo t) /\
                maxAmmo t' = maxAmmo t /\
                tower_base t' = tower_base t /\
                tower_color t' = tower_color t)
             (towers s) (towers (startNextWave s h).1)).
Proof.
  split; [|split; [|split]].
  - intros rnd evs. apply run_ammoOK. constructor.
  - intros se ev. apply step_ammoOK.
  - intros gs canvas e s h ts'. subst ts'.
    assert (Hrefl : Forall2 (fun t t' : Tower =>
                t' = t \/
                (active t = true /\ (0 < ammo t)%Z /\
                 ammo t' = (ammo t - 1)%Z /\ maxAmmo t' = maxAmmo t /\
                 tower_base t' = tower_base t /\
                 tower_color t' = tower_color t))
             (towers s) (towers s)).
    { apply Forall_Forall2_diag, Forall_forall. intros t _. now left. }
    destruct (handleInput_cases gs canvas e s h)
      as [->|(i & t & target & Hi & Ha & ->)].
    { split; [exact Hrefl|]. exists 0%nat. reflexivity. }
    cbn. split.
    + rewrite <- (list_insert_id (towers s) i t Hi) at 1.
      apply Forall2_insert; [exact Hrefl|].
      right. unfold hasAmmo in Ha. apply andb_true_iff in Ha as [Hact Hpos].
      apply Z.ltb_lt in Hpos. repeat split; assumption.
    + exists i. intros j Hj. apply list_lookup_insert_ne. congruence.
  - intros s h. rewrite startNextWave_run. cbn.
    induction (towers s) as [|t ts IH]; cbn; constructor; [|exact IH].
    unfold replenish. destruct (active t); repeat split; reflexivity.
Qed.

Lemma step_score se now i :
  Forall ammoOK (towers (game se)) ->
  let s := game se in
  let s' := game (step se (now, i)) in
  match i with
  | AnimationFrame time =>
      if GameState_eqb (gameState (view se)) playing then
        score s' =
          (score s + (if waveDone s then ammoBonus (towers s) else 0) +
           20 * Z.of_nat (length (intercepted time s (hostAt now se))))%Z /\
        (0 <= ammoBonus (towers s))%Z
      else score s' = score s
  | Pointer _ _ | TimerFires => score s' = score s
  | ClickStart =>
      score s' = if buttonShown (gameState (view se)) then 0%Z else score s
  end.
Proof.
  intros Hok s s'. subst s s'. destruct i as [time|canvas e| |]; unfold step.
  - rewrite runHandler_run. cbv zeta. cbn [game].
    destruct (gameState (view se)) eqn:Hgs; cbn [GameState_eqb];
      try (rewrite update_idle by discriminate; reflexivity).
    destruct (update_playing_spec time (game se) (hostAt now se))
      as (scs & _ & _ & Hscore & _).
    split; [exact Hscore|now apply ammoBonus_nonneg].
  - rewrite runHandler_run. cbv zeta. cbn [game].
    destruct (handleInput_cases (gameState (view se)) canvas e (game se)
                (hostAt now se))
      as [->|(j & t & target & _ & _ & ->)]; reflexivity.
  - destruct (buttonShown _); [|reflexivity].
    rewrite runHandler_run, initGame_run. reflexivity.
  - destruct (timers se); [reflexivity|].
    rewrite runHandler_run. cbv zeta. cbn [game].
    destruct (waveTimeout_cases (game se) (hostAt now se)) as [->| ->];
      [reflexivity|].
    rewrite startNextWave_run. reflexivity.
Qed.

Lemma step_score_le se ev :
  Forall ammoOK (towers (game se)) ->
  ev.2 <> ClickStart ->
  (score (game se) <= score (game (step se ev)))%Z.
Proof.
  intros Hok Hev. destruct ev as [now i].
  pose proof (step_score se now i Hok) as H. cbv zeta in H.
  destruct i as [time|canvas e| |]; cbn in Hev; try congruence; try lia.
  destruct (GameState_eqb _ _); [|lia].
  destruct H as [-> Hb]. destruct (waveDone (game se)); lia.
Qed.

(** C9.  From a state with tower ammo within bounds (every reachable
    one): a tick in the playing state changes the score by the
    non-negative ammo bonus if the wave-complete branch is taken, plus 20
    for each enemy missile intercepted in the tick; ticks in other states,
    pointer events and the end-of-wave timer leave it alone; only starting
    a session sets it to 0.  Hence over any sequence of events that starts
    no new session the score never decreases. *)
Theorem score_never_decreases_within_a_session (se : Session) :
  Forall (fun t : Tower => (0 <= ammo t <= maxAmmo t)%Z) (towers (game se)) ->
  (forall (now : Q) (i : Input),
     let s := game se in
     let s' := game (step se (now, i)) in
     match i with
     | AnimationFrame time =>
         if GameState_eqb (gameState (view se)) playing then
           score s' =
             (score s + (if waveDone s then ammoBonus (towers s) else 0) +
              20 * Z.of_nat (length (intercepted time s (hostAt now se))))%Z
           /\ (0 <= ammoBonus (towers s))%Z
         else score s' = score s
     | Pointer _ _ | TimerFires => score s' = score s
     | ClickStart =>
         score s' =
         if buttonShown (gameState (view se)) then 0%Z else score s
     end) /\
  (forall evs : list (Q * Input),
     Forall (fun ev => ev.2 <> ClickStart) evs ->
     (score (game se) <= score (game (run se evs)))%Z).
Proof.
  intros Hok. split.
  - intros now i. now apply step_score.
  - intros evs. revert se Hok.
    induction evs as [|ev evs IH]; intros se Hok Hevs; [cbn; lia|].
    apply Forall_cons in Hevs as [Hev Hevs]. cbn [run fold_left].
    etransitivity; [apply (step_score_le se ev Hok Hev)|].
    apply IH; [now apply step_ammoOK|exact Hevs].
Qed.

(** ** Missiles reaching their target *)

(** A player missile whose progress reaches 1 is switched off and exactly
    one explosion, of [maxRadius] 70 and [duration] 1200, is pushed, at its
    target point. *)
Lemma player_missile_detonates_at_target
    (dt : Q) (m : Missile) (s : State) (h : Host) :
  active m = true ->
  1 <= progress m + speed m * dt ->
  let r := stepPlayerMissile dt m s h in
  active r.1.1 = false /\
  exists i,
    r.1.2 =
    push_explosion (newExplosion i (targetX m) (targetY m) 70 1200 "#ffffff")
      s.
Proof.
  intros Hact Hp r. subst r. unfold stepPlayerMissile.
  rewrite Hact. cbn [negb].
  apply Qgeb_le in Hp.
  assert (Hlt : Qltb (progress m + speed m * dt) 1 = false).
  { rewrite Qgeb_Qltb in Hp. now apply negb_true_iff in Hp. }
  rewrite Hlt.
  unfold mbind, Sim_bind, mret, Sim_ret, freshId, Date_now, Math_random.
  unfold mbind, Sim_bind, mret, Sim_ret.
  rewrite Hp. cbn. split; [reflexivity|]. eexists. reflexivity.
Qed.

(** C1, where the code departs from it.  An enemy missile aimed at the
    ground point (120, 560) stands at progress 0.998; a tick of 20 ms takes
    its progress to 1.002.  The missile is removed and one explosion of
    [maxRadius] 40 and [duration] 800 appears, but at (120, 561.12), the
    point 0.2% beyond the target on the missile's line, not at the
    target. *)
Lemma enemy_impact_explosion_overshoots_target :
  let m := fallingMissile 0.998 in
  let s' := (update playing 1020 (underFire 0.998) sampleHost).1 in
  enemyProgress 20 m == 1.002 /\
  enemyMissiles s' = [] /\
  exists e : Explosion,
    explosions s' = [e] /\ maxRadius e = 40 /\ duration e = 800 /\
    x e == 120 /\ y e == 561.12 /\
    targetX m = 120 /\ targetY m = 560 /\ ~ y e == targetY m.
Proof.
  vm_compute. split; [reflexivity|]. split; [reflexivity|].
  eexists. split; [reflexivity|]. cbn.
  repeat split; try reflexivity. intros H; discriminate H.
Qed.

(** With progress exactly 1 the same missile explodes on its target. *)
Example enemy_impact_on_target_at_progress_one :
  let s' := (update playing 1020 (underFire 0.996) sampleHost).1 in
  exists e : Explosion,
    explosions s' = [e] /\ maxRadius e = 40 /\ duration e = 800 /\
    x e == 120 /\ y e == 560.
Proof.
  vm_compute. eexists. split; [reflexivity|]. cbn.
  repeat split; reflexivity.
Qed.

(** C6, where the code departs from it.  The structures are tested
    against the point the missile is moved to in the tick of its impact,
    beyond its target, and not against the target.

    First, a missile aimed at the middle tower, at (400, 570), stands at
    progress 0.98 when a frame comes 500 ms after the previous one: its
    progress becomes 1.08, it is removed and its impact explosion appears
    at (400, 615.6).  The tower, at distance 0 from the target, stays as
    it is, active; every structure is still active and no debris
    explosion appears.

    Second, a missile from (0, 0) aimed at the ground point (128, 560)
    stands at progress 0.998 when a frame comes after 20 ms: its progress
    becomes 1.002 and its impact explosion appears at (128.256, 561.12).
    The first city, at (160, 575), is not within 35 of the target (the
    distance is the root of 1249), yet it is deactivated and a debris
    explosion of [maxRadius] 50 and [duration] 1000 appears at its
    position. *)
Lemma enemy_impact_tests_the_overshoot_point :
  (let m := incoming 400 400 570 0.98 in
   let s := underAttack m in
   let s' := (update playing 1500 s sampleHost).1 in
   enemyProgress 500 m == 1.08 /\
   enemyMissiles s' = [] /\
   (exists t : Tower,
      towers s !! 1%nat = Some t /\ active t = true /\
      x t == targetX m /\ y t == targetY m /\
      (euclid {| px := targetX m; py := targetY m |} (pos t) < Q2R 35)%R /\
      towers s' !! 1%nat = Some t) /\
   map (fun t : Tower => active t) (towers s') = [true; true; true] /\
   map (fun c : City => active c) (cities s') =
     [true; true; true; true; true; true] /\
   exists e : Explosion,
     explosions s' = [e] /\ maxRadius e = 40 /\ duration e = 800 /\
     x e == 400 /\ y e == 615.6) /\
  (let m := incoming 0 128 560 0.998 in
   let s := underAttack m in
   let s' := (update playing 1020 s sampleHost).1 in
   enemyProgress 20 m == 1.002 /\
   enemyMissiles s' = [] /\
   (exists c : City,
      cities s !! 0%nat = Some c /\ active c = true /\
      x c == 160 /\ y c == 575 /\
      ~ (euclid {| px := targetX m; py := targetY m |} (pos c) < Q2R 35)%R) /\
   map (fun c : City => active c) (cities s') =
     [false; true; true; true; true; true] /\
   map (fun t : Tower => active t) (towers s') = [true; true; true] /\
   exists e d : Explosion,
     explosions s' = [e; d] /\
     maxRadius e = 40 /\ duration e = 800 /\
     x e == 128.256 /\ y e == 561.12 /\
     maxRadius d = 50 /\ duration d = 1000 /\ x d == 160 /\ y d == 575).
Proof.
  split; cbv zeta.
  - split; [vm_compute; reflexivity|]. split; [vm_compute; reflexivity|].
    split.
    { exists (mkTower 2 (GAME_WIDTH * 0.5) (GAME_HEIGHT - GROUND_HEIGHT + 10)
                40).
      split; [reflexivity|]. split; [reflexivity|].
      split; [vm_compute; reflexivity|]. split; [vm_compute; reflexivity|].
      split; [|vm_compute; reflexivity].
      apply (inRange_spec {| px := 400; py := 570 |}
               (mkTower 2 (GAME_WIDTH * 0.5)
                  (GAME_HEIGHT - GROUND_HEIGHT + 10) 40)).
      vm_compute. reflexivity. }
    split; [vm_compute; reflexivity|]. split; [vm_compute; reflexivity|].
    vm_compute. eexists. split; [reflexivity|]. cbn.
    repeat split; reflexivity.
  - split; [vm_compute; reflexivity|]. split; [vm_compute; reflexivity|].
    split.
    { exists (mkCity 1 (GAME_WIDTH * 0.2) (GAME_HEIGHT - GROUND_HEIGHT + 15)).
      split; [reflexivity|]. split; [reflexivity|].
      split; [vm_compute; reflexivity|]. split; [vm_compute; reflexivity|].
      intros Hlt.
      assert (Hin : inRange {| px := 128; py := 560 |}
                      (mkCity 1 (GAME_WIDTH * 0.2)
                         (GAME_HEIGHT - GROUND_HEIGHT + 15)) = true).
      { apply inRange_spec. split; [reflexivity|exact Hlt]. }
      vm_compute in Hin. discriminate Hin. }
    split; [vm_compute; reflexivity|]. split; [vm_compute; reflexivity|].
    vm_compute. eexists _, _. split; [reflexivity|]. cbn.
    repeat split; reflexivity.
Qed.

(** ** The theorems at work on concrete sessions *)

(** The scenario of the specification: towers with 20/40/20 rounds, a click
    closest to the middle tower. *)
Example fire_scenario :
  let s' := (handleInput playing (Some canvasRect) (MouseEvent 390 100)
               (game sampleSession) sampleHost).1 in
  map ammo (towers s') = [20; 39; 20]%Z /\
  map (fun m : Missile => (startX m, startY m, targetX m, targetY m, speed m))
      (playerMissiles s') =
  [(GAME_WIDTH * 0.5, GAME_HEIGHT - GROUND_HEIGHT + 10 - 30,
    (390 - 0) * (GAME_WIDTH / 800), (100 - 0) * (GAME_HEIGHT / 600), 0.02)].
Proof. vm_compute. split; reflexivity. Qed.

Lemma handleInput_fires_closest_tower_witness :
  let s := game sampleSession in
  let s' := (handleInput playing (Some canvasRect) (MouseEvent 390 100)
               s sampleHost).1 in
  exists (i : nat) (t t' : Tower) (m : Missile),
    towers s !! i = Some t /\ active t = true /\ (0 < ammo t)%Z /\
    towers s' = <[i := t']> (towers s) /\ ammo t' = (ammo t - 1)%Z /\
    playerMissiles s' = playerMissiles s ++ [m] /\
    speed m = 0.02 /\ startY m = y t - 30 /\
    targetX m == 390 /\ targetY m == 100.
Proof.
  cbv zeta.
  destruct (handleInput_fires_closest_tower canvasRect (MouseEvent 390 100)
              (game sampleSession) sampleHost) as (_ & _ & H).
  destruct (H {| px := (390 - 0) * (GAME_WIDTH / 800);
                 py := (100 - 0) * (GAME_HEIGHT / 600) |} eq_refl)
    as [_ Hfire].
  assert (Hline : (100 - 0) * (GAME_HEIGHT / 600)
                  <= GAME_HEIGHT - GROUND_HEIGHT + 10).
  { vm_compute. intros Hc; discriminate Hc. }
  assert (Hex : Exists (fun t : Tower => active t = true /\ (0 < ammo t)%Z)
                       (towers (game sampleSession))).
  { apply Exists_cons_hd. split; reflexivity. }
  destruct (proj2 (Hfire Hline) Hex)
    as (i & t & t' & m & Hi & Hact & Hpos & _ & Hts & Ha & _ & _ & _ & Hpm
        & _ & Hsp & _ & _ & _ & Hsy & _ & _ & Htx & Hty & _).
  exists i, t, t', m.
  split; [exact Hi|]. split; [exact Hact|]. split; [exact Hpos|].
  split; [exact Hts|]. split; [exact Ha|]. split; [exact Hpm|].
  split; [exact Hsp|]. split; [exact Hsy|].
  split; [rewrite Htx|rewrite Hty]; vm_compute; reflexivity.
Defined.

(** The scenario of the specification: the wave is spent, the towers hold
    5, 10 and 0 rounds. *)
Example wave_bonus_scenario :
  let se' := step (spentWave 200) (2000, AnimationFrame 1016) in
  score (game se') = 275%Z /\ waveMessage (view se') = "+75 Pts"%string /\
  gameState (view se') = wave_complete /\ timers se' = 1%nat.
Proof. vm_compute. repeat split; reflexivity. Qed.

Lemma spentWave_wellFormed points : wellFormed (game (spentWave points)).
Proof.
  constructor.
  - unfold ammoOK. vm_compute.
    repeat (apply List.Forall_cons; [split; intros Hc; discriminate Hc|]).
    apply List.Forall_nil.
  - vm_compute. intros Hc; discriminate Hc.
  - vm_compute. intros Hc; discriminate Hc.
  - vm_compute. apply List.Forall_nil.
  - vm_compute. apply List.Forall_nil.
  - vm_compute. apply List.Forall_nil.
Qed.

Lemma wave_complete_fires_with_ammo_bonus_witness :
  let se' := step (spentWave 200) (2000, AnimationFrame 1016) in
  gameState (view (spentWave 200)) = playing /\
  wellFormed (game (spentWave 200)) /\
  In wave_complete (transitions (calls (host se'))) /\
  score (game se') = 275%Z /\
  waveMessage (view se') = "+75 Pts"%string.
Proof.
  cbv zeta.
  destruct (wave_complete_fires_with_ammo_bonus (spentWave 200) 2000 1016
              eq_refl (spentWave_wellFormed 200)) as [Hiff Hthen].
  assert (Hin : In wave_complete
                  (transitions
                     (calls (host (step (spentWave 200)
                                     (2000, AnimationFrame 1016)))))).
  { apply Hiff. split; [reflexivity|].
    split; intros o Ho; destruct (not_elem_of_nil _ Ho). }
  destruct (Hthen Hin) as (Hs & Hm & _).
  split; [reflexivity|]. split; [apply spentWave_wellFormed|].
  split; [exact Hin|]. split; [exact Hs|exact Hm].
Defined.

Lemma tick_checks_wave_first_and_end_game_last_witness :
  gameState (view (spentWave 200)) = playing /\
  gameState (view (step (spentWave 200) (2000, AnimationFrame 1016))) =
  List.last
    (transitions
       (calls (host (step (spentWave 200) (2000, AnimationFrame 1016)))))
    playing.
Proof.
  split; [reflexivity|].
  exact (proj1 (proj2 (tick_checks_wave_first_and_end_game_last
                         (spentWave 200) 2000 1016 eq_refl))).
Defined.

Lemma bonus_victory_on_the_wave_complete_tick_witness :
  gameState (view (spentWave 950)) = playing /\
  waveDone (game (spentWave 950)) = true /\
  (score (game (spentWave 950)) < WIN_SCORE)%Z /\
  (WIN_SCORE <= score (game (spentWave 950)) +
                ammoBonus (towers (game (spentWave 950))))%Z /\
  gameState (view (step (spentWave 950) (2000, AnimationFrame 1016))) =
  victory.
Proof.
  assert (H1 : (score (game (spentWave 950)) < WIN_SCORE)%Z)
    by (vm_compute; reflexivity).
  assert (H2 : (WIN_SCORE <= score (game (spentWave 950)) +
                ammoBonus (towers (game (spentWave 950))))%Z)
    by (vm_compute; intros Hc; discriminate Hc).
  split; [reflexivity|]. split; [reflexivity|].
  split; [exact H1|]. split; [exact H2|].
  exact (proj1 (proj2 (bonus_victory_on_the_wave_complete_tick
                         (spentWave 950) 2000 1016 eq_refl eq_refl H1 H2))).
Defined.

(** The scenario of the specification: an enemy missile reaches progress 1
    at (100, 560) with a city at distance 20.  The city is gone, a debris
    explosion stands at its position and the impact explosion at
    (100, 560).  The tower at (80, 570) is within 35 as well: one impact,
    two structures. *)
Example impact_scenario :
  let m := {| missile_base := {| id := 9; x := 100; y := 557.76;
                                 active := true |};
              startX := 100; startY := 0; targetX := 100; targetY := 560;
              speed := 0.04; progress := 0.996; missile_color := "#ef4444";
              trail := [] |} in
  let s := set_cities [mkCity 1 100 580] (game sampleSession) in
  let r := stepEnemyMissile 20 m s sampleHost in
  map (fun c : City => active c) (cities r.1.2) = [false] /\
  map (fun t : Tower => active t) (towers r.1.2) = [false; true; true] /\
  map (fun e : Explosion => (Qred (x e), Qred (y e), maxRadius e, duration e))
      (explosions r.1.2) =
  [(100, 560, 40, 800); (100, 580, 50, 1000); (80, 570, 50, 1000)].
Proof. vm_compute. repeat split; reflexivity. Qed.

Lemma enemy_impact_wrecks_structures_near_the_point_reached_witness :
  let m := incoming 0 128 560 0.998 in
  let s := game sampleSession in
  let s' := (stepEnemyMissile 20 m s sampleHost).1.2 in
  active m = true /\ 1 <= enemyProgress 20 m /\
  exists c c' : City,
    cities s !! 0%nat = Some c /\ cities s' !! 0%nat = Some c' /\
    active c = true /\ active c' = false /\ x c' = x c /\ y c' = y c.
Proof.
  cbv zeta.
  assert (Hp : 1 <= enemyProgress 20 (incoming 0 128 560 0.998)).
  { vm_compute. intros Hc; discriminate Hc. }
  split; [reflexivity|]. split; [exact Hp|].
  destruct (enemy_impact_wrecks_structures_near_the_point_reached 20
              (incoming 0 128 560 0.998) (game sampleSession) sampleHost
              eq_refl Hp) as (_ & _ & _ & _ & _ & Hc & _).
  destruct (Forall2_lookup_l _ _ _ 0%nat
              (mkCity 1 (GAME_WIDTH * 0.2) (GAME_HEIGHT - GROUND_HEIGHT + 15))
              Hc eq_refl) as (c' & Hc' & Hact & _ & Hx & Hy & _).
  exists (mkCity 1 (GAME_WIDTH * 0.2) (GAME_HEIGHT - GROUND_HEIGHT + 15)), c'.
  split; [reflexivity|]. split; [exact Hc'|]. split; [reflexivity|].
  split; [rewrite Hact; vm_compute; reflexivity|].
  split; [exact Hx|exact Hy].
Defined.

Lemma explosion_follows_triangular_envelope_witness :
  let e := newExplosion 1 100 100 70 1200 "#ffffff" in
  active e = true /\ 0 < duration e /\ 0 <= maxRadius e /\
  age (aged 16 e) = age e + 16 /\
  blastRadius e (duration e / 2) == maxRadius e.
Proof.
  cbv zeta.
  assert (Hd : 0 < duration (newExplosion 1 100 100 70 1200 "#ffffff"))
    by reflexivity.
  assert (Hm : 0 <= maxRadius (newExplosion 1 100 100 70 1200 "#ffffff")).
  { vm_compute. intros Hc; discriminate Hc. }
  split; [reflexivity|]. split; [exact Hd|]. split; [exact Hm|].
  pose proof (proj2 (explosion_follows_triangular_envelope 16
                       (game sampleSession) sampleHost)
                (newExplosion 1 100 100 70 1200 "#ffffff") eq_refl Hd Hm)
    as H.
  cbv zeta in H. split; [exact (proj1 H)|].
  exact (proj1 (proj2 (proj2 (proj2 (proj2 (proj2 (proj2 (proj2 H)))))))).
Defined.

Lemma tower_ammo_stays_within_bounds_witness :
  Forall (fun t : Tower => (0 <= ammo t <= maxAmmo t)%Z)
         (towers (game sampleSession)) /\
  Forall (fun t : Tower => (0 <= ammo t <= maxAmmo t)%Z)
         (towers (game (step sampleSession
                          (1003, Pointer (Some canvasRect)
                                   (MouseEvent 390 100))))) /\
  Forall2 (fun t t' : Tower =>
             ammo t' = (if active t then maxAmmo t else ammo t) /\
             maxAmmo t' = maxAmmo t /\
             tower_base t' = tower_base t /\
             tower_color t' = tower_color t)
          (towers (game (spentWave 200)))
          (towers (startNextWave (game (spentWave 200)) sampleHost).1).
Proof.
  assert (H0 : Forall (fun t : Tower => (0 <= ammo t <= maxAmmo t)%Z)
                      (towers (game sampleSession))).
  { exact ammoOK_initialTowers. }
  split; [exact H0|]. split.
  - exact (proj1 (proj2 tower_ammo_stays_within_bounds) sampleSession
             (1003, Pointer (Some canvasRect) (MouseEvent 390 100)) H0).
  - exact (proj2 (proj2 (proj2 tower_ammo_stays_within_bounds))
             (game (spentWave 200)) sampleHost).
Defined.

(** The towers of the 5/10/0 scenario after [startNextWave]: full
    again. *)
Example replenish_scenario :
  map (fun t : Tower => (ammo t, maxAmmo t))
      (towers (startNextWave (game (spentWave 200)) sampleHost).1) =
  [(20, 20); (40, 40); (20, 20)]%Z.
Proof. vm_compute. reflexivity. Qed.

Lemma score_never_decreases_within_a_session_witness :
  Forall (fun t : Tower => (0 <= ammo t <= maxAmmo t)%Z)
         (towers (game (spentWave 200))) /\
  Z.le (score (game (spentWave 200)))
       (score (game (run (spentWave 200)
                       [(2000, AnimationFrame 1016); (5000, TimerFires);
                        (5016, AnimationFrame 4016)]))).
Proof.
  assert (H0 : Forall (fun t : Tower => (0 <= ammo t <= maxAmmo t)%Z)
                      (towers (game (spentWave 200)))).
  { exact (wf_ammo _ (spentWave_wellFormed 200)). }
  split; [exact H0|].
  apply (proj2 (score_never_decreases_within_a_session (spentWave 200) H0)).
  repeat constructor; discriminate.
Defined.

(** ** More on the tick: the exact shape of each step *)

Lemma update_phases time s h :
  update playing time s h =
  let dt := dtOf time s in
  let r1 := spawnEnemies dt (set_lastTime time s) h in
  let r2 := updatePlayerMissiles dt r1.1 r1.2 in
  let r3 := updateEnemyMissiles dt r2.1 r2.2 in
  let r4 := updateExplosions dt r3.1 r3.2 in
  (cleanup r4.1,
   logged (endGameCalls (cleanup r4.1) ++ [Draw; RequestAnimationFrame])
     r4.2).
Proof.
  rewrite update_playing_run. unfold motion, mbind, Sim_bind. cbv zeta.
  destruct (spawnEnemies _ _ h) as [s1 h1]. cbn [fst snd].
  destruct (updatePlayerMissiles _ s1 h1) as [s2 h2]. reflexivity.
Qed.

Lemma pushTrail_within (cap : nat) (p : Point) (tr : list Point) :
  (length tr <= cap)%nat -> (length (pushTrail cap p tr) <= cap)%nat.
Proof.
  intros Hlen. unfold pushTrail.
  destruct (cap <? length (tr ++ [p]))%nat eqn:Hc.
  - destruct tr as [|q tr]; cbn in *; [lia|].
    rewrite length_app. cbn. lia.
  - apply Nat.ltb_ge in Hc. exact Hc.
Qed.

Lemma stepPlayerMissile_stepped dt m s h :
  playerStepped dt m (stepPlayerMissile dt m s h).1.1.
Proof.
  unfold playerStepped, stepPlayerMissile.
  destruct (active m) eqn:Hact; cbn [negb]; [|reflexivity].
  unfold mbind, Sim_bind, mret, Sim_ret, Math_random, freshId, Date_now.
  unfold mbind, Sim_bind, mret, Sim_ret, Math_random.
  rewrite Qgeb_Qltb.
  destruct (Qltb (progress m + speed m * dt) 1) eqn:Hlt; cbn [negb].
  - cbn. rewrite Hlt. repeat split; try reflexivity; try exact Hact.
    unfold trailWithin. cbn. intros Hlen.
    destruct (Qgtb _ 0.5); [now apply pushTrail_within|exact Hlen].
  - cbn. rewrite Hlt. repeat split; reflexivity || tauto.
Qed.

Lemma stepEnemyMissile_stepped dt m s h :
  enemyStepped dt m (stepEnemyMissile dt m s h).1.1.
Proof.
  unfold enemyStepped.
  destruct (active m) eqn:Hact.
  - rewrite (stepEnemyMissile_run dt m s h Hact). cbv zeta.
    fold (enemyProgress dt m).
    rewrite Qgeb_Qltb.
    destruct (Qltb (enemyProgress dt m) 1) eqn:Hlt; cbn [negb fst snd].
    + cbn. rewrite Hlt.
      repeat split; try reflexivity; try exact Hact.
      unfold trailWithin. cbn. intros Hlen.
      destruct (Qgtb _ 0.7); [now apply pushTrail_within|exact Hlen].
    + cbn. rewrite Hlt.
      repeat split; try reflexivity.
      unfold trailWithin. cbn. intros Hlen.
      destruct (Qgtb _ 0.7); [now apply pushTrail_within|exact Hlen].
  - unfold stepEnemyMissile. now rewrite Hact.
Qed.

(** Step 2 replaces the player missiles and appends explosions; nothing
    else. *)
Lemma updatePlayerMissiles_shape dt s h :
  exists pm new,
    (updatePlayerMissiles dt s h).1 =
      set_playerMissiles pm (set_explosions (explosions s ++ new) s) /\
    Forall2 (playerStepped dt) (playerMissiles s) pm /\
    Forall (fun e : Explosion =>
              active e = true /\ age e = 0 /\ radius e = 0 /\
              maxRadius e = 70 /\ duration e = 1200) new /\
    calls (updatePlayerMissiles dt s h).2 = calls h.
Proof.
  rewrite updatePlayerMissiles_run. cbv zeta. cbn [fst snd].
  pose proof (forEach_Forall2 (stepPlayerMissile dt) (playerStepped dt)
                (stepPlayerMissile_stepped dt) (playerMissiles s) s h) as Hpm.
  assert (Hinv :
    (fun s' h' =>
       (exists new, s' = set_explosions (explosions s ++ new) s /\
          Forall (fun e : Explosion =>
              active e = true /\ age e = 0 /\ radius e = 0 /\
              maxRadius e = 70 /\ duration e = 1200) new) /\
       calls h' = calls h)
      (forEach (stepPlayerMissile dt) (playerMissiles s) s h).1.2
      (forEach (stepPlayerMissile dt) (playerMissiles s) s h).2).
  { apply forEach_invariant.
    - intros m s1 h1 [(new & -> & Hnew) Hc].
      unfold stepPlayerMissile.
      destruct (negb (active m)); [split; [now exists new|exact Hc]|].
      unfold mbind, Sim_bind, mret, Sim_ret, Math_random, freshId, Date_now.
      unfold mbind, Sim_bind, mret, Sim_ret, Math_random.
      destruct (Qltb (progress m + speed m * dt) 1);
        destruct (Qgeb (progress m + speed m * dt) 1); cbn [fst snd calls];
        (split; [|exact Hc]); try (now exists new);
        eexists (new ++ [_]); (split;
          [unfold push_explosion; cbn; now rewrite <- app_assoc|
           apply Forall_app; split; [exact Hnew|repeat constructor]]).
    - split; [|reflexivity]. exists []. rewrite app_nil_r.
      split; [now rewrite set_explosions_same|constructor]. }
  cbv beta in Hinv. destruct Hinv as [(new & Hs & Hnew) Hc].
  exists (forEach (stepPlayerMissile dt) (playerMissiles s) s h).1.1, new.
  rewrite Hs. repeat split; assumption.
Qed.

Lemma Forall2_map_right {A B} (R : A -> B -> Prop) (f : B -> B)
    (l : list A) (k : list B) :
  (forall a b, R a b -> R a (f b)) ->
  Forall2 R l k -> Forall2 R l (map f k).
Proof.
  intros Hf H. induction H; cbn; constructor; auto.
Qed.

Lemma decays_refl o : decays o o.
Proof. repeat split. tauto. Qed.

Lemma towersDecay_refl ts : towersDecay ts ts.
Proof.
  apply Forall_Forall2_diag, Forall_forall. intros t _.
  repeat split. tauto.
Qed.

Lemma citiesDecay_refl cs : citiesDecay cs cs.
Proof.
  apply Forall_Forall2_diag, Forall_forall. intros t _.
  repeat split. tauto.
Qed.

Lemma towersDecay_wrecked m ts ts' :
  towersDecay ts ts' ->
  towersDecay ts (map (wrecked tower_base tower_with_base m) ts').
Proof.
  apply Forall2_map_right. intros t t' ((Hi & Hx & Hy & Ha) & Hr).
  unfold wrecked. destruct (inRange m t'); [|repeat split; tauto].
  cbn. repeat split; try tauto. discriminate.
Qed.

Lemma citiesDecay_wrecked m cs cs' :
  citiesDecay cs cs' ->
  citiesDecay cs (map (wrecked city_base city_with_base m) cs').
Proof.
  apply Forall2_map_right. intros c c' ((Hi & Hx & Hy & Ha) & Hr).
  unfold wrecked. destruct (inRange m c'); [|repeat split; tauto].
  cbn. repeat split; try tauto. discriminate.
Qed.

(** Step 3 replaces the enemy missiles, switches structures off and
    appends explosions; nothing else. *)
Lemma updateEnemyMissiles_shape dt s h :
  exists em cs ts new,
    (updateEnemyMissiles dt s h).1 =
      set_enemyMissiles em
        (set_towers ts
           (set_cities cs (set_explosions (explosions s ++ new) s))) /\
    Forall2 (enemyStepped dt) (enemyMissiles s) em /\
    citiesDecay (cities s) cs /\ towersDecay (towers s) ts /\
    calls (updateEnemyMissiles dt s h).2 = calls h.
Proof.
  rewrite updateEnemyMissiles_run. cbv zeta. cbn [fst snd].
  pose proof (forEach_Forall2 (stepEnemyMissile dt) (enemyStepped dt)
                (stepEnemyMissile_stepped dt) (enemyMissiles s) s h) as Hem.
  assert (Hinv :
    (fun s' h' =>
       (exists cs ts new,
          s' = set_towers ts
                 (set_cities cs (set_explosions (explosions s ++ new) s)) /\
          citiesDecay (cities s) cs /\ towersDecay (towers s) ts) /\
       calls h' = calls h)
      (forEach (stepEnemyMissile dt) (enemyMissiles s) s h).1.2
      (forEach (stepEnemyMissile dt) (enemyMissiles s) s h).2).
  { apply forEach_invariant.
    - intros m s1 h1 [(cs & ts & new & -> & Hcs & Hts) Hc].
      destruct (active m) eqn:Hact.
      + rewrite (stepEnemyMissile_run dt m _ h1 Hact). cbv zeta.
        destruct (Qgeb (enemyProgress dt m) 1); cbn [fst snd].
        * match goal with
          | |- context [wreckStructures ?p ?s2 ?h2] =>
              destruct (wreckStructures_spec p s2 h2)
                as (dc & dt' & Hrun & _ & _ & Hca)
          end.
          rewrite Hrun, Hca. split; [|exact Hc].
          eexists _, _, (new ++ [_] ++ dc ++ dt').
          split; [|split].
          -- cbn. rewrite <- !app_assoc. reflexivity.
          -- cbn. now apply citiesDecay_wrecked.
          -- cbn. now apply towersDecay_wrecked.
        * split; [|exact Hc]. now exists cs, ts, new.
      + unfold stepEnemyMissile. rewrite Hact. cbn.
        split; [|exact Hc]. now exists cs, ts, new.
    - split; [|reflexivity].
      exists (cities s), (towers s), []. rewrite app_nil_r.
      split; [now destruct s|].
      split; [apply citiesDecay_refl|apply towersDecay_refl]. }
  cbv beta in Hinv. destruct Hinv as [(cs & ts & new & Hs & Hcs & Hts) Hc].
  exists (forEach (stepEnemyMissile dt) (enemyMissiles s) s h).1.1, cs, ts, new.
  rewrite Hs. repeat split; assumption.
Qed.

(** Step 1, field by field. *)
Lemma spawnEnemies_shape dt s h :
  let r := spawnEnemies dt s h in
  exists new,
    (length new <= 1)%nat /\ Forall justSpawned new /\
    enemyMissiles r.1 = enemyMissiles s ++ new /\
    enemiesSpawned r.1 = (enemiesSpawned s + Z.of_nat (length new))%Z /\
    (new <> [] ->
     (enemiesSpawned s < enemiesToSpawn s)%Z /\
     spawnInterval s < spawnTimer s + dt /\ spawnTimer r.1 = 0) /\
    (new = [] ->
     spawnTimer r.1 =
     if (enemiesSpawned s <? enemiesToSpawn s)%Z then spawnTimer s + dt
     else spawnTimer s) /\
    ((enemiesSpawned s < enemiesToSpawn s)%Z ->
     spawnInterval s < spawnTimer s + dt -> new <> []) /\
    lastTime r.1 = lastTime s /\ spawnInterval r.1 = spawnInterval s /\
    towers r.1 = towers s /\ cities r.1 = cities s /\
    playerMissiles r.1 = playerMissiles s /\
    explosions r.1 = explosions s /\ wave r.1 = wave s /\
    enemiesToSpawn r.1 = enemiesToSpawn s /\
    enemySpeedMultiplier r.1 = enemySpeedMultiplier s.
Proof.
  intros r. subst r. unfold spawnEnemies.
  destruct (enemiesSpawned s <? enemiesToSpawn s)%Z eqn:Hlt.
  - apply Z.ltb_lt in Hlt.
    cbn [spawnTimer spawnInterval set_spawnTimer].
    destruct (Qgtb (spawnTimer s + dt) (spawnInterval s)) eqn:Hgt.
    + apply Qltb_lt in Hgt.
      unfold spawnEnemy, mbind, Sim_bind, mret, Sim_ret, Math_random,
        freshId, Date_now.
      unfold mbind, Sim_bind, mret, Sim_ret, Math_random.
      cbn [random drawn dateNow calls].
      destruct (0 <? length _)%nat;
        [destruct (Qltb _ 0.7); [destruct (_ !! _)|]|];
        cbn;
        match goal with
        | |- context [enemyMissiles s ++ [?m] = _] => exists [m]
        end; cbn;
        (split; [lia|]);
        (split; [constructor; [repeat split|constructor]|]);
        (split; [reflexivity|]); (split; [lia|]);
        (split; [intros _; repeat split; assumption|]);
        (split; [intros Hn; discriminate Hn|]);
        (split; [intros _ _ Hn; discriminate Hn|]);
        repeat split; reflexivity.
    + apply Qltb_ge in Hgt. exists []. cbn. rewrite app_nil_r.
      split; [lia|]. split; [constructor|]. split; [reflexivity|].
      split; [lia|]. split; [congruence|]. split; [reflexivity|].
      split; [intros _ Hc; exfalso; lra|]. repeat split; reflexivity.
  - apply Z.ltb_ge in Hlt. exists [].
    destruct (fieldClear s); [rewrite waveComplete_run|]; cbn;
      rewrite app_nil_r;
      (split; [lia|]); (split; [constructor|]); (split; [reflexivity|]);
      (split; [lia|]); (split; [congruence|]); (split; [reflexivity|]);
      (split; [intros Hc; exfalso; lia|]); repeat split; reflexivity.
Qed.

(** One tick of the playing state, entity by entity. *)
Lemma tick_shape time s h :
  let dt := dtOf time s in
  let r := update playing time s h in
  exists new pm em em4,
    (length new <= 1)%nat /\ Forall justSpawned new /\
    Forall2 (playerStepped dt) (playerMissiles s) pm /\
    playerMissiles r.1 = List.filter (fun m : Missile => active m) pm /\
    Forall2 (enemyStepped dt) (enemyMissiles s ++ new) em /\
    Forall2 (fun m m' : Missile => m' = m \/ m' = destroyed m) em em4 /\
    enemyMissiles r.1 = List.filter (fun m : Missile => active m) em4 /\
    citiesDecay (cities s) (cities r.1) /\
    towersDecay (towers s) (towers r.1) /\
    lastTime r.1 = time /\
    spawnInterval r.1 = spawnInterval s /\
    wave r.1 = wave s /\
    enemiesToSpawn r.1 = enemiesToSpawn s /\
    enemySpeedMultiplier r.1 = enemySpeedMultiplier s /\
    enemiesSpawned r.1 = (enemiesSpawned s + Z.of_nat (length new))%Z.
Proof.
  intros dt r. subst r. rewrite update_phases. cbv zeta. fold dt.
  destruct (spawnEnemies_shape dt (set_lastTime time s) h)
    as (new & Hlen & Hnew & E1 & N1 & _ & _ & _ & L1 & I1 & T1 & C1 & P1
        & X1 & W1 & B1 & M1).
  cbn [lastTime spawnInterval towers cities playerMissiles explosions wave
       enemiesToSpawn enemySpeedMultiplier enemyMissiles enemiesSpawned
       set_lastTime] in *.
  destruct (spawnEnemies dt (set_lastTime time s) h) as [s1 h1].
  cbn [fst snd] in *.
  destruct (updatePlayerMissiles_shape dt s1 h1)
    as (pm & new2 & Hs2 & Hpm & _ & _).
  destruct (updatePlayerMissiles dt s1 h1) as [s2 h2]. cbn [fst snd] in *.
  destruct (updateEnemyMissiles_shape dt s2 h2)
    as (em & cs & ts & new3 & Hs3 & Hem & Hcs & Hts & _).
  destruct (updateEnemyMissiles dt s2 h2) as [s3 h3]. cbn [fst snd] in *.
  destruct (updateExplosions_spec dt s3 h3)
    as (new4 & scs & hit & Hs4 & _).
  destruct (updateExplosions dt s3 h3) as [s4 h4]. cbn [fst snd] in *.
  injection Hs4 as Hs4.
  subst s4 s3 s2. cbn in *.
  exists new, pm, em,
    (map (fun m => if doomed dt
                        ((explosions s1 ++ new2) ++ new3) m
                   then destroyed m else m) em).
  rewrite P1 in Hpm. rewrite E1 in Hem. rewrite C1 in Hcs. rewrite T1 in Hts.
  repeat split; try assumption; try congruence.
  clear. induction em as [|m em IH]; cbn; constructor; [|exact IH].
  destruct (doomed _ _ m); [now right|now left].
Qed.

Lemma tick_spawn_fields time s h :
  let r1 := spawnEnemies (dtOf time s) (set_lastTime time s) h in
  let r := update playing time s h in
  spawnTimer r.1 = spawnTimer r1.1 /\
  enemiesSpawned r.1 = enemiesSpawned r1.1 /\
  enemiesToSpawn r.1 = enemiesToSpawn r1.1.
Proof.
  cbv zeta. rewrite update_phases. cbv zeta.
  destruct (spawnEnemies _ _ h) as [s1 h1]. cbn [fst snd].
  destruct (updatePlayerMissiles_shape (dtOf time s) s1 h1)
    as (pm & new2 & Hs2 & _).
  destruct (updatePlayerMissiles _ s1 h1) as [s2 h2]. cbn [fst snd] in *.
  destruct (updateEnemyMissiles_shape (dtOf time s) s2 h2)
    as (em & cs & ts & new3 & Hs3 & _).
  destruct (updateEnemyMissiles _ s2 h2) as [s3 h3]. cbn [fst snd] in *.
  destruct (updateExplosions_spec (dtOf time s) s3 h3)
    as (new4 & scs & hit & Hs4 & _).
  destruct (updateExplosions _ s3 h3) as [s4 h4]. cbn [fst snd] in *.
  injection Hs4 as Hs4. subst s4 s3 s2. cbn. repeat split.
Qed.

(** While the budget lasts and the timer stays within the interval, a
    tick adds its time step to the spawn timer. *)
Lemma tick_spawnTimer time s h :
  (enemiesSpawned s < enemiesToSpawn s)%Z ->
  spawnTimer s + dtOf time s <= spawnInterval s ->
  spawnTimer (update playing time s h).1 = spawnTimer s + dtOf time s.
Proof.
  intros Hb Hle.
  destruct (tick_spawn_fields time s h) as (-> & _).
  destruct (spawnEnemies_shape (dtOf time s) (set_lastTime time s) h)
    as (new & _ & _ & _ & _ & Hsome & Hnone & _).
  cbn [enemiesSpawned enemiesToSpawn spawnTimer spawnInterval set_lastTime]
    in *.
  destruct new as [|m new].
  - rewrite (Hnone eq_refl). apply Z.ltb_lt in Hb. now rewrite Hb.
  - destruct Hsome as (_ & Hgt & _); [discriminate|]. exfalso. lra.
Qed.

(** ** Missiles in flight *)

Lemma playerStepped_onCourse dt m m' :
  playerStepped dt m m' -> active m' = true -> onCourse m'.
Proof.
  unfold playerStepped, onCourse. destruct (active m) eqn:Hact.
  - intros (H1 & H2 & H3 & H4 & _ & _ & _ & H) Ha.
    destruct (Qltb (progress m') 1) eqn:Hlt.
    + apply Qltb_lt in Hlt. destruct H as (_ & Hx & Hy).
      rewrite H1, H2, H3, H4, Hx, Hy. split; [exact Hlt|split; reflexivity].
    + destruct H as [H _]. congruence.
  - intros -> Ha. congruence.
Qed.

Lemma enemyStepped_onCourse dt m m' :
  enemyStepped dt m m' -> active m' = true -> onCourse m'.
Proof.
  unfold enemyStepped, onCourse. destruct (active m) eqn:Hact.
  - intros (H1 & H2 & H3 & H4 & _ & _ & _ & Hx & Hy & H) Ha.
    rewrite Ha in H. symmetry in H. apply Qltb_lt in H.
    rewrite H1, H2, H3, H4, Hx, Hy. split; [exact H|split; reflexivity].
  - intros -> Ha. congruence.
Qed.

Lemma playerStepped_trail dt m m' :
  playerStepped dt m m' -> trailWithin 10 m -> trailWithin 10 m'.
Proof.
  unfold playerStepped. destruct (active m).
  - intros (_ & _ & _ & _ & _ & _ & H & _). exact H.
  - now intros ->.
Qed.

Lemma enemyStepped_trail dt m m' :
  enemyStepped dt m m' -> trailWithin 5 m -> trailWithin 5 m'.
Proof.
  unfold enemyStepped. destruct (active m).
  - intros (_ & _ & _ & _ & _ & _ & H & _). exact H.
  - now intros ->.
Qed.

Lemma Forall_filter_active {A} (act : A -> bool) (P : A -> Prop)
    (l : list A) :
  Forall (fun a => act a = true -> P a) l -> Forall P (List.filter act l).
Proof.
  induction l as [|a l IH]; intros H; cbn; [constructor|].
  apply Forall_cons in H as [Ha Hl].
  destruct (act a) eqn:E; [constructor; auto|auto].
Qed.

Lemma Forall2_Forall_r {A B} (R : A -> B -> Prop) (P : A -> Prop)
    (Q' : B -> Prop) (l : list A) (k : list B) :
  (forall a b, R a b -> P a -> Q' b) ->
  Forall2 R l k -> Forall P l -> Forall Q' k.
Proof.
  intros HR H. induction H; intros HP; [constructor|].
  apply Forall_cons in HP as [Ha Hl]. constructor; eauto.
Qed.

Lemma justSpawned_trail m : justSpawned m -> trailWithin 5 m.
Proof. intros (_ & _ & Ht & _). unfold trailWithin. rewrite Ht. cbn. lia. Qed.

(** After a tick of the playing state every missile left in the lists is
    on course, whatever the state before. *)
Lemma tick_onCourse time s h :
  Forall onCourse (playerMissiles (update playing time s h).1) /\
  Forall onCourse (enemyMissiles (update playing time s h).1).
Proof.
  destruct (tick_shape time s h)
    as (new & pm & em & em4 & _ & _ & Hpm & -> & Hem & Hem4 & -> & _).
  split.
  - apply Forall_filter_active.
    eapply (Forall2_Forall_r _ (fun _ => True)); [|exact Hpm|].
    + intros m m' Hst _. exact (playerStepped_onCourse _ m m' Hst).
    + apply Forall_forall. tauto.
  - apply Forall_filter_active.
    assert (Hmid : Forall (fun m : Missile => active m = true -> onCourse m) em).
    { eapply (Forall2_Forall_r _ (fun _ => True)); [|exact Hem|].
      - intros m m' Hst _. exact (enemyStepped_onCourse _ m m' Hst).
      - apply Forall_forall. tauto. }
    eapply Forall2_Forall_r; [|exact Hem4|exact Hmid].
    intros m m' [->| ->] H; [exact H|]. cbn. discriminate.
Qed.

Lemma tick_trails time s h :
  Forall (trailWithin 10) (playerMissiles s) ->
  Forall (trailWithin 5) (enemyMissiles s) ->
  Forall (trailWithin 10) (playerMissiles (update playing time s h).1) /\
  Forall (trailWithin 5) (enemyMissiles (update playing time s h).1).
Proof.
  intros Hp He.
  destruct (tick_shape time s h)
    as (new & pm & em & em4 & _ & Hnew & Hpm & -> & Hem & Hem4 & -> & _).
  split.
  - apply Forall_filter_active.
    eapply Forall2_Forall_r; [|exact Hpm|exact Hp].
    intros m m' Hst Hm _. exact (playerStepped_trail _ m m' Hst Hm).
  - apply Forall_filter_active.
    assert (Hall : Forall (trailWithin 5) (enemyMissiles s ++ new)).
    { apply Forall_app. split; [exact He|].
      eapply Forall_impl; [exact Hnew|]. apply justSpawned_trail. }
    assert (Hmid : Forall (trailWithin 5) em).
    { eapply Forall2_Forall_r; [|exact Hem|exact Hall].
      intros m m' Hst Hm. exact (enemyStepped_trail _ m m' Hst Hm). }
    eapply Forall2_Forall_r; [|exact Hem4|exact Hmid].
    intros m m' [->| ->] H _; exact H.
Qed.

Lemma playerMissile_onCourse now t target :
  onCourse (playerMissile now t target).
Proof.
  unfold onCourse, playerMissile, lerp. cbn.
  split; [reflexivity|]. split; ring.
Qed.

Lemma step_inFlight se ev :
  inFlight (game se) -> inFlight (game (step se ev)).
Proof.
  intros [Hp He Htp Hte].
  destruct ev as [now [time|canvas e| |]]; unfold step.
  - rewrite runHandler_run. cbv zeta. cbn [game].
    assert (Hdec : gameState (view se) = playing \/
                   gameState (view se) <> playing)
      by (destruct (gameState (view se)); (now left) || (right; discriminate)).
    destruct Hdec as [->|Hgs].
    + destruct (tick_onCourse time (game se) (hostAt now se)).
      destruct (tick_trails time (game se) (hostAt now se) Htp Hte).
      now constructor.
    + rewrite (update_idle _ time (game se) (hostAt now se) Hgs).
      now constructor.
  - rewrite runHandler_run. cbv zeta. cbn [game].
    destruct (handleInput_cases (gameState (view se)) canvas e (game se)
                (hostAt now se))
      as [->|(i & t & target & Hi & Ha & ->)]; [now constructor|].
    constructor; cbn; try assumption.
    + apply Forall_app. split; [exact Hp|].
      constructor; [apply playerMissile_onCourse|constructor].
    + apply Forall_app. split; [exact Htp|].
      constructor; [unfold trailWithin; cbn; lia|constructor].
  - destruct (buttonShown _); [|now constructor].
    rewrite runHandler_run, initGame_run. constructor; cbn; constructor.
  - destruct (timers se); [now constructor|].
    rewrite runHandler_run. cbv zeta. cbn [game].
    destruct (waveTimeout_cases (game se) (hostAt now se)) as [->| ->];
      [now constructor|].
    rewrite startNextWave_run. constructor; cbn; constructor.
Qed.

(** X1.  At every point of every session, each missile in the lists is
    short of its target ([progress < 1]) and sits on the straight line
    from its start to its target at the fraction [progress]; after a tick
    of the playing state this holds whatever the state before. *)
Theorem missiles_fly_on_a_straight_line :
  (forall (rnd : nat -> Q) (evs : list (Q * Input)),
     let s := game (run (mount rnd) evs) in
     Forall onCourse (playerMissiles s) /\ Forall onCourse (enemyMissiles s)) /\
  (forall (time : Q) (s : State) (h : Host),
     let s' := (update playing time s h).1 in
     Forall onCourse (playerMissiles s') /\ Forall onCourse (enemyMissiles s')).
Proof.
  split.
  - intros rnd evs.
    assert (H : forall se, inFlight (game se) ->
                           inFlight (game (run se evs))).
    { induction evs as [|ev evs IH]; intros se H0; [exact H0|].
      cbn. apply IH. now apply step_inFlight. }
    destruct (H (mount rnd)) as [Hp He _ _];
      [constructor; cbn; constructor|].
    now split.
  - intros time s h. apply tick_onCourse.
Qed.

(** X2.  The trail buffers are bounded: at every point of every session a
    player missile's trail holds at most 10 points and an enemy missile's
    at most 5, and every handler keeps these bounds. *)
Theorem trails_stay_bounded :
  (forall (rnd : nat -> Q) (evs : list (Q * Input)),
     let s := game (run (mount rnd) evs) in
     Forall (fun m : Missile => (length (trail m) <= 10)%nat)
            (playerMissiles s) /\
     Forall (fun m : Missile => (length (trail m) <= 5)%nat)
            (enemyMissiles s)) /\
  (forall (time : Q) (s : State) (h : Host),
     Forall (fun m : Missile => (length (trail m) <= 10)%nat)
            (playerMissiles s) ->
     Forall (fun m : Missile => (length (trail m) <= 5)%nat)
            (enemyMissiles s) ->
     let s' := (update playing time s h).1 in
     Forall (fun m : Missile => (length (trail m) <= 10)%nat)
            (playerMissiles s') /\
     Forall (fun m : Missile => (length (trail m) <= 5)%nat)
            (enemyMissiles s')).
Proof.
  split.
  - intros rnd evs.
    assert (H : forall se, inFlight (game se) ->
                           inFlight (game (run se evs))).
    { induction evs as [|ev evs IH]; intros se H0; [exact H0|].
      cbn. apply IH. now apply step_inFlight. }
    destruct (H (mount rnd)) as [_ _ Hp He];
      [constructor; cbn; constructor|].
    now split.
  - intros time s h. apply tick_trails.
Qed.

(** ** Structures, ammunition and the display along a session *)

Lemma decays_trans o1 o2 o3 : decays o1 o2 -> decays o2 o3 -> decays o1 o3.
Proof.
  intros (A1 & A2 & A3 & A4) (B1 & B2 & B3 & B4).
  repeat split; try congruence. tauto.
Qed.

Lemma Forall2_decays_trans l1 l2 l3 :
  Forall2 decays l1 l2 -> Forall2 decays l2 l3 -> Forall2 decays l1 l3.
Proof.
  intros H. revert l3. induction H; intros l3 H3; inversion H3; subst;
    constructor; eauto using decays_trans.
Qed.

Lemma Forall2_decays_refl l : Forall2 decays l l.
Proof. induction l; constructor; auto using decays_refl. Qed.

Lemma towersDecay_bases ts ts' :
  towersDecay ts ts' ->
  Forall2 decays (map tower_base ts) (map tower_base ts').
Proof. intros H. induction H; cbn; constructor; tauto. Qed.

Lemma citiesDecay_bases cs cs' :
  citiesDecay cs cs' ->
  Forall2 decays (map city_base cs) (map city_base cs').
Proof. intros H. induction H; cbn; constructor; tauto. Qed.

Lemma insert_same_base (ts : list Tower) i t a :
  ts !! i = Some t ->
  map tower_base (<[i := tower_with_ammo a t]> ts) = map tower_base ts.
Proof.
  revert i. induction ts as [|t0 ts IH]; intros [|i] Hi; cbn in *;
    try discriminate.
  - injection Hi as ->. reflexivity.
  - f_equal. now apply IH.
Qed.

Lemma replenish_same_base (ts : list Tower) :
  map tower_base (map replenish ts) = map tower_base ts.
Proof.
  rewrite map_map. apply map_ext. intros t. unfold replenish.
  now destruct (active t).
Qed.

Lemma step_decays se ev :
  ev.2 <> ClickStart ->
  Forall2 decays (structures (game se)) (structures (game (step se ev))).
Proof.
  intros Hev. destruct ev as [now [time|canvas e| |]]; cbn in Hev;
    try congruence; unfold step, structures.
  - rewrite runHandler_run. cbv zeta. cbn [game].
    assert (Hdec : gameState (view se) = playing \/
                   gameState (view se) <> playing)
      by (destruct (gameState (view se)); (now left) || (right; discriminate)).
    destruct Hdec as [->|Hgs].
    + destruct (tick_shape time (game se) (hostAt now se))
        as (new & pm & em & em4 & _ & _ & _ & _ & _ & _ & _ & Hc & Ht & _).
      apply Forall2_app;
        [now apply citiesDecay_bases|now apply towersDecay_bases].
    + rewrite (update_idle _ time (game se) (hostAt now se) Hgs).
      apply Forall2_decays_refl.
  - rewrite runHandler_run. cbv zeta. cbn [game].
    destruct (handleInput_cases (gameState (view se)) canvas e (game se)
                (hostAt now se))
      as [->|(i & t & target & Hi & Ha & ->)];
      [apply Forall2_decays_refl|].
    cbn. rewrite (insert_same_base _ _ _ _ Hi). apply Forall2_decays_refl.
  - destruct (timers se); [apply Forall2_decays_refl|].
    rewrite runHandler_run. cbv zeta. cbn [game].
    destruct (waveTimeout_cases (game se) (hostAt now se)) as [->| ->];
      [apply Forall2_decays_refl|].
    rewrite startNextWave_run. cbn. rewrite replenish_same_base.
    apply Forall2_decays_refl.
Qed.

(** X3.  Between two session starts nothing is rebuilt: over any run of
    frames, pointer events and timer callbacks, the cities and towers stay
    the same structures at the same positions, in the same order, and one
    that is active at the end was active at the beginning. *)
Theorem structures_are_never_rebuilt
    (se : Session) (evs : list (Q * Input)) :
  Forall (fun ev => ev.2 <> ClickStart) evs ->
  Forall2 (fun o o' : GameObject =>
             id o' = id o /\ x o' = x o /\ y o' = y o /\
             (active o' = true -> active o = true))
          (structures (game se)) (structures (game (run se evs))).
Proof.
  revert se. induction evs as [|ev evs IH]; intros se Hevs.
  - apply Forall2_decays_refl.
  - apply Forall_cons in Hevs as [Hev Hevs]. cbn [run fold_left].
    eapply Forall2_decays_trans; [apply (step_decays se ev Hev)|].
    apply IH. exact Hevs.
Qed.

Lemma totalAmmo_insert (ts : list Tower) i t a :
  ts !! i = Some t ->
  totalAmmo (<[i := tower_with_ammo a t]> ts) =
  (totalAmmo ts - ammo t + a)%Z.
Proof.
  unfold totalAmmo, Zsum.
  revert i. induction ts as [|t0 ts IH]; intros [|i] Hi; simpl in *;
    try discriminate.
  - injection Hi as ->. lia.
  - rewrite (IH i Hi). lia.
Qed.

(** X4.  Every shot is paid for: a pointer event, in any state and with
    any outcome, leaves the sum of the towers' ammo plus the number of
    player missiles unchanged (a missile appears exactly when a round is
    spent), and changes nothing else in the game state. *)
Theorem every_shot_costs_one_round
    (gs : GameState) (canvas : option DOMRect) (e : InputEvent)
    (s : State) (h : Host) :
  let s' := (handleInput gs canvas e s h).1 in
  (totalAmmo (towers s') + Z.of_nat (length (playerMissiles s')) =
   totalAmmo (towers s) + Z.of_nat (length (playerMissiles s)))%Z /\
  (length (playerMissiles s') <= S (length (playerMissiles s)))%nat /\
  (length (playerMissiles s) <= length (playerMissiles s'))%nat /\
  s' = set_playerMissiles (playerMissiles s') (set_towers (towers s') s) /\
  (handleInput gs canvas e s h).2 = h.
Proof.
  intros s'. subst s'.
  destruct (handleInput_cases gs canvas e s h)
    as [->|(i & t & target & Hi & Ha & ->)];
    cbn [fst snd towers playerMissiles set_playerMissiles set_towers].
  - repeat split; try lia. now destruct s.
  - rewrite (totalAmmo_insert _ _ _ _ Hi), length_app.
    cbn [length]. repeat split; lia.
Qed.

(** ** The display follows the game state *)

Lemma commit_snoc v cs c : commit v (cs ++ [c]) = applyCall (commit v cs) c.
Proof. now rewrite commit_app. Qed.

Lemma forEach_intercept_shown v wv e ms :
  forall w h,
    scoreShown (commit v (calls h)) = sw_score w /\
    waveShown (commit v (calls h)) = wv ->
    scoreShown (commit v (calls (forEach (intercept e) ms w h).2)) =
      sw_score (forEach (intercept e) ms w h).1.2 /\
    waveShown (commit v (calls (forEach (intercept e) ms w h).2)) = wv.
Proof.
  intros w h. apply (forEach_invariant (intercept e)
    (fun w h => scoreShown (commit v (calls h)) = sw_score w /\
                waveShown (commit v (calls h)) = wv)).
  intros m w1 h1 [Hs Hw]. rewrite intercept_run.
  destruct (strike e m); [|now split].
  cbn [fst snd calls sw_score]. rewrite commit_snoc. cbn. now split.
Qed.

Lemma updateExplosions_shown v dt s h :
  synced (commit v (calls h)) s ->
  synced (commit v (calls (updateExplosions dt s h).2))
         (updateExplosions dt s h).1.
Proof.
  intros [Hs Hw]. rewrite updateExplosions_run. cbv zeta. cbn [fst snd].
  unfold synced. cbn [score wave set_score set_enemyMissiles set_explosions].
  apply (forEach_invariant (stepExplosion dt)
    (fun (acc : list Missile * Sweep) h =>
       scoreShown (commit v (calls h)) = sw_score acc.2 /\
       waveShown (commit v (calls h)) = wave s)).
  - intros e [ms w] h1 H. rewrite stepExplosion_run.
    destruct (active e && negb (Qgtb (age e + dt) (duration e)));
      cbn [fst snd]; [|exact H].
    now apply forEach_intercept_shown.
  - now split.
Qed.

Lemma commit_quiet v cs :
  forallb (fun c => match c with
                    | SetScore _ | SetWave _ => false
                    | _ => true
                    end) cs = true ->
  scoreShown (commit v cs) = scoreShown v /\
  waveShown (commit v cs) = waveShown v.
Proof.
  revert v. induction cs as [|c cs IH]; intros v H; [now split|].
  cbn in H. apply andb_true_iff in H as [Hc H].
  change (commit v (c :: cs)) with (commit (applyCall v c) cs).
  destruct (IH (applyCall v c) H) as [-> ->].
  destruct c; try discriminate; now split.
Qed.

Lemma endGameCalls_quiet s :
  forallb (fun c => match c with
                    | SetScore _ | SetWave _ => false
                    | _ => true
                    end) (endGameCalls s ++ [Draw; RequestAnimationFrame])
  = true.
Proof.
  destruct (endGameCalls_cases s) as [[-> _]|[[-> _]|[-> _]]]; reflexivity.
Qed.

Lemma update_synced v gs time s h :
  synced (commit v (calls h)) s ->
  synced (commit v (calls (update gs time s h).2)) (update gs time s h).1.
Proof.
  intros Hsync.
  assert (Hdec : gs = playing \/ gs <> playing)
    by (destruct gs; (now left) || (right; discriminate)).
  destruct Hdec as [->|Hgs].
  - rewrite update_phases. cbv zeta.
    pose proof (spawnEnemies_spec (dtOf time s) (set_lastTime time s) h)
      as (C1 & S1 & _ & _ & _ & _ & _ & _ & W1 & _).
    cbn [score wave towers set_lastTime] in C1, S1, W1.
    change (waveDone (set_lastTime time s)) with (waveDone s) in *.
    change (waveCompleteCalls (set_lastTime time s))
      with (waveCompleteCalls s) in *.
    destruct (spawnEnemies _ _ h) as [s1 h1]. cbn [fst snd] in *.
    assert (H1 : synced (commit v (calls h1)) s1).
    { destruct Hsync as [Hs Hw]. unfold synced.
      rewrite C1, S1, W1, commit_app.
      destruct (waveDone s); cbn; [split; [reflexivity|exact Hw]|].
      split; [lia|exact Hw]. }
    destruct (updatePlayerMissiles_shape (dtOf time s) s1 h1)
      as (pm & new2 & Hs2 & _ & _ & C2).
    destruct (updatePlayerMissiles _ s1 h1) as [s2 h2]. cbn [fst snd] in *.
    assert (H2 : synced (commit v (calls h2)) s2).
    { rewrite C2, Hs2. exact H1. }
    destruct (updateEnemyMissiles_shape (dtOf time s) s2 h2)
      as (em & cs & ts & new3 & Hs3 & _ & _ & _ & C3).
    destruct (updateEnemyMissiles _ s2 h2) as [s3 h3]. cbn [fst snd] in *.
    assert (H3 : synced (commit v (calls h3)) s3).
    { rewrite C3, Hs3. exact H2. }
    pose proof (updateExplosions_shown v (dtOf time s) s3 h3 H3) as H4.
    destruct (updateExplosions _ s3 h3) as [s4 h4]. cbn [fst snd] in *.
    unfold synced, logged. cbn [calls]. rewrite commit_app.
    destruct (commit_quiet (commit v (calls h4)) _
                (endGameCalls_quiet (cleanup s4))) as [-> ->].
    exact H4.
  - rewrite (update_idle gs time s h Hgs). unfold synced, logged.
    cbn [fst snd calls]. rewrite commit_snoc. exact Hsync.
Qed.

Lemma step_synced se ev :
  synced (view se) (game se) -> synced (view (step se ev)) (game (step se ev)).
Proof.
  intros Hsync. destruct ev as [now [time|canvas e| |]]; unfold step.
  - rewrite runHandler_run. cbv zeta. cbn [view game].
    now apply update_synced.
  - rewrite runHandler_run. cbv zeta. cbn [view game].
    destruct (handleInput_cases (gameState (view se)) canvas e (game se)
                (hostAt now se))
      as [->|(i & t & target & Hi & Ha & ->)]; exact Hsync.
  - destruct (buttonShown _); [|exact Hsync].
    rewrite runHandler_run, initGame_run. now split.
  - destruct (timers se); [exact Hsync|].
    rewrite runHandler_run. cbv zeta. cbn [view game].
    destruct (waveTimeout_cases (game se) (hostAt now se)) as [->| ->].
    + exact Hsync.
    + rewrite startNextWave_run. destruct Hsync as [Hs Hw]. now split.
Qed.

(** X5.  The display never lags: after every handler of every session,
    the score and the wave the component shows are the score and the wave
    of the game state. *)
Theorem display_shows_the_current_score_and_wave
    (rnd : nat -> Q) (evs : list (Q * Input)) :
  scoreShown (view (run (mount rnd) evs)) = score (game (run (mount rnd) evs))
  /\ waveShown (view (run (mount rnd) evs)) = wave (game (run (mount rnd) evs)).
Proof.
  assert (H : forall se, synced (view se) (game se) ->
                         synced (view (run se evs)) (game (run se evs))).
  { induction evs as [|ev evs IH]; intros se H0; [exact H0|].
    cbn. apply IH. now apply step_synced. }
  apply H. now split.
Qed.

(** ** The clock and the idle states *)

Lemma update_lastTime gs time s h : lastTime (update gs time s h).1 = time.
Proof.
  assert (Hdec : gs = playing \/ gs <> playing)
    by (destruct gs; (now left) || (right; discriminate)).
  destruct Hdec as [->|Hgs].
  - destruct (tick_shape time s h)
      as (new & pm & em & em4 & _ & _ & _ & _ & _ & _ & _ & _ & _ & H & _).
    exact H.
  - now rewrite (update_idle gs time s h Hgs).
Qed.

(** X6.  The clock runs in every state, and the time step of a frame is
    the time since the previous frame, whatever state that one was in.
    Take a frame stamped [t1] in any state, then a frame stamped [t2] in
    the playing state.  Each stores its stamp in [lastTime].  While the
    wave's budget lasts and the spawn timer stays within the spawn
    interval, the second frame adds exactly [t2 - t1] to the spawn timer:
    that is the [dt] it runs with (no jump when play resumes after the
    wave banner, whose frames keep stamping).  The stamp 0 means "no frame
    yet": after a frame stamped exactly 0 the next one runs with
    [dt = t2 - t2] and leaves the timer where it was.  A frame outside
    the playing state changes nothing but the stamp. *)
Theorem time_step_is_the_gap_to_the_previous_frame
    (gs : GameState) (t1 t2 : Q) (s : State) (h h' : Host) :
  let s1 := (update gs t1 s h).1 in
  let s2 := (update playing t2 s1 h').1 in
  lastTime s1 = t1 /\ lastTime s2 = t2 /\
  ((enemiesSpawned s1 < enemiesToSpawn s1)%Z ->
   (~ t1 == 0 ->
    spawnTimer s1 + (t2 - t1) <= spawnInterval s1 ->
    spawnTimer s2 = spawnTimer s1 + (t2 - t1)) /\
   (t1 == 0 ->
    spawnTimer s1 <= spawnInterval s1 ->
    spawnTimer s2 = spawnTimer s1 + (t2 - t2))) /\
  (gs <> playing -> s1 = set_lastTime t1 s).
Proof.
  intros s1 s2.
  assert (H1 : lastTime s1 = t1) by apply update_lastTime.
  split; [exact H1|]. split; [apply update_lastTime|]. split.
  - intros Hb. split.
    + intros Hnz Hle.
      assert (Hdt : dtOf t2 s1 = t2 - t1).
      { unfold dtOf. rewrite H1.
        destruct (Qeq_bool t1 0) eqn:E; [|reflexivity].
        apply Qeq_bool_iff in E. contradiction. }
      subst s2. rewrite <- Hdt. apply tick_spawnTimer; [exact Hb|].
      now rewrite Hdt.
    + intros Hz Hle.
      assert (Hdt : dtOf t2 s1 = t2 - t2).
      { unfold dtOf. rewrite H1. apply Qeq_bool_iff in Hz.
        now rewrite Hz. }
      subst s2. rewrite <- Hdt. apply tick_spawnTimer; [exact Hb|].
      rewrite Hdt. lra.
  - intros Hgs. subst s1. now rewrite (update_idle gs t1 s h Hgs).
Qed.

Lemma commit_frame v : commit v [RequestAnimationFrame] = v.
Proof. reflexivity. Qed.

Lemma set_lastTime_twice t t' s :
  set_lastTime t' (set_lastTime t s) = set_lastTime t' s.
Proof. reflexivity. Qed.

Lemma set_lastTime_same s : set_lastTime (lastTime s) s = s.
Proof. now destruct s. Qed.

Lemma step_frozen se ev :
  gameState (view se) <> playing ->
  isFrameOrPointer ev ->
  view (step se ev) = view se /\ timers (step se ev) = timers se /\
  exists t, game (step se ev) = set_lastTime t (game se).
Proof.
  intros Hgs Hev. destruct ev as [now [time|canvas e| |]];
    cbn in Hev; try contradiction; unfold step; rewrite runHandler_run.
  - rewrite (update_idle _ time (game se) (hostAt now se) Hgs).
    cbn. repeat split; [lia|]. now exists time.
  - unfold handleInput.
    assert (Hb : negb (GameState_eqb (gameState (view se)) playing) = true)
      by (destruct (gameState (view se)); try reflexivity; congruence).
    rewrite Hb. cbn. repeat split; [lia|].
    exists (lastTime (game se)). now rewrite set_lastTime_same.
Qed.

(** X7.  Outside the playing state the game is frozen: in [start],
    [wave_complete], [victory] or [defeat], any number of animation frames
    and pointer events leave the session in the same state, with the same
    display and pending timers, and change nothing in the game state but
    its time stamp. *)
Theorem game_is_frozen_outside_play
    (se : Session) (evs : list (Q * Input)) :
  gameState (view se) <> playing ->
  Forall isFrameOrPointer evs ->
  view (run se evs) = view se /\ timers (run se evs) = timers se /\
  exists t, game (run se evs) = set_lastTime t (game se).
Proof.
  revert se. induction evs as [|ev evs IH]; intros se Hgs Hevs.
  - cbn. repeat split. exists (lastTime (game se)).
    now rewrite set_lastTime_same.
  - apply Forall_cons in Hevs as [Hev Hevs]. cbn [run fold_left].
    destruct (step_frozen se ev Hgs Hev) as (Hv & Ht & t & Hg).
    assert (Hgs' : gameState (view (step se ev)) <> playing)
      by now rewrite Hv.
    destruct (IH (step se ev) Hgs' Hevs) as (Hv' & Ht' & t' & Hg').
    unfold run in *. rewrite Hv', Ht', Hg', Hv, Ht, Hg.
    repeat split. exists t'. apply set_lastTime_twice.
Qed.

(** ** The spawner *)

(** X8.  The spawner's bookkeeping over one tick of the playing state: it
    launches a missile exactly when the wave's budget is not used up and
    the accumulated spawn timer exceeds the spawn interval; then exactly
    one missile is launched, the counter [enemiesSpawned] grows by one (so
    it never passes the budget) and the timer restarts at 0.  Otherwise
    the counter stays; the timer accumulates [dt] while the budget lasts
    and stands still once it is used up. *)
Theorem spawner_launches_one_missile_per_interval
    (time : Q) (s : State) (h : Host) :
  let dt := dtOf time s in
  let s' := (update playing time s h).1 in
  let due := (enemiesSpawned s <? enemiesToSpawn s)%Z &&
             Qltb (spawnInterval s) (spawnTimer s + dt) in
  enemiesSpawned s' = (enemiesSpawned s + (if due then 1 else 0))%Z /\
  enemiesToSpawn s' = enemiesToSpawn s /\
  spawnTimer s' =
    (if due then 0
     else if (enemiesSpawned s <? enemiesToSpawn s)%Z then spawnTimer s + dt
     else spawnTimer s) /\
  ((enemiesSpawned s <= enemiesToSpawn s)%Z ->
   (enemiesSpawned s' <= enemiesToSpawn s')%Z) /\
  exists new : list Missile,
    length new = (if due then 1%nat else 0%nat) /\
    Forall (fun m : Missile =>
              active m = true /\ progress m = 0 /\ trail m = [] /\
              startY m = 0 /\ y m = 0 /\ x m = startX m) new /\
    (spawnEnemies dt (set_lastTime time s) h).1.(enemyMissiles) =
    enemyMissiles s ++ new.
Proof.
  intros dt s' due. subst s'.
  destruct (tick_spawn_fields time s h) as (-> & -> & ->). fold dt.
  destruct (spawnEnemies_shape dt (set_lastTime time s) h)
    as (new & Hlen & Hnew & E1 & N1 & Hsome & Hnone & Hdue & _ & _ & _ & _ & _
        & _ & _ & B1 & _).
  cbn [enemiesSpawned enemiesToSpawn spawnTimer spawnInterval enemyMissiles
       set_lastTime] in *.
  assert (Hcase : (due = true /\ new <> []) \/ (due = false /\ new = [])).
  { destruct new as [|m new].
    - right. split; [|reflexivity]. subst due.
      destruct (enemiesSpawned s <? enemiesToSpawn s)%Z eqn:Hb; [|reflexivity].
      destruct (Qltb (spawnInterval s) (spawnTimer s + dt)) eqn:Hq;
        [|reflexivity].
      apply Z.ltb_lt in Hb. apply Qltb_lt in Hq.
      exfalso. now apply (Hdue Hb Hq).
    - left. split; [|discriminate]. subst due.
      destruct Hsome as (Hb & Hq & _); [discriminate|].
      apply Z.ltb_lt in Hb. apply Qltb_lt in Hq. now rewrite Hb, Hq. }
  destruct Hcase as [[Hd Hn]|[Hd Hn]]; rewrite Hd.
  - destruct (Hsome Hn) as (Hb & _ & Ht).
    assert (Hone : length new = 1%nat).
    { destruct new as [|m [|m' new]]; cbn in *; try lia. congruence. }
    rewrite N1, B1, Ht, Hone.
    split; [reflexivity|]. split; [reflexivity|]. split; [reflexivity|].
    split; [lia|]. exists new.
    split; [exact Hone|]. split; [exact Hnew|exact E1].
  - rewrite N1, B1, (Hnone Hn). subst new. cbn [length Z.of_nat].
    split; [lia|]. split; [reflexivity|]. split; [reflexivity|].
    split; [lia|]. exists [].
    split; [reflexivity|]. split; [constructor|exact E1].
Qed.

Lemma floor_index (r : Q) (n : nat) :
  r < 1 -> (0 < n)%nat ->
  (Z.to_nat (Qfloor (r * inject_Z (Z.of_nat n))) < n)%nat.
Proof.
  intros Hr Hn.
  assert (HN : 0 < inject_Z (Z.of_nat n)).
  { change 0 with (inject_Z 0). rewrite <- Zlt_Qlt. lia. }
  assert (Hlt : r * inject_Z (Z.of_nat n) < inject_Z (Z.of_nat n)) by nra.
  pose proof (Qfloor_le (r * inject_Z (Z.of_nat n))) as Hfl.
  assert (Hz : (Qfloor (r * inject_Z (Z.of_nat n)) < Z.of_nat n)%Z).
  { rewrite Zlt_Qlt. lra. }
  lia.
Qed.

(** X9.  Where a spawned missile comes from and where it goes, when the
    random draws lie in [0, 1) and the speed multiplier is not negative.
    It starts on the top edge, at a point of the field's width.  If some
    structure is active and the coin (the third draw) is below 0.7, it is
    aimed at the position of an active city or tower (the index drawn is
    always in range); otherwise, in particular when no structure is left,
    it is aimed at a point of the ground line.  Its speed is between 0.03
    and 0.05 times the multiplier. *)
Theorem spawned_missile_is_aimed_at_a_structure_or_the_ground
    (dt : Q) (s : State) (h : Host) :
  unitDraws h ->
  0 <= enemySpeedMultiplier s ->
  (enemiesSpawned s < enemiesToSpawn s)%Z ->
  spawnInterval s < spawnTimer s + dt ->
  let targets := List.filter active (structures s) in
  let coin := random h (S (S (drawn h))) in
  exists m : Missile,
    enemyMissiles (spawnEnemies dt s h).1 = enemyMissiles s ++ [m] /\
    startX m = random h (drawn h) * GAME_WIDTH /\
    0 <= startX m /\ startX m < GAME_WIDTH /\ startY m = 0 /\
    (targets <> [] -> coin < 0.7 ->
     exists o : GameObject,
       In o (structures s) /\ active o = true /\
       targetX m = x o /\ targetY m = y o) /\
    (targets = [] \/ 0.7 <= coin ->
     targetX m = random h (S (drawn h)) * GAME_WIDTH /\
     0 <= targetX m /\ targetX m < GAME_WIDTH /\
     targetY m = GAME_HEIGHT - GROUND_HEIGHT) /\
    0.03 * enemySpeedMultiplier s <= speed m /\
    speed m <= 0.05 * enemySpeedMultiplier s.
Proof.
  intros Hunit Hmult Hbud Hdue. cbv zeta.
  unfold spawnEnemies.
  apply Z.ltb_lt in Hbud. rewrite Hbud.
  cbn [spawnTimer spawnInterval set_spawnTimer].
  apply Qltb_lt in Hdue. unfold Qgtb. rewrite Hdue.
  assert (Hlo : forall n, 0 <= random h n) by (intros n; apply Hunit).
  assert (Hhi : forall n, random h n < 1) by (intros n; apply Hunit).
  assert (Hspeed : forall r : Q,
            0 <= r -> r < 1 ->
            0.03 * enemySpeedMultiplier s <=
              (0.03 + r * 0.02) * enemySpeedMultiplier s /\
            (0.03 + r * 0.02) * enemySpeedMultiplier s <=
              0.05 * enemySpeedMultiplier s).
  { intros r Hr0 Hr1. split; nra. }
  assert (Hwidth : forall r : Q,
            0 <= r -> r < 1 ->
            0 <= r * GAME_WIDTH /\ r * GAME_WIDTH < GAME_WIDTH).
  { intros r Hr0 Hr1. unfold GAME_WIDTH. split; lra. }
  unfold spawnEnemy, mbind, Sim_bind, mret, Sim_ret, Math_random,
    freshId, Date_now.
  unfold mbind, Sim_bind, mret, Sim_ret, Math_random.
  cbn [random drawn dateNow calls].
  change (structures (set_enemiesSpawned _ _)) with (structures s).
  set (targets := List.filter active (structures s)).
  destruct (0 <? length targets)%nat eqn:Hlen.
  - apply Nat.ltb_lt in Hlen.
    assert (Hne : targets <> [])
      by (intros E; rewrite E in Hlen; cbn in Hlen; lia).
    cbv beta iota. cbn [random drawn dateNow calls].
    destruct (Qltb (random h (S (S (drawn h)))) 0.7) eqn:Hcoin.
    + apply Qltb_lt in Hcoin.
      pose proof (floor_index _ _ (Hhi (S (S (S (drawn h))))) Hlen) as Hidx.
      destruct (lookup_lt_is_Some_2 targets _ Hidx) as [o Ho].
      cbv beta iota. cbn [random drawn dateNow calls].
      rewrite Ho. cbn [fst snd]. cbv beta iota.
      eexists. split; [reflexivity|]. cbn.
      split; [reflexivity|]. split; [apply Hwidth; auto|].
      split; [apply Hwidth; auto|]. split; [reflexivity|].
      split.
      * intros _ _. exists o.
        assert (Hin : In o targets).
        { apply list_elem_of_In. eapply list_elem_of_lookup_2. exact Ho. }
        apply List.filter_In in Hin as [Hin Hact]. repeat split; assumption.
      * split; [intros [E|Hge]; [contradiction|exfalso; lra]|].
        apply Hspeed; auto.
    + apply Qltb_ge in Hcoin. cbn [fst snd]. cbv beta iota.
      eexists. split; [reflexivity|]. cbn.
      split; [reflexivity|]. split; [apply Hwidth; auto|].
      split; [apply Hwidth; auto|]. split; [reflexivity|].
      split; [intros _ Hlt; exfalso; lra|].
      split; [|apply Hspeed; auto].
      intros _. split; [reflexivity|].
      split; [apply Hwidth; auto|].
      split; [apply Hwidth; auto|reflexivity].
  - apply Nat.ltb_ge in Hlen.
    assert (He : targets = [])
      by (destruct targets; [reflexivity|cbn in Hlen; lia]).
    cbn [fst snd]. cbv beta iota.
    eexists. split; [reflexivity|]. cbn.
    split; [reflexivity|]. split; [apply Hwidth; auto|].
    split; [apply Hwidth; auto|]. split; [reflexivity|].
    split; [intros Hn; contradiction|].
    split; [|apply Hspeed; auto].
    intros _. split; [reflexivity|].
    split; [apply Hwidth; auto|].
    split; [apply Hwidth; auto|reflexivity].
Qed.

(** ** The difficulty curve *)

Lemma afterWaves_S k s h :
  afterWaves (S k) s h = (startNextWave (afterWaves k s h) h).1.
Proof. reflexivity. Qed.

Lemma Qmax_ge_l a b : a <= Qmax a b.
Proof.
  unfold Qmax. destruct (Qltb a b) eqn:E; [|lra].
  apply Qltb_lt in E. lra.
Qed.

Lemma Qmax_cases a b :
  (b <= a /\ Qmax a b = a) \/ (a < b /\ Qmax a b = b).
Proof.
  unfold Qmax. destruct (Qltb a b) eqn:E.
  - right. apply Qltb_lt in E. now split.
  - left. apply Qltb_ge in E. now split.
Qed.

(** X10.  The difficulty after [k] wave changes, from any state: the wave
    number has grown by [k] and the enemy speed multiplier has not
    decreased; from a multiplier between 0 and 1000 and for up to 1000
    wave changes it has grown by 0.15 per wave, to within a thousandth per
    wave.  From the first change on, the wave's budget is [10 + 2 * wave]
    enemy missiles, none of them spawned yet, the field is empty, and the
    spawn interval is [2500 - 150 * wave] ms down to wave 14 and 400 ms
    from then on (never below 400). *)
Theorem difficulty_after_k_waves (k : nat) (s : State) (h : Host) :
  let s' := afterWaves k s h in
  wave s' = (wave s + Z.of_nat k)%Z /\
  enemySpeedMultiplier s <= enemySpeedMultiplier s' /\
  ((k <= 1000)%nat ->
   0 <= enemySpeedMultiplier s -> enemySpeedMultiplier s <= 1000 ->
   enemySpeedMultiplier s + 0.149 * inject_Z (Z.of_nat k)
     <= enemySpeedMultiplier s' /\
   enemySpeedMultiplier s' <=
     enemySpeedMultiplier s + 0.151 * inject_Z (Z.of_nat k)) /\
  ((0 < k)%nat ->
   enemiesToSpawn s' = (10 + 2 * wave s')%Z /\
   enemiesSpawned s' = 0%Z /\
   playerMissiles s' = [] /\ enemyMissiles s' = [] /\ explosions s' = [] /\
   400 <= spawnInterval s' /\
   ((wave s' <= 14)%Z ->
    spawnInterval s' == 2500 - 150 * inject_Z (wave s')) /\
   ((14 <= wave s')%Z -> spawnInterval s' == 400)).
Proof.
  cbv zeta.
  assert (Hmul : enemySpeedMultiplier (afterWaves k s h) ==
                 enemySpeedMultiplier s + 0.15 * inject_Z (Z.of_nat k)).
  { induction k as [|k IH]; [cbn; ring|].
    rewrite afterWaves_S, startNextWave_run.
    cbn [fst enemySpeedMultiplier set_explosions set_enemyMissiles
         set_playerMissiles set_towers set_spawnInterval set_enemiesSpawned
         set_enemiesToSpawn set_enemySpeedMultiplier set_wave].
    rewrite IH, Nat2Z.inj_succ. unfold Z.succ. rewrite inject_Z_plus. ring. }
  assert (Hk : 0 <= inject_Z (Z.of_nat k)).
  { change 0 with (inject_Z 0). rewrite <- Zle_Qle. lia. }
  split; [|split; [rewrite Hmul; lra|split; [intros _ _ _; rewrite Hmul; lra|]]].
  - clear Hmul Hk. induction k as [|k IH]; [cbn; lia|].
    rewrite afterWaves_S, startNextWave_run. cbn [fst wave set_explosions
      set_enemyMissiles set_playerMissiles set_towers set_spawnInterval
      set_enemiesSpawned set_enemiesToSpawn set_enemySpeedMultiplier
      set_wave]. lia.
  - clear Hmul Hk. destruct k as [|k]; [intros H; lia|]. intros _.
    rewrite afterWaves_S, startNextWave_run.
    cbn [fst wave enemySpeedMultiplier enemiesToSpawn enemiesSpawned
         playerMissiles enemyMissiles explosions spawnInterval
         set_explosions set_enemyMissiles set_playerMissiles set_towers
         set_spawnInterval set_enemiesSpawned set_enemiesToSpawn
         set_enemySpeedMultiplier set_wave].
    split; [lia|]. do 4 (split; [reflexivity|]).
    split; [apply Qmax_ge_l|].
    set (w := (wave (afterWaves k s h) + 1)%Z).
    destruct (Qmax_cases 400 (2500 - inject_Z w * 150)) as [[Hle ->]|[Hlt ->]].
    + split.
      * intros Hw14.
        assert (H14 : inject_Z w <= inject_Z 14) by (rewrite <- Zle_Qle; lia).
        change (inject_Z 14) with 14 in H14. lra.
      * intros _. reflexivity.
    + split.
      * intros _. ring.
      * intros Hw14.
        assert (H14 : inject_Z 14 <= inject_Z w) by (rewrite <- Zle_Qle; lia).
        change (inject_Z 14) with 14 in H14. lra.
Qed.

(** ** Pointer coordinates *)

(** X11.  How the pointer position is mapped from the canvas rectangle on
    the screen to the field.  For a rectangle of positive size the event
    has a game point: the rectangle's top-left corner goes to (0, 0), a
    position right of its left edge to a non-negative x and one below its
    top edge to a non-negative y; the mapping is monotone in each
    coordinate (a position further right never maps further left, one
    further down never further up); and a touch event maps like a mouse
    event at the position of its first touch.  For a rectangle at least
    one pixel wide and high, a position inside it maps to a point of the
    800 x 600 field and its bottom-right corner to (800, 600), to within
    a millionth of a unit.  For a rectangle of width or height zero the
    event has no game point and [handleInput] changes nothing. *)
Theorem pointer_is_mapped_into_the_field
    (rect : DOMRect) (cx cy : Q) :
  (0 < rect_width rect -> 0 < rect_height rect ->
   exists p : Point,
     eventTarget rect (MouseEvent cx cy) = Some p /\
     (cx == rect_left rect -> px p == 0) /\
     (cy == rect_top rect -> py p == 0) /\
     (rect_left rect <= cx -> 0 <= px p) /\
     (rect_top rect <= cy -> 0 <= py p) /\
     (forall (cx' cy' : Q) (p' : Point),
        eventTarget rect (MouseEvent cx' cy') = Some p' ->
        (cx <= cx' -> px p <= px p') /\ (cy <= cy' -> py p <= py p')) /\
     (1 <= rect_width rect ->
      rect_left rect <= cx -> cx <= rect_left rect + rect_width rect ->
      px p <= GAME_WIDTH + 0.000001) /\
     (1 <= rect_height rect ->
      rect_top rect <= cy -> cy <= rect_top rect + rect_height rect ->
      py p <= GAME_HEIGHT + 0.000001) /\
     (1 <= rect_width rect -> cx == rect_left rect + rect_width rect ->
      GAME_WIDTH - 0.000001 <= px p) /\
     (1 <= rect_height rect -> cy == rect_top rect + rect_height rect ->
      GAME_HEIGHT - 0.000001 <= py p) /\
     (forall more,
        eventTarget rect
          (TouchEvent {| touch_clientX := cx; touch_clientY := cy |} more)
        = Some p)) /\
  (rect_width rect == 0 \/ rect_height rect == 0 ->
   eventTarget rect (MouseEvent cx cy) = None /\
   forall (s : State) (h : Host),
     handleInput playing (Some rect) (MouseEvent cx cy) s h = (s, h)).
Proof.
  split.
  - intros Hw Hh. unfold eventTarget.
    assert (Ew : Qeq_bool (rect_width rect) 0 = false).
    { destruct (Qeq_bool (rect_width rect) 0) eqn:E; [|reflexivity].
      apply Qeq_bool_iff in E. lra. }
    assert (Eh : Qeq_bool (rect_height rect) 0 = false).
    { destruct (Qeq_bool (rect_height rect) 0) eqn:E; [|reflexivity].
      apply Qeq_bool_iff in E. lra. }
    rewrite Ew, Eh. cbn [orb].
    assert (Hiw : 0 < / rect_width rect) by now apply Qinv_lt_0_compat.
    assert (Hih : 0 < / rect_height rect) by now apply Qinv_lt_0_compat.
    assert (Hpx : 0 < GAME_WIDTH / rect_width rect).
    { unfold Qdiv, GAME_WIDTH. nra. }
    assert (Hpy : 0 < GAME_HEIGHT / rect_height rect).
    { unfold Qdiv, GAME_HEIGHT. nra. }
    eexists. split; [reflexivity|]. cbn [px py].
    split; [intros ->; ring|]. split; [intros ->; ring|].
    split; [intros H; nra|]. split; [intros H; nra|].
    assert (Hsx : rect_width rect * (GAME_WIDTH / rect_width rect)
                  == GAME_WIDTH) by (field; lra).
    assert (Hsy : rect_height rect * (GAME_HEIGHT / rect_height rect)
                  == GAME_HEIGHT) by (field; lra).
    split.
    { intros cx' cy' p' [= <-]. cbn [px py].
      split; intros H; apply Qmult_le_compat_r; lra. }
    split.
    { intros _ H1 H2.
      assert (Hle : (cx - rect_left rect) * (GAME_WIDTH / rect_width rect)
                    <= rect_width rect * (GAME_WIDTH / rect_width rect)).
      { apply Qmult_le_compat_r; lra. }
      rewrite Hsx in Hle. lra. }
    split.
    { intros _ H1 H2.
      assert (Hle : (cy - rect_top rect) * (GAME_HEIGHT / rect_height rect)
                    <= rect_height rect * (GAME_HEIGHT / rect_height rect)).
      { apply Qmult_le_compat_r; lra. }
      rewrite Hsy in Hle. lra. }
    split.
    { intros _ ->.
      setoid_replace (rect_left rect + rect_width rect - rect_left rect)
        with (rect_width rect) using relation Qeq by ring.
      rewrite Hsx. lra. }
    split; [|reflexivity].
    intros _ ->.
    setoid_replace (rect_top rect + rect_height rect - rect_top rect)
      with (rect_height rect) using relation Qeq by ring.
    rewrite Hsy. lra.
  - intros Hz.
    assert (E : Qeq_bool (rect_width rect) 0 || Qeq_bool (rect_height rect) 0
                = true).
    { apply orb_true_iff.
      destruct Hz as [Hz|Hz]; [left|right]; now apply Qeq_bool_iff. }
    assert (Hnone : eventTarget rect (MouseEvent cx cy) = None).
    { unfold eventTarget. now rewrite E. }
    split; [exact Hnone|].
    intros s h. unfold handleInput. cbn [negb GameState_eqb].
    now rewrite Hnone.
Qed.

(** ** The end-of-wave timer *)

(** X12.  The end-of-wave timer is never cancelled and its callback does
    not look at the state of the session.  If the game is restarted while
    a timer is pending (a victory won by the ammo bonus leaves one pending
    under the restart button), the callback later runs in the new session:
    it finds the score 0 and starts "the next wave", so the new session
    jumps to wave 2 (budget 14, speed multiplier 1.15, spawn interval
    2200 ms) with its missiles and explosions wiped. *)
Theorem pending_timer_survives_a_restart
    (se : Session) (now later : Q) (n : nat) :
  buttonShown (gameState (view se)) = true ->
  timers se = S n ->
  let se' := run se [(now, ClickStart); (later, TimerFires)] in
  gameState (view se') = playing /\
  wave (game se') = 2%Z /\ waveShown (view se') = 2%Z /\
  score (game se') = 0%Z /\
  enemiesToSpawn (game se') = 14%Z /\ enemiesSpawned (game se') = 0%Z /\
  enemySpeedMultiplier (game se') == 1.15 /\
  spawnInterval (game se') == 2200 /\
  playerMissiles (game se') = [] /\ enemyMissiles (game se') = [] /\
  explosions (game se') = [] /\
  towers (game se') = initialTowers /\ cities (game se') = initialCities /\
  timers se' = n.
Proof.
  intros Hbtn Htim. cbv zeta. unfold run. cbn [fold_left].
  assert (H1 : step se (now, ClickStart) =
               runHandler now (initGame true) (S n) se).
  { unfold step. now rewrite Hbtn, Htim. }
  rewrite H1, runHandler_run, initGame_run. cbv zeta.
  cbn [fst snd logged calls hostAt app List.filter isSetTimeout length].
  rewrite Nat.add_0_r.
  unfold step. cbn [timers].
  rewrite runHandler_run. cbv zeta. cbn [game].
  unfold waveTimeout.
  cbn [score set_spawnInterval set_enemiesSpawned set_spawnTimer
       set_explosions set_enemyMissiles set_playerMissiles set_cities
       set_towers set_enemiesToSpawn set_enemySpeedMultiplier set_wave
       set_score].
  change (WIN_SCORE <=? 0)%Z with false. cbv iota.
  rewrite startNextWave_run. cbn.
  rewrite Nat.add_0_r.
  repeat split; reflexivity.
Qed.

(** ** Flight of a player missile *)

Lemma flyPlayer_inactive dts (m : Missile) s h :
  active m = false -> (flyPlayer dts m s h).1.1 = m.
Proof.
  revert m s h. induction dts as [|dt dts IH]; intros m s h Ha;
    [reflexivity|].
  cbn [flyPlayer]. cbv zeta.
  assert (Hst : stepPlayerMissile dt m s h = (m, s, h)).
  { unfold stepPlayerMissile. now rewrite Ha. }
  rewrite Hst. cbn [fst snd]. now apply IH.
Qed.

Lemma Qsum_nonneg (dts : list Q) :
  Forall (fun dt => 0 <= dt) dts -> 0 <= Qsum dts.
Proof.
  induction dts as [|dt dts IH]; intros H.
  - unfold Qsum. cbn [fold_right]. lra.
  - apply Forall_cons in H as [Hd H]. specialize (IH H).
    unfold Qsum in *. cbn [fold_right]. lra.
Qed.

Lemma flyPlayer_exact
    (dts : list Q) (m : Missile) (s : State) (h : Host) :
  active m = true ->
  progress m < 1 ->
  0 <= speed m ->
  Forall (fun dt => 0 <= dt) dts ->
  let m' := (flyPlayer dts m s h).1.1 in
  (active m' = true <-> progress m + speed m * Qsum dts < 1) /\
  (active m' = true -> progress m' == progress m + speed m * Qsum dts) /\
  (speed m = 0.02 -> progress m = 0 ->
   (active m' = true <-> Qsum dts < 50)).
Proof.
  intros Hact Hp Hsp Hdts. cbv zeta.
  assert (Hmain :
    (active (flyPlayer dts m s h).1.1 = true <->
     progress m + speed m * Qsum dts < 1) /\
    (active (flyPlayer dts m s h).1.1 = true ->
     progress (flyPlayer dts m s h).1.1 == progress m + speed m * Qsum dts)).
  { revert m s h Hact Hp Hsp.
    induction Hdts as [|dt dts Hdt Hdts IH]; intros m s h Hact Hp Hsp.
    - unfold Qsum. cbn [flyPlayer fold_right fst]. split.
      + split; [intros _; lra|intros _; exact Hact].
      + intros _. ring.
    - cbn [flyPlayer]. cbv zeta.
      assert (Hs : Qsum (dt :: dts) == dt + Qsum dts) by reflexivity.
      rewrite Hs.
      pose proof (stepPlayerMissile_stepped dt m s h) as Hst.
      unfold playerStepped in Hst. rewrite Hact in Hst.
      destruct Hst as (_ & _ & _ & _ & Hspeed & Hprog & _ & Hcase).
      pose proof (Qsum_nonneg dts Hdts) as Hsum.
      set (r := stepPlayerMissile dt m s h) in *.
      destruct (Qltb (progress r.1.1) 1) eqn:Hlt.
      + destruct Hcase as (Ha1 & _ & _). apply Qltb_lt in Hlt.
        assert (Hsp1 : 0 <= speed r.1.1) by now rewrite Hspeed.
        destruct (IH r.1.1 r.1.2 r.2 Ha1 Hlt Hsp1) as [Hiff Hval].
        rewrite Hspeed, Hprog in Hiff, Hval.
        split.
        * rewrite Hiff. split; intros H; lra.
        * intros Ha. rewrite (Hval Ha). ring.
      + destruct Hcase as (Ha1 & _). apply Qltb_ge in Hlt.
        rewrite (flyPlayer_inactive dts _ _ _ Ha1), Ha1.
        rewrite Hprog in Hlt.
        split; [|discriminate].
        split; [discriminate|].
        intros H. exfalso. nra. }
  destruct Hmain as [Hiff Hval].
  split; [exact Hiff|]. split; [exact Hval|].
  intros H2 H0. rewrite Hiff, H2, H0. split; intros H; lra.
Qed.

(** X14.  A player missile's flight depends on the time elapsed, not on
    the distance it has to cover.  Two player missiles with the same
    [progress] and [speed] (such as two fired between the same two
    frames), both active or both not, have the same [progress] and are
    both active or both not after any sequence of ticks, whatever their
    start and target points and whatever else the state holds.  And a
    missile as [handleInput] fires it (speed 0.02, progress 0) is still in
    flight while the non-negative time steps of up to 100000 ticks add up
    to 49.9 ms or less, and has detonated once they add up to 50.1 ms or
    more. *)
Theorem player_missile_flight_ignores_the_distance
    (dts : list Q) (m1 m2 : Missile) (s1 s2 : State) (h1 h2 : Host) :
  active m1 = active m2 ->
  progress m1 = progress m2 ->
  speed m1 = speed m2 ->
  let a := (flyPlayer dts m1 s1 h1).1.1 in
  let b := (flyPlayer dts m2 s2 h2).1.1 in
  (active a = active b /\ progress a = progress b /\ speed a = speed b) /\
  (active m1 = true -> progress m1 = 0 -> speed m1 = 0.02 ->
   Forall (fun dt => 0 <= dt) dts ->
   (Z.of_nat (length dts) <= 100000)%Z ->
   (Qsum dts <= 49.9 -> active a = true) /\
   (50.1 <= Qsum dts -> active a = false)).
Proof.
  cbv zeta. intros Ha Hp Hs. split.
  - revert m1 m2 s1 s2 h1 h2 Ha Hp Hs.
    induction dts as [|dt dts IH]; intros m1 m2 s1 s2 h1 h2 Ha Hp Hs.
    + cbn. auto.
    + cbn [flyPlayer]. cbv zeta.
      pose proof (stepPlayerMissile_stepped dt m1 s1 h1) as H1.
      pose proof (stepPlayerMissile_stepped dt m2 s2 h2) as H2.
      unfold playerStepped in H1, H2. rewrite <- Ha in H2.
      destruct (active m1) eqn:E1.
      * destruct H1 as (_ & _ & _ & _ & Hs1 & Hp1 & _ & Hc1).
        destruct H2 as (_ & _ & _ & _ & Hs2 & Hp2 & _ & Hc2).
        apply IH.
        -- rewrite Hp1 in Hc1. rewrite Hp2, <- Hp, <- Hs in Hc2.
           destruct (Qltb (progress m1 + speed m1 * dt) 1).
           ++ destruct Hc1 as [-> _], Hc2 as [-> _]. reflexivity.
           ++ destruct Hc1 as [-> _], Hc2 as [-> _]. reflexivity.
        -- rewrite Hp1, Hp2, Hp, Hs. reflexivity.
        -- rewrite Hs1, Hs2. exact Hs.
      * rewrite H1, H2. apply IH; [congruence|exact Hp|exact Hs].
  - intros Hact H0 Hsp Hdts _.
    assert (Hlt : progress m1 < 1) by (rewrite H0; reflexivity).
    assert (Hnn : 0 <= speed m1).
    { rewrite Hsp. intros Hc. discriminate Hc. }
    destruct (flyPlayer_exact dts m1 s1 h1 Hact Hlt Hnn Hdts)
      as (_ & _ & Hiff).
    specialize (Hiff Hsp H0). split.
    + intros Hle. apply Hiff. lra.
    + intros Hge.
      destruct (active (flyPlayer dts m1 s1 h1).1.1) eqn:E; [|reflexivity].
      exfalso. assert (Hc : Qsum dts < 50) by now apply Hiff. lra.
Qed.

(** ** What is drawn *)

Lemma omap_flat_map {A B C} (f : B -> option C) (g : A -> list B)
    (l : list A) :
  omap f (flat_map g l) = flat_map (fun a => omap f (g a)) l.
Proof.
  induction l as [|a l IH]; cbn; [reflexivity|].
  now rewrite omap_app, IH.
Qed.

Lemma flat_map_nil {A B} (g : A -> list B) (l : list A) :
  (forall a, g a = []) -> flat_map g l = [].
Proof.
  intros Hg. induction l as [|a l IH]; cbn; [reflexivity|].
  now rewrite Hg, IH.
Qed.

Lemma flat_map_single_filter {A B} (act : A -> bool) (f : A -> B)
    (g : A -> list B) (l : list A) :
  (forall a, g a = if act a then [f a] else []) ->
  flat_map g l = map f (List.filter act l).
Proof.
  intros Hg. induction l as [|a l IH]; cbn; [reflexivity|].
  rewrite Hg, IH. now destruct (act a).
Qed.

Lemma textsOf_app a b : textsOf (a ++ b) = textsOf a ++ textsOf b.
Proof. apply omap_app. Qed.

Lemma arcsOf_app a b : arcsOf (a ++ b) = arcsOf a ++ arcsOf b.
Proof. apply omap_app. Qed.

Lemma textsOf_flat_map {A} (g : A -> list CanvasOp) (l : list A) :
  textsOf (flat_map g l) = flat_map (fun a => textsOf (g a)) l.
Proof. apply omap_flat_map. Qed.

Lemma arcsOf_flat_map {A} (g : A -> list CanvasOp) (l : list A) :
  arcsOf (flat_map g l) = flat_map (fun a => arcsOf (g a)) l.
Proof. apply omap_flat_map. Qed.

(** X15.  What a frame shows.  With a canvas and a 2D context, [draw]
    writes exactly one label per active tower, in order, under the tower:
    its ammo in digits when it has rounds left and "EMPTY" when it has
    none; and it draws exactly one arc per active city (a dome of radius
    15) and one per explosion in the list (a disc of its current radius).
    Destroyed towers and cities leave no label and no arc.  Without a
    canvas or without a context nothing is drawn. *)
Theorem draw_shows_standing_structures_and_blasts (s : State) :
  textsOf (draw Context2D s) =
    map (fun t : Tower =>
           (if (0 <? ammo t)%Z then ammoText (ammo t) else "EMPTY"%string,
            x t, y t + 30))
        (List.filter (fun t : Tower => active t) (towers s)) /\
  arcsOf (draw Context2D s) =
    map (fun c : City => (x c, y c, 15))
        (List.filter (fun c : City => active c) (cities s)) ++
    map (fun e : Explosion => (x e, y e, radius e)) (explosions s) /\
  draw NoCanvas s = [] /\ draw NoContext s = [].
Proof.
  split; [|split; [|split; reflexivity]].
  - unfold draw. rewrite !textsOf_app, !textsOf_flat_map.
    rewrite (flat_map_nil (fun a => textsOf (drawCity a)))
      by (intros c; unfold drawCity; now destruct (active c)).
    rewrite (flat_map_nil (fun a => textsOf (drawPlayerMissile a)))
      by reflexivity.
    rewrite (flat_map_nil (fun a => textsOf (drawEnemyMissile a)))
      by reflexivity.
    rewrite (flat_map_nil (fun a => textsOf (drawExplosion a)))
      by reflexivity.
    change (textsOf drawBackground) with (@nil (string * Q * Q)).
    rewrite !app_nil_r. cbn [app].
    apply (flat_map_single_filter (fun t : Tower => active t)).
    intros t. unfold drawTower.
    destruct (active t); [|reflexivity].
    now destruct (0 <? ammo t)%Z.
  - unfold draw. rewrite !arcsOf_app, !arcsOf_flat_map.
    rewrite (flat_map_nil (fun a => arcsOf (drawTower a))).
    2:{ intros t. unfold drawTower. destruct (active t); [|reflexivity].
        now destruct (0 <? ammo t)%Z. }
    rewrite (flat_map_nil (fun a => arcsOf (drawPlayerMissile a)))
      by reflexivity.
    rewrite (flat_map_nil (fun a => arcsOf (drawEnemyMissile a)))
      by reflexivity.
    change (arcsOf drawBackground) with (@nil (Q * Q * Q)).
    cbn [app].
    rewrite (flat_map_single_filter (fun c : City => active c)
               (fun c : City => (x c, y c, 15)))
      by (intros c; unfold drawCity; now destruct (active c)).
    rewrite (flat_map_single_filter (fun _ : Explosion => true)
               (fun e : Explosion => (x e, y e, radius e)))
      by reflexivity.
    now rewrite List.filter_true.
Qed.

(** ** The outcome of a tick *)

(** X16.  The state a tick of the playing state leaves the session in:
    [defeat] exactly when no tower is active at the end of the tick,
    whatever the score and even if the wave was just completed; otherwise
    [victory] exactly when the score has reached 1000; otherwise
    [wave_complete] if the wave-complete branch was taken at the start of
    the tick, and [playing] if not. *)
Theorem tick_outcome (se : Session) (now time : Q) :
  gameState (view se) = playing ->
  let se' := step se (now, AnimationFrame time) in
  gameState (view se') =
    (if (length (activeTowers (game se')) =? 0)%nat then defeat
     else if (WIN_SCORE <=? score (game se'))%Z then victory
     else if waveDone (game se) then wave_complete
     else playing).
Proof.
  intros Hplay se'.
  destruct (frame_playing_spec se now time Hplay) as (_ & Htr & Hgs & _).
  fold se' in Htr, Hgs. rewrite Hgs, Htr.
  destruct (endGameCalls_cases (game se'))
    as [[-> H0]|[[-> [Hact Hw]]|[-> [Hact Hw]]]].
  - rewrite H0. cbn. now destruct (waveDone (game se)).
  - destruct (activeTowers (game se')) as [|t ts]; [contradiction|].
    apply Z.leb_le in Hw. cbn [length Nat.eqb]. rewrite Hw.
    now destruct (waveDone (game se)).
  - destruct (activeTowers (game se')) as [|t ts]; [contradiction|].
    apply Z.leb_gt in Hw. cbn [length Nat.eqb]. rewrite Hw.
    now destruct (waveDone (game se)).
Qed.

(** X17.  No dead entity stays in the lists and no wave overspends: at
    every point of every session all listed player missiles, enemy
    missiles and explosions are active, the number of enemies spawned in
    the wave is at most the wave's budget, and the wave number is at
    least 1. *)
Theorem lists_hold_only_active_entities
    (rnd : nat -> Q) (evs : list (Q * Input)) :
  let s := game (run (mount rnd) evs) in
  Forall (fun m : Missile => active m = true) (playerMissiles s) /\
  Forall (fun m : Missile => active m = true) (enemyMissiles s) /\
  Forall (fun e : Explosion => active e = true) (explosions s) /\
  (enemiesSpawned s <= enemiesToSpawn s)%Z /\
  (1 <= wave s)%Z.
Proof.
  cbv zeta.
  assert (H : forall se, wellFormed (game se) ->
                         wellFormed (game (run se evs))).
  { induction evs as [|ev evs IH]; intros se H0; [exact H0|].
    cbn. apply IH. now apply step_wellFormed. }
  destruct (H (mount rnd) (mount_wellFormed rnd)) as [_ Hb Hw Hp He Hx].
  repeat split; assumption.
Qed.

(** ** The explosion list over a tick *)

Lemma stepPlayerMissile_flying dt (m : Missile) s h :
  detonates dt m = false -> (stepPlayerMissile dt m s h).1.2 = s.
Proof.
  unfold detonates, stepPlayerMissile. intros Hd.
  destruct (active m); cbn [negb andb] in *; [|reflexivity].
  rewrite Hd.
  unfold mbind, Sim_bind, mret, Sim_ret, Math_random.
  destruct (Qltb _ 1); reflexivity.
Qed.

(** Step 2 pushes one blast per detonating missile, in order. *)
Lemma forEach_player_blasts dt (l : list Missile) :
  forall s h,
  exists blasts,
    explosions (forEach (stepPlayerMissile dt) l s h).1.2 =
      explosions s ++ blasts /\
    Forall2 (fun (e : Explosion) (m : Missile) =>
               blastAt e (targetX m) (targetY m) 70 1200 "#ffffff")
            blasts (List.filter (detonates dt) l).
Proof.
  induction l as [|m l IH]; intros s h.
  - exists []. cbn. rewrite app_nil_r. split; [reflexivity|constructor].
  - rewrite forEach_cons. cbv zeta. cbn [fst snd List.filter].
    destruct (detonates dt m) eqn:Hd.
    + unfold detonates in Hd. apply andb_true_iff in Hd as [Hact Hge].
      apply Qgeb_le in Hge.
      destruct (player_missile_detonates_at_target dt m s h Hact Hge)
        as [_ (i & Hs)].
      destruct (IH (stepPlayerMissile dt m s h).1.2
                   (stepPlayerMissile dt m s h).2) as (bl & He & Hb).
      exists (newExplosion i (targetX m) (targetY m) 70 1200 "#ffffff" :: bl).
      rewrite He, Hs. unfold push_explosion. cbn [explosions set_explosions].
      rewrite <- app_assoc. split; [reflexivity|].
      constructor; [repeat split|exact Hb].
    + destruct (IH (stepPlayerMissile dt m s h).1.2
                   (stepPlayerMissile dt m s h).2) as (bl & He & Hb).
      exists bl. rewrite He, (stepPlayerMissile_flying dt m s h Hd).
      split; [reflexivity|exact Hb].
Qed.

Lemma debrisAt_fresh (l : list Explosion) (k : list GameObject) :
  Forall2 debrisAt l k -> Forall (freshOf [(40, 800); (50, 1000)]) l.
Proof.
  induction 1 as [|e o l k [i ->] _ IH]; constructor; [|exact IH].
  repeat split. right. left. reflexivity.
Qed.

(** Step 3 pushes impact and debris explosions only. *)
Lemma updateEnemyMissiles_impacts dt s h :
  exists news,
    explosions (updateEnemyMissiles dt s h).1 = explosions s ++ news /\
    Forall (freshOf [(40, 800); (50, 1000)]) news.
Proof.
  rewrite updateEnemyMissiles_run. cbv zeta. cbn [fst snd].
  apply (forEach_invariant (stepEnemyMissile dt)
           (fun s' (_ : Host) =>
              exists news, explosions s' = explosions s ++ news /\
                           Forall (freshOf [(40, 800); (50, 1000)]) news)).
  - intros m s1 h1 (news & He & Hn).
    destruct (active m) eqn:Hact.
    + rewrite (stepEnemyMissile_run dt m _ h1 Hact). cbv zeta.
      destruct (Qgeb (enemyProgress dt m) 1); cbn [fst snd].
      * match goal with
        | |- context [wreckStructures ?p ?s2 ?h2] =>
            destruct (wreckStructures_spec p s2 h2)
              as (dc & dt' & Hrun & Hdc & Hdt & _)
        end.
        rewrite Hrun.
        eexists (news ++ [_] ++ dc ++ dt').
        split.
        -- cbn. rewrite He, <- !app_assoc. reflexivity.
        -- apply Forall_app. split; [exact Hn|].
           apply Forall_app. split.
           { constructor; [|constructor]. repeat split. left. reflexivity. }
           apply Forall_app. split; eapply debrisAt_fresh; eassumption.
      * now exists news.
    + unfold stepEnemyMissile. rewrite Hact. cbn. now exists news.
  - exists []. rewrite app_nil_r. split; [reflexivity|constructor].
Qed.

Lemma secondary_fresh (l : list Explosion) (k : list Missile) :
  Forall2 secondary l k -> Forall (freshOf [(30, 600)]) l.
Proof.
  induction 1 as [|e o l k [i ->] _ IH]; constructor; [|exact IH].
  repeat split. left. reflexivity.
Qed.

Lemma filter_active_fresh kinds (l : list Explosion) :
  Forall (freshOf kinds) l ->
  List.filter (fun e : Explosion => active e) l = l.
Proof.
  induction 1 as [|e l (Ha & _) _ IH]; [reflexivity|].
  cbn. now rewrite Ha, IH.
Qed.

(** The explosion list a tick leaves. *)
Lemma tick_explosions time s h :
  let dt := dtOf time s in
  exists blasts impacts secondaries : list Explosion,
    explosions (update playing time s h).1 =
      List.filter (fun e : Explosion => active e)
        (map (aged dt) (explosions s ++ blasts ++ impacts)) ++
      secondaries /\
    Forall2 (fun (e : Explosion) (m : Missile) =>
               blastAt e (targetX m) (targetY m) 70 1200 "#ffffff")
            blasts (List.filter (detonates dt) (playerMissiles s)) /\
    Forall (freshOf [(40, 800); (50, 1000)]) impacts /\
    Forall (freshOf [(30, 600)]) secondaries.
Proof.
  intros dt. rewrite update_phases. cbv zeta. fold dt.
  destruct (spawnEnemies_shape dt (set_lastTime time s) h)
    as (new & _ & _ & _ & _ & _ & _ & _ & _ & _ & _ & _ & P1 & X1 & _).
  cbn [playerMissiles explosions set_lastTime] in P1, X1.
  destruct (spawnEnemies dt (set_lastTime time s) h) as [s1 h1].
  cbn [fst snd] in *.
  destruct (forEach_player_blasts dt (playerMissiles s1) s1 h1)
    as (blasts & Hb & Hblasts).
  assert (X2 : explosions (updatePlayerMissiles dt s1 h1).1 =
               explosions s ++ blasts).
  { rewrite updatePlayerMissiles_run. cbv zeta. cbn [fst snd].
    cbn [explosions set_playerMissiles]. now rewrite Hb, X1. }
  rewrite P1 in Hblasts. clear Hb.
  destruct (updatePlayerMissiles dt s1 h1) as [s2 h2]. cbn [fst snd] in *.
  destruct (updateEnemyMissiles_impacts dt s2 h2) as (impacts & X3 & Himp).
  destruct (updateEnemyMissiles dt s2 h2) as [s3 h3]. cbn [fst snd] in *.
  destruct (updateExplosions_spec dt s3 h3)
    as (new4 & scs & hit & Hs4 & _ & Hsec & _).
  destruct (updateExplosions dt s3 h3) as [s4 h4]. cbn [fst snd] in *.
  injection Hs4 as Hs4. subst s4.
  exists blasts, impacts, new4.
  split; [|split; [exact Hblasts|split; [exact Himp|]]].
  - unfold cleanup. cbn. rewrite X3, X2, <- app_assoc.
    rewrite List.filter_app.
    now rewrite (filter_active_fresh _ new4 (secondary_fresh _ _ Hsec)).
  - eapply secondary_fresh. exact Hsec.
Qed.

Lemma blastRadius_cap (e : Explosion) (a : Q) :
  0 < duration e -> 0 <= maxRadius e -> blastRadius e a <= maxRadius e.
Proof.
  intros Hd Hm.
  pose proof (halfLife_pos e Hd) as Hc.
  rewrite (blastRadius_tent e Hd a).
  assert (Habs : 0 <= Qabs (a - halfLife e) / halfLife e).
  { apply Qle_shift_div_l; [exact Hc|].
    pose proof (Qabs_nonneg (a - halfLife e)). lra. }
  nra.
Qed.

Lemma blastKinds_positive (e : Explosion) :
  In (maxRadius e, duration e) blastKinds ->
  0 < duration e /\ 0 <= maxRadius e.
Proof.
  intros [H|[H|[H|[H|[]]]]]; injection H as <- <-; split;
    (reflexivity || (intros Hc; discriminate Hc)).
Qed.

Lemma fresh_withinKind kinds (e : Explosion) :
  incl kinds blastKinds -> freshOf kinds e -> withinKind e.
Proof.
  intros Hin (_ & Ha & Hr & Hk). apply Hin in Hk.
  destruct (blastKinds_positive e Hk) as [Hd Hm].
  split; [exact Hk|]. rewrite Ha, Hr. split; lra.
Qed.

Lemma aged_withinKind dt (e : Explosion) :
  In (maxRadius e, duration e) blastKinds ->
  active (aged dt e) = true -> withinKind (aged dt e).
Proof.
  intros Hk. destruct (blastKinds_positive e Hk) as [Hd Hm].
  unfold aged. destruct (active e) eqn:Ha; cbn [negb].
  2:{ intros Hc. congruence. }
  destruct (Qgtb (age e + dt) (duration e)) eqn:Hg.
  - cbn. intros Hc. discriminate Hc.
  - intros _. apply Qltb_ge in Hg.
    split; [exact Hk|]. cbn [radius maxRadius age duration explosion_with].
    split; [now apply blastRadius_cap|exact Hg].
Qed.

Lemma blastAt_fresh (l : list Explosion) (k : list Missile) :
  Forall2 (fun (e : Explosion) (m : Missile) =>
             blastAt e (targetX m) (targetY m) 70 1200 "#ffffff") l k ->
  Forall (freshOf [(70, 1200)]) l.
Proof.
  induction 1 as [|e m l k (_ & _ & Ha & Hr & Hg & Hm & Hd & _) _ IH];
    constructor; [|exact IH].
  repeat split; try assumption. left. now rewrite Hm, Hd.
Qed.

Lemma tick_withinKind time s h :
  Forall (fun e : Explosion => In (maxRadius e, duration e) blastKinds)
         (explosions s) ->
  Forall withinKind (explosions (update playing time s h).1).
Proof.
  intros Hk.
  destruct (tick_explosions time s h)
    as (blasts & impacts & secondaries & -> & Hb & Hi & Hs).
  assert (Hkinds : forall kinds l,
            incl kinds blastKinds -> Forall (freshOf kinds) l ->
            Forall (fun e : Explosion =>
                      In (maxRadius e, duration e) blastKinds) l).
  { intros kinds l Hin Hl. eapply Forall_impl; [exact Hl|].
    intros e (_ & _ & _ & He). now apply Hin. }
  apply Forall_app. split.
  - apply List.Forall_forall. intros e' Hin.
    apply List.filter_In in Hin as [Hin Hact].
    apply List.in_map_iff in Hin as (e & <- & Hin).
    apply aged_withinKind; [|exact Hact].
    assert (Hall : Forall (fun e : Explosion =>
                             In (maxRadius e, duration e) blastKinds)
                          (explosions s ++ blasts ++ impacts)).
    { apply Forall_app. split; [exact Hk|].
      apply Forall_app. split.
      - apply (Hkinds [(70, 1200)]); [|eapply blastAt_fresh; exact Hb].
        intros p [<-|[]]. left. reflexivity.
      - apply (Hkinds [(40, 800); (50, 1000)]); [|exact Hi].
        intros p [<-|[<-|[]]]; [right; left|right; right; left];
          reflexivity. }
    rewrite List.Forall_forall in Hall. now apply Hall.
  - eapply Forall_impl; [exact Hs|].
    intros e He. apply (fresh_withinKind [(30, 600)]); [|exact He].
    intros p [<-|[]]. right. right. right. left. reflexivity.
Qed.

Lemma withinKind_kind (l : list Explosion) :
  Forall withinKind l ->
  Forall (fun e : Explosion => In (maxRadius e, duration e) blastKinds) l.
Proof. intros H. eapply Forall_impl; [exact H|]. now intros e [He _]. Qed.

Lemma step_withinKind se ev :
  Forall withinKind (explosions (game se)) ->
  Forall withinKind (explosions (game (step se ev))).
Proof.
  intros Hwk. destruct ev as [now [time|canvas e| |]]; unfold step.
  - rewrite runHandler_run. cbn [game].
    assert (Hdec : gameState (view se) = playing \/
                   gameState (view se) <> playing)
      by (destruct (gameState (view se)); (now left) || (right; discriminate)).
    destruct Hdec as [->|Hgs].
    + now apply tick_withinKind, withinKind_kind.
    + now rewrite (update_idle _ time _ _ Hgs).
  - rewrite runHandler_run. cbn [game].
    destruct (handleInput_cases (gameState (view se)) canvas e (game se)
                (hostAt now se))
      as [->|(i & t & target & _ & _ & ->)]; exact Hwk.
  - destruct (buttonShown _); [|exact Hwk].
    rewrite runHandler_run, initGame_run. constructor.
  - destruct (timers se); [exact Hwk|].
    rewrite runHandler_run. cbn [game].
    destruct (waveTimeout_cases (game se) (hostAt now se)) as [->| ->];
      [exact Hwk|].
    rewrite startNextWave_run. constructor.
Qed.

(** X13.  No explosion outgrows its kind.  At every point of every
    session each listed explosion is of one of the four kinds the code
    creates ([maxRadius] and [duration] 70 and 1200, 40 and 800, 50 and
    1000, or 30 and 600), its radius is at most its [maxRadius] and its
    age at most its [duration]; and a tick of the playing state
    establishes the two bounds for any list of explosions of these
    kinds. *)
Theorem explosions_stay_within_their_kind :
  (forall (rnd : nat -> Q) (evs : list (Q * Input)),
     Forall (fun e : Explosion =>
               In (maxRadius e, duration e)
                  [(70, 1200); (40, 800); (50, 1000); (30, 600)] /\
               radius e <= maxRadius e /\ age e <= duration e)
            (explosions (game (run (mount rnd) evs)))) /\
  (forall (time : Q) (s : State) (h : Host),
     Forall (fun e : Explosion =>
               In (maxRadius e, duration e)
                  [(70, 1200); (40, 800); (50, 1000); (30, 600)])
            (explosions s) ->
     Forall (fun e : Explosion =>
               radius e <= maxRadius e /\ age e <= duration e)
            (explosions (update playing time s h).1)).
Proof.
  split.
  - intros rnd evs.
    assert (H : forall se, Forall withinKind (explosions (game se)) ->
                           Forall withinKind (explosions (game (run se evs)))).
    { induction evs as [|ev evs IH]; intros se H0; [exact H0|].
      cbn. apply IH. now apply step_withinKind. }
    apply (H (mount rnd)). constructor.
  - intros time s h Hk.
    eapply Forall_impl; [exact (tick_withinKind time s h Hk)|].
    now intros e [_ He].
Qed.

Lemma Forall2_In_r {A B} (R : A -> B -> Prop) (l : list A) (k : list B)
    (b : B) :
  Forall2 R l k -> In b k -> exists a, In a l /\ R a b.
Proof.
  induction 1 as [|a b' l k Hab _ IH]; intros Hin; [destruct Hin|].
  destruct Hin as [<-|Hin].
  - exists a. split; [now left|exact Hab].
  - destruct (IH Hin) as (a' & Ha' & HR). exists a'. split; [now right|exact HR].
Qed.

(** X18.  What a tick of the playing state does to the explosion list.
    The list it leaves holds the explosions it found, then one blast
    ([maxRadius] 70, [duration] 1200) at the target point of each player
    missile whose progress reached 1 in this tick, in the missiles' order,
    then the impact and debris explosions of this tick; all of these aged
    by [dt], resized, and dropped if that takes them past their duration;
    and behind them the secondary explosions of this tick's interceptions,
    still fresh (age 0, radius 0).  So the blast of a player missile that
    detonates in a tick of [dt <= 1200] is in the list when the tick
    ends, at the target point, with age [0 + dt] already. *)
Theorem explosions_after_a_tick (time : Q) (s : State) (h : Host) :
  let dt := dtOf time s in
  let s' := (update playing time s h).1 in
  (exists blasts impacts secondaries : list Explosion,
     explosions s' =
       List.filter (fun e : Explosion => active e)
         (map (aged dt) (explosions s ++ blasts ++ impacts)) ++
       secondaries /\
     Forall2 (fun (e : Explosion) (m : Missile) =>
                x e = targetX m /\ y e = targetY m /\ active e = true /\
                radius e = 0 /\ age e = 0 /\ maxRadius e = 70 /\
                duration e = 1200 /\ explosion_color e = "#ffffff"%string)
             blasts
             (List.filter
                (fun m : Missile =>
                   active m && Qgeb (progress m + speed m * dt) 1)
                (playerMissiles s)) /\
     Forall (fun e : Explosion =>
               active e = true /\ age e = 0 /\ radius e = 0 /\
               In (maxRadius e, duration e) [(40, 800); (50, 1000)])
            impacts /\
     Forall (fun e : Explosion =>
               active e = true /\ age e = 0 /\ radius e = 0 /\
               In (maxRadius e, duration e) [(30, 600)])
            secondaries) /\
  (forall m : Missile,
     In m (playerMissiles s) -> active m = true ->
     1 <= progress m + speed m * dt -> dt <= 1200 ->
     exists e : Explosion,
       In e (explosions s') /\ active e = true /\
       x e = targetX m /\ y e = targetY m /\
       maxRadius e = 70 /\ duration e = 1200 /\ age e = 0 + dt).
Proof.
  intros dt s'. subst s'.
  destruct (tick_explosions time s h)
    as (blasts & impacts & secondaries & He & Hb & Hi & Hs).
  fold dt in He, Hb.
  split; [exists blasts, impacts, secondaries; repeat split; assumption|].
  intros m Hin Hact Hge Hdt.
  assert (Hdet : In m (List.filter (detonates dt) (playerMissiles s))).
  { apply List.filter_In. split; [exact Hin|].
    unfold detonates. rewrite Hact. now apply Qgeb_le. }
  destruct (Forall2_In_r _ _ _ m Hb Hdet)
    as (e0 & Hin0 & Hx & Hy & Ha & Hr & Hg & Hm & Hd & _).
  exists (aged dt e0).
  assert (Hag : aged dt e0 =
                explosion_with e0 (blastRadius e0 (0 + dt)) (0 + dt) e0).
  { rewrite (aged_active dt e0 Ha), Hg, Hd.
    destruct (Qgtb (0 + dt) 1200) eqn:E; [|reflexivity].
    apply Qltb_lt in E. exfalso. lra. }
  split.
  - rewrite He. apply in_or_app. left. apply List.filter_In. split.
    + apply List.in_map. apply in_or_app. right. apply in_or_app. now left.
    + rewrite Hag. exact Ha.
  - rewrite Hag. cbn. repeat split; assumption.
Qed.

(** ** The further theorems at work on concrete sessions *)

Lemma trails_stay_bounded_witness :
  let s' := (update playing 1016 (underFire 0.5) sampleHost).1 in
  Forall (fun m : Missile => (length (trail m) <= 10)%nat)
         (playerMissiles s') /\
  Forall (fun m : Missile => (length (trail m) <= 5)%nat)
         (enemyMissiles s').
Proof.
  apply (proj2 trails_stay_bounded 1016 (underFire 0.5) sampleHost).
  - apply List.Forall_nil.
  - apply List.Forall_cons; [cbn; lia|apply List.Forall_nil].
Defined.

Lemma structures_are_never_rebuilt_witness :
  Forall2 (fun o o' : GameObject =>
             id o' = id o /\ x o' = x o /\ y o' = y o /\
             (active o' = true -> active o = true))
          (structures (game sampleSession))
          (structures
             (game (run sampleSession
                      [(2000, AnimationFrame 1016);
                       (2010, Pointer (Some canvasRect)
                                (MouseEvent 390 100))]))).
Proof.
  apply (structures_are_never_rebuilt sampleSession).
  apply List.Forall_cons; [cbn; discriminate|].
  apply List.Forall_cons; [cbn; discriminate|apply List.Forall_nil].
Defined.

Lemma time_step_is_the_gap_to_the_previous_frame_witness :
  let s1 := (update wave_complete 1016 (game sampleSession) sampleHost).1 in
  let s2 := (update playing 1032 s1 sampleHost).1 in
  lastTime s1 = 1016 /\ lastTime s2 = 1032 /\
  spawnTimer s2 = spawnTimer s1 + (1032 - 1016) /\
  s1 = set_lastTime 1016 (game sampleSession).
Proof.
  cbv zeta.
  destruct (time_step_is_the_gap_to_the_previous_frame wave_complete
              1016 1032 (game sampleSession) sampleHost sampleHost)
    as (H1 & H2 & Htimer & Hidle).
  split; [exact H1|]. split; [exact H2|]. split.
  - apply Htimer.
    + vm_compute. reflexivity.
    + intros Hc. vm_compute in Hc. discriminate Hc.
    + vm_compute. intros Hc. discriminate Hc.
  - apply Hidle. discriminate.
Defined.

Lemma game_is_frozen_outside_play_witness :
  let se := mount (fun _ => 0.5) in
  let evs := [(10, AnimationFrame 16);
              (20, Pointer (Some canvasRect) (MouseEvent 390 100))] in
  view (run se evs) = view se /\ timers (run se evs) = timers se /\
  exists t, game (run se evs) = set_lastTime t (game se).
Proof.
  cbv zeta. apply game_is_frozen_outside_play.
  - cbn. discriminate.
  - apply List.Forall_cons; [exact I|].
    apply List.Forall_cons; [exact I|apply List.Forall_nil].
Defined.

Lemma spawner_launches_one_missile_per_interval_witness :
  let s' := (update playing 1016 spawnDue sampleHost).1 in
  enemiesSpawned s' = (enemiesSpawned spawnDue + 1)%Z /\
  (enemiesSpawned s' <= enemiesToSpawn s')%Z.
Proof.
  cbv zeta.
  destruct (spawner_launches_one_missile_per_interval 1016 spawnDue
              sampleHost) as (H1 & _ & _ & H4 & _).
  split.
  - exact H1.
  - apply H4. vm_compute. discriminate.
Defined.

Lemma sampleHost_unitDraws : unitDraws sampleHost.
Proof. intros n. split; vm_compute; [discriminate|reflexivity]. Qed.

Lemma spawned_missile_is_aimed_at_a_structure_or_the_ground_witness :
  exists m : Missile,
    enemyMissiles (spawnEnemies 16 spawnDue sampleHost).1 = [m] /\
    startX m = 0.5 * GAME_WIDTH /\ startY m = 0 /\
    (exists o : GameObject,
       In o (structures spawnDue) /\ active o = true /\
       targetX m = x o /\ targetY m = y o) /\
    0.03 * enemySpeedMultiplier spawnDue <= speed m /\
    speed m <= 0.05 * enemySpeedMultiplier spawnDue.
Proof.
  destruct (spawned_missile_is_aimed_at_a_structure_or_the_ground
              16 spawnDue sampleHost sampleHost_unitDraws)
    as (m & Hm & Hx & _ & _ & Hy & Haim & _ & Hlo & Hhi).
  - vm_compute. discriminate.
  - vm_compute. reflexivity.
  - vm_compute. reflexivity.
  - exists m. split; [exact Hm|]. split; [exact Hx|]. split; [exact Hy|].
    split; [|split; [exact Hlo|exact Hhi]].
    apply Haim.
    + vm_compute. discriminate.
    + vm_compute. reflexivity.
Defined.

Lemma difficulty_after_k_waves_witness :
  let s' := afterWaves 3 (game sampleSession) sampleHost in
  wave s' = 4%Z /\ enemiesToSpawn s' = 18%Z /\
  spawnInterval s' == 1900 /\
  1 + 0.149 * 3 <= enemySpeedMultiplier s' /\
  enemySpeedMultiplier s' <= 1 + 0.151 * 3.
Proof.
  cbv zeta.
  destruct (difficulty_after_k_waves 3 (game sampleSession) sampleHost)
    as (Hw & _ & Hmul & Hk).
  destruct Hk as (Hn & _ & _ & _ & _ & _ & Hi & _); [lia|].
  split; [exact Hw|]. split; [|split].
  - rewrite Hn, Hw. reflexivity.
  - rewrite Hi; [rewrite Hw; reflexivity|rewrite Hw; vm_compute; discriminate].
  - apply Hmul.
    + lia.
    + vm_compute. discriminate.
    + vm_compute. discriminate.
Defined.

Lemma pointer_is_mapped_into_the_field_witness :
  (exists p : Point,
     eventTarget canvasRect (MouseEvent 390 100) = Some p /\
     0 <= px p /\ px p <= GAME_WIDTH + 0.000001 /\ 0 <= py p /\
     forall p' : Point,
       eventTarget canvasRect (MouseEvent 400 100) = Some p' ->
       px p <= px p') /\
  eventTarget {| rect_left := 0; rect_top := 0; rect_width := 0;
                 rect_height := 600 |} (MouseEvent 390 100) = None.
Proof.
  split.
  - destruct (proj1 (pointer_is_mapped_into_the_field
                       canvasRect 390 100))
      as (p & Hp & _ & _ & Hx & Hy & Hmono & Hin & _).
    + vm_compute. reflexivity.
    + vm_compute. reflexivity.
    + exists p. split; [exact Hp|]. split.
      * apply Hx. vm_compute. discriminate.
      * split.
        -- apply Hin; vm_compute; discriminate.
        -- split.
           ++ apply Hy. vm_compute. discriminate.
           ++ intros p' Hp'. apply (proj1 (Hmono 400 100 p' Hp')).
              vm_compute. discriminate.
  - apply (proj2 (pointer_is_mapped_into_the_field
                    {| rect_left := 0; rect_top := 0; rect_width := 0;
                       rect_height := 600 |} 390 100)).
    left. reflexivity.
Defined.

Lemma pending_timer_survives_a_restart_witness :
  let won := step (spentWave 950) (2000, AnimationFrame 1016) in
  let se' := run won [(3000, ClickStart); (4000, TimerFires)] in
  gameState (view won) = victory /\ timers won = 1%nat /\
  gameState (view se') = playing /\ wave (game se') = 2%Z /\
  score (game se') = 0%Z /\ enemiesToSpawn (game se') = 14%Z /\
  timers se' = 0%nat.
Proof.
  cbv zeta.
  assert (Hb : buttonShown
                 (gameState
                    (view (step (spentWave 950) (2000, AnimationFrame 1016))))
               = true) by (vm_compute; reflexivity).
  assert (Ht : timers (step (spentWave 950) (2000, AnimationFrame 1016))
               = 1%nat) by (vm_compute; reflexivity).
  destruct (pending_timer_survives_a_restart
              (step (spentWave 950) (2000, AnimationFrame 1016))
              3000 4000 0 Hb Ht)
    as (Hg & Hw & _ & Hs & Hn & _ & _ & _ & _ & _ & _ & _ & _ & Hr).
  split; [vm_compute; reflexivity|]. split; [exact Ht|].
  split; [exact Hg|]. split; [exact Hw|]. split; [exact Hs|].
  split; [exact Hn|exact Hr].
Defined.

Lemma explosions_stay_within_their_kind_witness :
  Forall (fun e : Explosion =>
            radius e <= maxRadius e /\ age e <= duration e)
         (explosions (update playing 1005 lastBlast sampleHost).1).
Proof.
  apply (proj2 explosions_stay_within_their_kind 1005 lastBlast sampleHost).
  apply List.Forall_cons; [left; reflexivity|apply List.Forall_nil].
Defined.

Lemma player_missile_flight_ignores_the_distance_witness :
  let a := (flyPlayer [16; 16; 17] sampleShot (game sampleSession)
              sampleHost).1.1 in
  let b := (flyPlayer [16; 16; 17] shortShot (game sampleSession)
              sampleHost).1.1 in
  (active a = active b /\ progress a = progress b /\ speed a = speed b) /\
  active a = true.
Proof.
  cbv zeta.
  destruct (player_missile_flight_ignores_the_distance [16; 16; 17]
              sampleShot shortShot (game sampleSession) (game sampleSession)
              sampleHost sampleHost eq_refl eq_refl eq_refl)
    as [Hsame Hfly].
  split; [exact Hsame|].
  apply Hfly; try reflexivity.
  - repeat (apply List.Forall_cons; [vm_compute; discriminate|]).
    apply List.Forall_nil.
  - vm_compute. discriminate.
  - vm_compute. discriminate.
Defined.

Lemma tick_outcome_witness :
  gameState (view (step (spentWave 950) (2000, AnimationFrame 1016))) =
  victory.
Proof.
  rewrite (tick_outcome (spentWave 950) 2000 1016 eq_refl).
  vm_compute. reflexivity.
Defined.

Lemma explosions_after_a_tick_witness :
  let m := missile_with sampleShot 0.9 [] sampleShot in
  let s' := (update playing 1016 shotLanding sampleHost).1 in
  exists e : Explosion,
    In e (explosions s') /\ active e = true /\
    x e = targetX m /\ y e = targetY m /\
    maxRadius e = 70 /\ duration e = 1200 /\
    age e = 0 + dtOf 1016 shotLanding.
Proof.
  cbv zeta.
  apply (proj2 (explosions_after_a_tick 1016 shotLanding sampleHost)
           (missile_with sampleShot 0.9 [] sampleShot)).
  - left. reflexivity.
  - reflexivity.
  - vm_compute. intros Hc. discriminate Hc.
  - vm_compute. intros Hc. discriminate Hc.
Defined.
